(** * A shallow embedding of the AR pong game (src/pong-game.js)

    The file embeds the simulation core of [PongGame] and the two array
    helpers of [ARScene] it relies on, and proves the properties stated for
    them.  After the game come the debug panel ([DebugUtility]) and the
    method of the application that creates and disposes of games
    ([App.loadExperience]).

    Numbers.  JavaScript numbers are modelled by the real numbers of the
    Standard Library: arithmetic is exact, [Math.sqrt], [Math.sin],
    [Math.cos] and [Math.PI] are [sqrt], [sin], [cos] and [PI], and there is
    neither rounding nor NaN.  Counters that the code only ever increments
    from zero (scores, level, trail counter) are natural numbers.

    Effects.  Every method mutates [this]; a method is embedded as a function
    from the game state to the game state.  [Math.random] reads the next
    element of a stream of draws kept in the state.  [setTimeout] appends to
    a list of pending timeouts kept in the state; the host fires them later
    through [runTimeout].  Object identity (three.js [Object3D.id], function
    objects) is a natural number drawn from a counter kept with the scene,
    the one object shared by successive games. *)

From stdpp Require Import base list.
From Stdlib Require Import Reals Lra Lia.
From Stdlib Require String.

Open Scope R_scope.

(** ** Numeric helpers *)

Definition Rltb (a b : R) : bool := if Rlt_dec a b then true else false.
Definition Rleb (a b : R) : bool := if Rle_dec a b then true else false.

Infix "<?" := Rltb : R_scope.
Infix "<=?" := Rleb : R_scope.
Notation "a >? b" := (Rltb b a) (only parsing) : R_scope.
Notation "a >=? b" := (Rleb b a) (only parsing) : R_scope.

(** [Math.sign] on numbers (no NaN, no negative zero). *)
Definition Math_sign (a : R) : R :=
  if 0 <? a then 1 else if a <? 0 then -1 else 0.

Definition Math_min (a b : R) : R := Rmin a b.
Definition Math_max (a b : R) : R := Rmax a b.

(** A [Float32Array]: reads and writes by index; a write past the end is
    ignored, which is what [<[i:=v]>] does on lists. *)
Definition array_get (a : list R) (i : nat) : R := default 0 (a !! i).
Definition array_set (a : list R) (i : nat) (v : R) : list R := <[i:=v]> a.

(** ** The part of three.js the game uses *)

Module THREE.

Record Vector2 := Vec2 { x2 : R; y2 : R }.

Record Vector3 := Vec3 { x : R; y : R; z : R }.

Record Color := RGB { r : R; g : R; b : R }.

Definition set_x (v : R) (p : Vector3) : Vector3 := Vec3 v (y p) (z p).
Definition set_y (v : R) (p : Vector3) : Vector3 := Vec3 (x p) v (z p).
Definition set_z (v : R) (p : Vector3) : Vector3 := Vec3 (x p) (y p) v.

Definition add (p q : Vector3) : Vector3 :=
  Vec3 (x p + x q) (y p + y q) (z p + z q).

Definition multiplyScalar (p : Vector3) (s : R) : Vector3 :=
  Vec3 (x p * s) (y p * s) (z p * s).

(** The Euclidean length, [Vector3.length()]. *)
Definition length (p : Vector3) : R :=
  sqrt (x p * x p + y p * y p + z p * z p).

(** [new THREE.Color(hex)]: the three bytes of [hex] scaled to [0, 1]. *)
Definition Color_hex (hex : Z) : Color :=
  RGB (IZR (Z.land (Z.shiftr hex 16) 255) / 255)
      (IZR (Z.land (Z.shiftr hex 8) 255) / 255)
      (IZR (Z.land hex 255) / 255).

End THREE.

(** ** Data model *)

(** A mesh of the scene graph: its identity, position and rotation. *)
Record Mesh := {
  mesh_id : nat;
  position : THREE.Vector3;
  rotation : THREE.Vector3
}.

(** One pooled [THREE.Points] with its [userData]. *)
Record ParticleSystem := {
  ps_id : nat;
  ps_position : THREE.Vector3;
  visible : bool;
  positions : list R;
  colors : list R;
  sizes : list R;
  velocities : list R;
  active : bool;
  lifetime : R;
  maxLifetime : R
}.

(** A floating "+1" sprite with its [userData]. *)
Record Sprite := {
  sprite_id : nat;
  sprite_position : THREE.Vector3;
  scale : THREE.Vector3;
  opacity : R;
  sprite_lifetime : R;
  sprite_maxLifetime : R;
  initialY : R
}.

Inductive Sound := launch | wall | paddle | score | win.

(** The Web Audio context: whether it was closed, and the sounds started. *)
Record AudioContext := {
  closed : bool;
  started : list Sound
}.

Inductive PaddleId := Player | AI.

(** The callbacks the game hands to [setTimeout]. *)
Inductive Timeout :=
| LaunchBall
| FlashReset (p : PaddleId)
| Celebrate
| RoundReset.

(** The two arrays of [ARScene] the game reaches through its helpers. *)
Record ARScene := {
  objects : list nat;
  onUpdateCallbacks : list nat;
  debugMode : bool;
  nextId : nat
}.

Record PongGame := {
  arScene : ARScene;
  table : nat;
  ball : Mesh;
  playerPaddle : Mesh;
  aiPaddle : Mesh;
  walls : list nat;
  particles : list nat;
  scoreIndicators : list Sprite;
  isPlaying : bool;
  playerScore : nat;
  aiScore : nat;
  ballVelocity : THREE.Vector3;
  ballSpeed : R;
  lastPosition : THREE.Vector3;
  gameLevel : nat;
  pointerDown : bool;
  lastPointerPosition : THREE.Vector2;
  pointerDelta : THREE.Vector2;
  playerScoreElement : option nat;
  aiScoreElement : option nat;
  particlePool : list ParticleSystem;
  trailUpdateCounter : nat;
  trail : list R;
  audioContext : option AudioContext;
  timeouts : list (R * Timeout);
  rng : nat -> R;
  rngNext : nat
}.

(** Field updates, one per mutated field. *)

Definition set_position (v : THREE.Vector3) (m : Mesh) : Mesh :=
  Build_Mesh (mesh_id m) v (rotation m).
Definition set_rotation (v : THREE.Vector3) (m : Mesh) : Mesh :=
  Build_Mesh (mesh_id m) (position m) v.

Definition set_ps_position (v : THREE.Vector3) (ps : ParticleSystem) : ParticleSystem :=
  Build_ParticleSystem (ps_id ps) v (visible ps) (positions ps) (colors ps)
    (sizes ps) (velocities ps) (active ps) (lifetime ps) (maxLifetime ps).
Definition set_visible (v : bool) (ps : ParticleSystem) : ParticleSystem :=
  Build_ParticleSystem (ps_id ps) (ps_position ps) v (positions ps) (colors
    ps) (sizes ps) (velocities ps) (active ps) (lifetime ps) (maxLifetime
    ps).
Definition set_positions (v : list R) (ps : ParticleSystem) : ParticleSystem :=
  Build_ParticleSystem (ps_id ps) (ps_position ps) (visible ps) v (colors
    ps) (sizes ps) (velocities ps) (active ps) (lifetime ps) (maxLifetime
    ps).
Definition set_colors (v : list R) (ps : ParticleSystem) : ParticleSystem :=
  Build_ParticleSystem (ps_id ps) (ps_position ps) (visible ps) (positions
    ps) v (sizes ps) (velocities ps) (active ps) (lifetime ps) (maxLifetime
    ps).
Definition set_velocities (v : list R) (ps : ParticleSystem) : ParticleSystem :=
  Build_ParticleSystem (ps_id ps) (ps_position ps) (visible ps) (positions
    ps) (colors ps) (sizes ps) v (active ps) (lifetime ps) (maxLifetime ps).
Definition set_active (v : bool) (ps : ParticleSystem) : ParticleSystem :=
  Build_ParticleSystem (ps_id ps) (ps_position ps) (visible ps) (positions
    ps) (colors ps) (sizes ps) (velocities ps) v (lifetime ps) (maxLifetime
    ps).
Definition set_lifetime (v : R) (ps : ParticleSystem) : ParticleSystem :=
  Build_ParticleSystem (ps_id ps) (ps_position ps) (visible ps) (positions
    ps) (colors ps) (sizes ps) (velocities ps) (active ps) v (maxLifetime
    ps).

Definition set_sprite_position (v : THREE.Vector3) (sp : Sprite) : Sprite :=
  Build_Sprite (sprite_id sp) v (scale sp) (opacity sp) (sprite_lifetime sp)
    (sprite_maxLifetime sp) (initialY sp).
Definition set_scale (v : THREE.Vector3) (sp : Sprite) : Sprite :=
  Build_Sprite (sprite_id sp) (sprite_position sp) v (opacity sp)
    (sprite_lifetime sp) (sprite_maxLifetime sp) (initialY sp).
Definition set_opacity (v : R) (sp : Sprite) : Sprite :=
  Build_Sprite (sprite_id sp) (sprite_position sp) (scale sp) v
    (sprite_lifetime sp) (sprite_maxLifetime sp) (initialY sp).
Definition set_sprite_lifetime (v : R) (sp : Sprite) : Sprite :=
  Build_Sprite (sprite_id sp) (sprite_position sp) (scale sp) (opacity sp) v
    (sprite_maxLifetime sp) (initialY sp).

Definition set_objects (v : list nat) (sc : ARScene) : ARScene :=
  Build_ARScene v (onUpdateCallbacks sc) (debugMode sc) (nextId sc).
Definition set_onUpdateCallbacks (v : list nat) (sc : ARScene) : ARScene :=
  Build_ARScene (objects sc) v (debugMode sc) (nextId sc).
Definition set_nextId (v : nat) (sc : ARScene) : ARScene :=
  Build_ARScene (objects sc) (onUpdateCallbacks sc) (debugMode sc) v.

Definition set_arScene (v : ARScene) (this : PongGame) : PongGame :=
  Build_PongGame v (table this) (ball this) (playerPaddle this) (aiPaddle
    this) (walls this) (particles this) (scoreIndicators this) (isPlaying
    this) (playerScore this) (aiScore this) (ballVelocity this) (ballSpeed
    this) (lastPosition this) (gameLevel this) (pointerDown this)
    (lastPointerPosition this) (pointerDelta this) (playerScoreElement this)
    (aiScoreElement this) (particlePool this) (trailUpdateCounter this)
    (trail this) (audioContext this) (timeouts this) (rng this) (rngNext
    this).
Definition set_table (v : nat) (this : PongGame) : PongGame :=
  Build_PongGame (arScene this) v (ball this) (playerPaddle this) (aiPaddle
    this) (walls this) (particles this) (scoreIndicators this) (isPlaying
    this) (playerScore this) (aiScore this) (ballVelocity this) (ballSpeed
    this) (lastPosition this) (gameLevel this) (pointerDown this)
    (lastPointerPosition this) (pointerDelta this) (playerScoreElement this)
    (aiScoreElement this) (particlePool this) (trailUpdateCounter this)
    (trail this) (audioContext this) (timeouts this) (rng this) (rngNext
    this).
Definition set_ball (v : Mesh) (this : PongGame) : PongGame :=
  Build_PongGame (arScene this) (table this) v (playerPaddle this) (aiPaddle
    this) (walls this) (particles this) (scoreIndicators this) (isPlaying
    this) (playerScore this) (aiScore this) (ballVelocity this) (ballSpeed
    this) (lastPosition this) (gameLevel this) (pointerDown this)
    (lastPointerPosition this) (pointerDelta this) (playerScoreElement this)
    (aiScoreElement this) (particlePool this) (trailUpdateCounter this)
    (trail this) (audioContext this) (timeouts this) (rng this) (rngNext
    this).
Definition set_playerPaddle (v : Mesh) (this : PongGame) : PongGame :=
  Build_PongGame (arScene this) (table this) (ball this) v (aiPaddle this)
    (walls this) (particles this) (scoreIndicators this) (isPlaying this)
    (playerScore this) (aiScore this) (ballVelocity this) (ballSpeed this)
    (lastPosition this) (gameLevel this) (pointerDown this)
    (lastPointerPosition this) (pointerDelta this) (playerScoreElement this)
    (aiScoreElement this) (particlePool this) (trailUpdateCounter this)
    (trail this) (audioContext this) (timeouts this) (rng this) (rngNext
    this).
Definition set_aiPaddle (v : Mesh) (this : PongGame) : PongGame :=
  Build_PongGame (arScene this) (table this) (ball this) (playerPaddle this)
    v (walls this) (particles this) (scoreIndicators this) (isPlaying this)
    (playerScore this) (aiScore this) (ballVelocity this) (ballSpeed this)
    (lastPosition this) (gameLevel this) (pointerDown this)
    (lastPointerPosition this) (pointerDelta this) (playerScoreElement this)
    (aiScoreElement this) (particlePool this) (trailUpdateCounter this)
    (trail this) (audioContext this) (timeouts this) (rng this) (rngNext
    this).
Definition set_walls (v : list nat) (this : PongGame) : PongGame :=
  Build_PongGame (arScene this) (table this) (ball this) (playerPaddle this)
    (aiPaddle this) v (particles this) (scoreIndicators this) (isPlaying
    this) (playerScore this) (aiScore this) (ballVelocity this) (ballSpeed
    this) (lastPosition this) (gameLevel this) (pointerDown this)
    (lastPointerPosition this) (pointerDelta this) (playerScoreElement this)
    (aiScoreElement this) (particlePool this) (trailUpdateCounter this)
    (trail this) (audioContext this) (timeouts this) (rng this) (rngNext
    this).
Definition set_particles (v : list nat) (this : PongGame) : PongGame :=
  Build_PongGame (arScene this) (table this) (ball this) (playerPaddle this)
    (aiPaddle this) (walls this) v (scoreIndicators this) (isPlaying this)
    (playerScore this) (aiScore this) (ballVelocity this) (ballSpeed this)
    (lastPosition this) (gameLevel this) (pointerDown this)
    (lastPointerPosition this) (pointerDelta this) (playerScoreElement this)
    (aiScoreElement this) (particlePool this) (trailUpdateCounter this)
    (trail this) (audioContext this) (timeouts this) (rng this) (rngNext
    this).
Definition set_scoreIndicators (v : list Sprite) (this : PongGame) : PongGame :=
  Build_PongGame (arScene this) (table this) (ball this) (playerPaddle this)
    (aiPaddle this) (walls this) (particles this) v (isPlaying this)
    (playerScore this) (aiScore this) (ballVelocity this) (ballSpeed this)
    (lastPosition this) (gameLevel this) (pointerDown this)
    (lastPointerPosition this) (pointerDelta this) (playerScoreElement this)
    (aiScoreElement this) (particlePool this) (trailUpdateCounter this)
    (trail this) (audioContext this) (timeouts this) (rng this) (rngNext
    this).
Definition set_isPlaying (v : bool) (this : PongGame) : PongGame :=
  Build_PongGame (arScene this) (table this) (ball this) (playerPaddle this)
    (aiPaddle this) (walls this) (particles this) (scoreIndicators this) v
    (playerScore this) (aiScore this) (ballVelocity this) (ballSpeed this)
    (lastPosition this) (gameLevel this) (pointerDown this)
    (lastPointerPosition this) (pointerDelta this) (playerScoreElement this)
    (aiScoreElement this) (particlePool this) (trailUpdateCounter this)
    (trail this) (audioContext this) (timeouts this) (rng this) (rngNext
    this).
Definition set_playerScore (v : nat) (this : PongGame) : PongGame :=
  Build_PongGame (arScene this) (table this) (ball this) (playerPaddle this)
    (aiPaddle this) (walls this) (particles this) (scoreIndicators this)
    (isPlaying this) v (aiScore this) (ballVelocity this) (ballSpeed this)
    (lastPosition this) (gameLevel this) (pointerDown this)
    (lastPointerPosition this) (pointerDelta this) (playerScoreElement this)
    (aiScoreElement this) (particlePool this) (trailUpdateCounter this)
    (trail this) (audioContext this) (timeouts this) (rng this) (rngNext
    this).
Definition set_aiScore (v : nat) (this : PongGame) : PongGame :=
  Build_PongGame (arScene this) (table this) (ball this) (playerPaddle this)
    (aiPaddle this) (walls this) (particles this) (scoreIndicators this)
    (isPlaying this) (playerScore this) v (ballVelocity this) (ballSpeed
    this) (lastPosition this) (gameLevel this) (pointerDown this)
    (lastPointerPosition this) (pointerDelta this) (playerScoreElement this)
    (aiScoreElement this) (particlePool this) (trailUpdateCounter this)
    (trail this) (audioContext this) (timeouts this) (rng this) (rngNext
    this).
Definition set_ballVelocity (v : THREE.Vector3) (this : PongGame) : PongGame :=
  Build_PongGame (arScene this) (table this) (ball this) (playerPaddle this)
    (aiPaddle this) (walls this) (particles this) (scoreIndicators this)
    (isPlaying this) (playerScore this) (aiScore this) v (ballSpeed this)
    (lastPosition this) (gameLevel this) (pointerDown this)
    (lastPointerPosition this) (pointerDelta this) (playerScoreElement this)
    (aiScoreElement this) (particlePool this) (trailUpdateCounter this)
    (trail this) (audioContext this) (timeouts this) (rng this) (rngNext
    this).
Definition set_ballSpeed (v : R) (this : PongGame) : PongGame :=
  Build_PongGame (arScene this) (table this) (ball this) (playerPaddle this)
    (aiPaddle this) (walls this) (particles this) (scoreIndicators this)
    (isPlaying this) (playerScore this) (aiScore this) (ballVelocity this) v
    (lastPosition this) (gameLevel this) (pointerDown this)
    (lastPointerPosition this) (pointerDelta this) (playerScoreElement this)
    (aiScoreElement this) (particlePool this) (trailUpdateCounter this)
    (trail this) (audioContext this) (timeouts this) (rng this) (rngNext
    this).
Definition set_lastPosition (v : THREE.Vector3) (this : PongGame) : PongGame :=
  Build_PongGame (arScene this) (table this) (ball this) (playerPaddle this)
    (aiPaddle this) (walls this) (particles this) (scoreIndicators this)
    (isPlaying this) (playerScore this) (aiScore this) (ballVelocity this)
    (ballSpeed this) v (gameLevel this) (pointerDown this)
    (lastPointerPosition this) (pointerDelta this) (playerScoreElement this)
    (aiScoreElement this) (particlePool this) (trailUpdateCounter this)
    (trail this) (audioContext this) (timeouts this) (rng this) (rngNext
    this).
Definition set_gameLevel (v : nat) (this : PongGame) : PongGame :=
  Build_PongGame (arScene this) (table this) (ball this) (playerPaddle this)
    (aiPaddle this) (walls this) (particles this) (scoreIndicators this)
    (isPlaying this) (playerScore this) (aiScore this) (ballVelocity this)
    (ballSpeed this) (lastPosition this) v (pointerDown this)
    (lastPointerPosition this) (pointerDelta this) (playerScoreElement this)
    (aiScoreElement this) (particlePool this) (trailUpdateCounter this)
    (trail this) (audioContext this) (timeouts this) (rng this) (rngNext
    this).
Definition set_pointerDown (v : bool) (this : PongGame) : PongGame :=
  Build_PongGame (arScene this) (table this) (ball this) (playerPaddle this)
    (aiPaddle this) (walls this) (particles this) (scoreIndicators this)
    (isPlaying this) (playerScore this) (aiScore this) (ballVelocity this)
    (ballSpeed this) (lastPosition this) (gameLevel this) v
    (lastPointerPosition this) (pointerDelta this) (playerScoreElement this)
    (aiScoreElement this) (particlePool this) (trailUpdateCounter this)
    (trail this) (audioContext this) (timeouts this) (rng this) (rngNext
    this).
Definition set_lastPointerPosition (v : THREE.Vector2) (this : PongGame) : PongGame :=
  Build_PongGame (arScene this) (table this) (ball this) (playerPaddle this)
    (aiPaddle this) (walls this) (particles this) (scoreIndicators this)
    (isPlaying this) (playerScore this) (aiScore this) (ballVelocity this)
    (ballSpeed this) (lastPosition this) (gameLevel this) (pointerDown this)
    v (pointerDelta this) (playerScoreElement this) (aiScoreElement this)
    (particlePool this) (trailUpdateCounter this) (trail this) (audioContext
    this) (timeouts this) (rng this) (rngNext this).
Definition set_pointerDelta (v : THREE.Vector2) (this : PongGame) : PongGame :=
  Build_PongGame (arScene this) (table this) (ball this) (playerPaddle this)
    (aiPaddle this) (walls this) (particles this) (scoreIndicators this)
    (isPlaying this) (playerScore this) (aiScore this) (ballVelocity this)
    (ballSpeed this) (lastPosition this) (gameLevel this) (pointerDown this)
    (lastPointerPosition this) v (playerScoreElement this) (aiScoreElement
    this) (particlePool this) (trailUpdateCounter this) (trail this)
    (audioContext this) (timeouts this) (rng this) (rngNext this).
Definition set_playerScoreElement (v : option nat) (this : PongGame) : PongGame :=
  Build_PongGame (arScene this) (table this) (ball this) (playerPaddle this)
    (aiPaddle this) (walls this) (particles this) (scoreIndicators this)
    (isPlaying this) (playerScore this) (aiScore this) (ballVelocity this)
    (ballSpeed this) (lastPosition this) (gameLevel this) (pointerDown this)
    (lastPointerPosition this) (pointerDelta this) v (aiScoreElement this)
    (particlePool this) (trailUpdateCounter this) (trail this) (audioContext
    this) (timeouts this) (rng this) (rngNext this).
Definition set_aiScoreElement (v : option nat) (this : PongGame) : PongGame :=
  Build_PongGame (arScene this) (table this) (ball this) (playerPaddle this)
    (aiPaddle this) (walls this) (particles this) (scoreIndicators this)
    (isPlaying this) (playerScore this) (aiScore this) (ballVelocity this)
    (ballSpeed this) (lastPosition this) (gameLevel this) (pointerDown this)
    (lastPointerPosition this) (pointerDelta this) (playerScoreElement this)
    v (particlePool this) (trailUpdateCounter this) (trail this)
    (audioContext this) (timeouts this) (rng this) (rngNext this).
Definition set_particlePool (v : list ParticleSystem) (this : PongGame) : PongGame :=
  Build_PongGame (arScene this) (table this) (ball this) (playerPaddle this)
    (aiPaddle this) (walls this) (particles this) (scoreIndicators this)
    (isPlaying this) (playerScore this) (aiScore this) (ballVelocity this)
    (ballSpeed this) (lastPosition this) (gameLevel this) (pointerDown this)
    (lastPointerPosition this) (pointerDelta this) (playerScoreElement this)
    (aiScoreElement this) v (trailUpdateCounter this) (trail this)
    (audioContext this) (timeouts this) (rng this) (rngNext this).
Definition set_trailUpdateCounter (v : nat) (this : PongGame) : PongGame :=
  Build_PongGame (arScene this) (table this) (ball this) (playerPaddle this)
    (aiPaddle this) (walls this) (particles this) (scoreIndicators this)
    (isPlaying this) (playerScore this) (aiScore this) (ballVelocity this)
    (ballSpeed this) (lastPosition this) (gameLevel this) (pointerDown this)
    (lastPointerPosition this) (pointerDelta this) (playerScoreElement this)
    (aiScoreElement this) (particlePool this) v (trail this) (audioContext
    this) (timeouts this) (rng this) (rngNext this).
Definition set_trail (v : list R) (this : PongGame) : PongGame :=
  Build_PongGame (arScene this) (table this) (ball this) (playerPaddle this)
    (aiPaddle this) (walls this) (particles this) (scoreIndicators this)
    (isPlaying this) (playerScore this) (aiScore this) (ballVelocity this)
    (ballSpeed this) (lastPosition this) (gameLevel this) (pointerDown this)
    (lastPointerPosition this) (pointerDelta this) (playerScoreElement this)
    (aiScoreElement this) (particlePool this) (trailUpdateCounter this) v
    (audioContext this) (timeouts this) (rng this) (rngNext this).
Definition set_audioContext (v : option AudioContext) (this : PongGame) : PongGame :=
  Build_PongGame (arScene this) (table this) (ball this) (playerPaddle this)
    (aiPaddle this) (walls this) (particles this) (scoreIndicators this)
    (isPlaying this) (playerScore this) (aiScore this) (ballVelocity this)
    (ballSpeed this) (lastPosition this) (gameLevel this) (pointerDown this)
    (lastPointerPosition this) (pointerDelta this) (playerScoreElement this)
    (aiScoreElement this) (particlePool this) (trailUpdateCounter this)
    (trail this) v (timeouts this) (rng this) (rngNext this).
Definition set_timeouts (v : list (R * Timeout)) (this : PongGame) : PongGame :=
  Build_PongGame (arScene this) (table this) (ball this) (playerPaddle this)
    (aiPaddle this) (walls this) (particles this) (scoreIndicators this)
    (isPlaying this) (playerScore this) (aiScore this) (ballVelocity this)
    (ballSpeed this) (lastPosition this) (gameLevel this) (pointerDown this)
    (lastPointerPosition this) (pointerDelta this) (playerScoreElement this)
    (aiScoreElement this) (particlePool this) (trailUpdateCounter this)
    (trail this) (audioContext this) v (rng this) (rngNext this).
Definition set_rngNext (v : nat) (this : PongGame) : PongGame :=
  Build_PongGame (arScene this) (table this) (ball this) (playerPaddle this)
    (aiPaddle this) (walls this) (particles this) (scoreIndicators this)
    (isPlaying this) (playerScore this) (aiScore this) (ballVelocity this)
    (ballSpeed this) (lastPosition this) (gameLevel this) (pointerDown this)
    (lastPointerPosition this) (pointerDelta this) (playerScoreElement this)
    (aiScoreElement this) (particlePool this) (trailUpdateCounter this)
    (trail this) (audioContext this) (timeouts this) (rng this) v.

(** ** Constants of the constructor

    The constructor assigns these fields once and no method writes them. *)

Definition winningScore : nat := 5.

Definition tableWidth : R := 0.8.
Definition tableDepth : R := 1.2.
Definition tableHeight : R := 0.01.
Definition playAreaHeight : R := 0.6.
Definition wallHeight : R := playAreaHeight.
Definition paddleWidth : R := 0.15.
Definition paddleHeight : R := 0.15.
Definition paddleDepth : R := 0.01.
Definition ballRadius : R := 0.02.

Definition gravity : R := -0.3.
Definition groundDamping : R := 0.8.

Definition paddleVerticalRange : R := playAreaHeight - paddleHeight.
Definition paddleDepthRange : R := tableDepth * 0.4.
Definition aiPaddleMovementSpeed : R := 0.5.

Definition verticalSensitivity : R := 1.0.
Definition depthSensitivity : R := 0.5.

(** ** Control helpers *)

(** [for (let i = 0; i < n; i++) body(i)], the state threaded through. *)
Definition for_loop {S : Type} (n : nat) (body : nat -> S -> S) (s : S) : S :=
  fold_left (fun acc i => body i acc) (seq 0 n) s.

(** [for (let i = n - 1; i > 0; i--) body(i)]. *)
Definition for_down {S : Type} (n : nat) (body : nat -> S -> S) (s : S) : S :=
  fold_left (fun acc i => body i acc) (rev (seq 1 (n - 1))) s.

(** [Math.random()]: the next draw of the stream. *)
Definition Math_random (this : PongGame) : R * PongGame :=
  (rng this (rngNext this), set_rngNext (S (rngNext this)) this).

(** [setTimeout(callback, delay)], delay in milliseconds. *)
Definition setTimeout (callback : Timeout) (delay : R) (this : PongGame)
  : PongGame :=
  set_timeouts (timeouts this ++ [(delay, callback)]) this.

(** [Array.prototype.indexOf] on identities. *)
Definition indexOf (l : list nat) (o : nat) : option nat :=
  fst <$> list_find (fun o' => o' = o) l.

(** ** ARScene helpers *)

Module Scene.

(** A fresh identity for a newly allocated object. *)
Definition fresh (sc : ARScene) : nat * ARScene :=
  (nextId sc, set_nextId (S (nextId sc)) sc).

Definition addObject (object : nat) (sc : ARScene) : ARScene :=
  set_objects (objects sc ++ [object]) sc.

Definition removeObject (object : nat) (sc : ARScene) : ARScene :=
  match indexOf (objects sc) object with
  | Some index => set_objects (delete index (objects sc)) sc
  | None => sc
  end.

Definition addUpdateCallback (callback : nat) (sc : ARScene) : ARScene :=
  set_onUpdateCallbacks (onUpdateCallbacks sc ++ [callback]) sc.

Definition removeUpdateCallback (callback : nat) (sc : ARScene) : ARScene :=
  match indexOf (onUpdateCallbacks sc) callback with
  | Some index =>
      set_onUpdateCallbacks (delete index (onUpdateCallbacks sc)) sc
  | None => sc
  end.

End Scene.

(** The game's view of the scene helpers. *)
Definition fresh (this : PongGame) : nat * PongGame :=
  let '(id, sc) := Scene.fresh (arScene this) in (id, set_arScene sc this).

Definition addObject (object : nat) (this : PongGame) : PongGame :=
  set_arScene (Scene.addObject object (arScene this)) this.

Definition removeObject (object : nat) (this : PongGame) : PongGame :=
  set_arScene (Scene.removeObject object (arScene this)) this.

(** [this.update.bind(this)]: every evaluation allocates a new function
    object. *)
Definition bind_update (this : PongGame) : nat * PongGame := fresh this.

(** ** Sound *)

(** [playSound(type)]: nothing without an audio context; otherwise the
    oscillators of [type] are started on it. *)
Definition playSound (type : Sound) (this : PongGame) : PongGame :=
  match audioContext this with
  | None => this
  | Some ctx =>
      set_audioContext
        (Some {| closed := closed ctx; started := started ctx ++ [type] |})
        this
  end.

(** ** Particle pool *)

(** Apply [f] to the pooled system at index [slot].  The pool is never
    reordered, so the index is the reference the code holds. *)
Definition with_ps (slot : nat) (f : ParticleSystem -> ParticleSystem)
    (this : PongGame) : PongGame :=
  set_particlePool (alter f slot (particlePool this)) this.

Definition createParticleSystem_body (i : nat)
    (st : list R * list R * PongGame) : list R * list R * PongGame :=
  let '(colors, sizes, this) := st in
  let '(u, this) := Math_random this in
  let colors := array_set colors (i * 3) u in
  let '(u, this) := Math_random this in
  let colors := array_set colors (i * 3 + 1) u in
  let '(u, this) := Math_random this in
  let colors := array_set colors (i * 3 + 2) u in
  let '(u, this) := Math_random this in
  let sizes := array_set sizes i (0.01 + u * 0.02) in
  (colors, sizes, this).

Definition createParticleSystem (count : nat) (this : PongGame)
  : ParticleSystem * PongGame :=
  let positions := replicate (count * 3) 0 in
  let '(colors, sizes, this) :=
    for_loop count createParticleSystem_body
      (replicate (count * 3) 0, replicate count 0, this) in
  let '(id, this) := fresh this in
  ({| ps_id := id;
      ps_position := THREE.Vec3 0 0 0;
      visible := true;
      positions := positions;
      colors := colors;
      sizes := sizes;
      velocities := replicate (count * 3) 0;
      active := false;
      lifetime := 0;
      maxLifetime := 1.0 |}, this).

Definition createParticlePool_body (i : nat) (this : PongGame) : PongGame :=
  let '(particleSystem, this) := createParticleSystem 30 this in
  let this := set_particlePool (particlePool this ++ [particleSystem]) this in
  let this := with_ps (length (particlePool this) - 1) (set_visible false) this in
  addObject (ps_id particleSystem) this.

Definition createParticlePool (this : PongGame) : PongGame :=
  for_loop 10 createParticlePool_body this.

Definition emitParticles_body (slot : nat) (color : THREE.Color) (speed : R)
    (i : nat) (this : PongGame) : PongGame :=
  let this := with_ps slot (fun ps => set_colors
    (array_set (array_set (array_set (colors ps)
       (i * 3) (THREE.r color)) (i * 3 + 1) (THREE.g color))
       (i * 3 + 2) (THREE.b color)) ps) this in
  let this := with_ps slot (fun ps => set_positions
    (array_set (array_set (array_set (positions ps)
       (i * 3) 0) (i * 3 + 1) 0) (i * 3 + 2) 0) ps) this in
  let '(u, this) := Math_random this in
  let theta := u * PI * 2 in
  let '(u, this) := Math_random this in
  let phi := u * PI in
  let '(u, this) := Math_random this in
  let r := u * speed in
  with_ps slot (fun ps => set_velocities
    (array_set (array_set (array_set (velocities ps)
       (i * 3) (r * sin phi * cos theta))
       (i * 3 + 1) (r * sin phi * sin theta))
       (i * 3 + 2) (r * cos phi)) ps) this.

Definition emitParticles (position : THREE.Vector3) (color : THREE.Color)
    (count : nat) (speed : R) (this : PongGame) : PongGame :=
  match list_find (fun ps => active ps = false) (particlePool this) with
  | None => this
  | Some (slot, _) =>
      let this := with_ps slot (set_ps_position position) this in
      let this := with_ps slot (set_visible true) this in
      let this := for_loop count (emitParticles_body slot color speed) this in
      let this := with_ps slot (set_active true) this in
      let this := with_ps slot (set_lifetime 0) this in
      set_particles (particles this ++ [slot]) this
  end.

(** The inner loop of [updateParticles] on one live system. *)
Definition updateParticles_body (deltaTime lifePercent : R) (j : nat)
    (ps : ParticleSystem) : ParticleSystem :=
  let upd (k : nat) (ps : ParticleSystem) :=
    set_positions (array_set (positions ps) k
      (array_get (positions ps) k + array_get (velocities ps) k * deltaTime))
      ps in
  let ps := upd (j * 3)%nat ps in
  let ps := upd (j * 3 + 1)%nat ps in
  let ps := upd (j * 3 + 2)%nat ps in
  let ps := set_velocities (array_set (velocities ps) (j * 3 + 1)
    (array_get (velocities ps) (j * 3 + 1) - 0.01 * deltaTime)) ps in
  let alpha := 1 - lifePercent in
  for_loop 3 (fun k ps => set_colors (array_set (colors ps) (j * 3 + k)
    (array_get (colors ps) (j * 3 + k) * alpha)) ps) ps.

(** The number of [j] with [j < n / 3] for the array length [n]. *)
Definition thirds (n : nat) : nat := Nat.div (n + 2) 3.

Fixpoint updateParticles_loop (deltaTime : R) (refs : list nat)
    (this : PongGame) : list nat * PongGame :=
  match refs with
  | [] => ([], this)
  | slot :: rest =>
      let this :=
        with_ps slot (fun ps => set_lifetime (lifetime ps + deltaTime) ps)
          this in
      match particlePool this !! slot with
      | None => updateParticles_loop deltaTime rest this
      | Some ps =>
          if lifetime ps >=? maxLifetime ps then
            let this := with_ps slot (set_active false) this in
            let this := with_ps slot (set_visible false) this in
            updateParticles_loop deltaTime rest this
          else
            let lifePercent := lifetime ps / maxLifetime ps in
            let this := with_ps slot (fun ps =>
              for_loop (thirds (length (positions ps)))
                (updateParticles_body deltaTime lifePercent) ps) this in
            let '(kept, this) := updateParticles_loop deltaTime rest this in
            (slot :: kept, this)
      end
  end.

(** [updateParticles(deltaTime)]: [this.particles] keeps the systems that
    have not expired, in order. *)
Definition updateParticles (deltaTime : R) (this : PongGame) : PongGame :=
  let '(kept, this) :=
    updateParticles_loop deltaTime (particles this) this in
  set_particles kept this.

(** ** Trail *)

(** [createTrailEffect]: the positions of the 50 trail points. *)
Definition createTrailEffect : list R :=
  for_loop 50 (fun i positions =>
    array_set (array_set (array_set positions
      (i * 3) 0) (i * 3 + 1) 0) (i * 3 + 2) (- INR i * 0.01))
    (replicate (50 * 3) 0).

(** [updateTrail()]: every second call shifts the trail by one point.  The
    trail is the [THREE.Points] child [createBall] gave the ball; its array
    holds whole triples. *)
Definition updateTrail (this : PongGame) : PongGame :=
  let this := set_trailUpdateCounter (S (trailUpdateCounter this)) this in
  if negb (Nat.eqb (trailUpdateCounter this mod 2) 0) then this
  else
    let positions := trail this in
    let positions :=
      for_down (Nat.div (length positions) 3) (fun i positions =>
        let positions :=
          array_set positions (i * 3) (array_get positions ((i - 1) * 3)) in
        let positions :=
          array_set positions (i * 3 + 1)
            (array_get positions ((i - 1) * 3 + 1)) in
        array_set positions (i * 3 + 2)
          (array_get positions ((i - 1) * 3 + 2))) positions in
    let positions := array_set positions 0 0 in
    let positions := array_set positions 1 0 in
    let positions := array_set positions 2 0 in
    set_trail positions this.

(** ** Score indicators *)

Definition createScoreIndicator (position : THREE.Vector3) (isPlayer : bool)
    (this : PongGame) : PongGame :=
  let '(id, this) := fresh this in
  let position := THREE.set_y (THREE.y position + 0.2) position in
  let sprite :=
    {| sprite_id := id;
       sprite_position := position;
       scale := THREE.Vec3 0.2 0.1 1;
       opacity := 1.0;
       sprite_lifetime := 0;
       sprite_maxLifetime := 1.5;
       initialY := THREE.y position |} in
  let this := addObject id this in
  set_scoreIndicators (scoreIndicators this ++ [sprite]) this.

Fixpoint updateScoreIndicators_loop (deltaTime : R) (l : list Sprite)
    (this : PongGame) : list Sprite * PongGame :=
  match l with
  | [] => ([], this)
  | indicator :: rest =>
      let indicator :=
        set_sprite_lifetime (sprite_lifetime indicator + deltaTime)
          indicator in
      if sprite_lifetime indicator >=? sprite_maxLifetime indicator then
        let this := removeObject (sprite_id indicator) this in
        updateScoreIndicators_loop deltaTime rest this
      else
        let progress :=
          sprite_lifetime indicator / sprite_maxLifetime indicator in
        let indicator :=
          set_sprite_position
            (THREE.set_y (initialY indicator + progress * 0.3)
               (sprite_position indicator)) indicator in
        let indicator := set_opacity (1 - progress ^ 2) indicator in
        let scale := 1 - progress * 0.3 in
        let indicator :=
          set_scale (THREE.Vec3 (0.2 * scale) (0.1 * scale) 1) indicator in
        let '(kept, this) :=
          updateScoreIndicators_loop deltaTime rest this in
        (indicator :: kept, this)
  end.

Definition updateScoreIndicators (deltaTime : R) (this : PongGame)
  : PongGame :=
  let '(kept, this) :=
    updateScoreIndicators_loop deltaTime (scoreIndicators this) this in
  set_scoreIndicators kept this.

(** [updateScoreDisplay()]: both DOM elements must exist. *)
Definition updateScoreDisplay (this : PongGame) : PongGame :=
  match playerScoreElement this, aiScoreElement this with
  | Some _, Some _ =>
      let this := set_playerScoreElement (Some (playerScore this)) this in
      set_aiScoreElement (Some (aiScore this)) this
  | _, _ => this
  end.

(** ** Serve *)

Definition launchBall (this : PongGame) : PongGame :=
  let '(u, this) := Math_random this in
  let horizontalAngle := u * PI * 2 in
  let '(u, this) := Math_random this in
  let verticalAngle := (u - 0.5) * PI * 0.3 in
  let this := set_ballVelocity (THREE.set_x
    (cos horizontalAngle * cos verticalAngle * ballSpeed this)
    (ballVelocity this)) this in
  let this := set_ballVelocity (THREE.set_y
    (sin verticalAngle * ballSpeed this) (ballVelocity this)) this in
  let this := set_ballVelocity (THREE.set_z
    (sin horizontalAngle * cos verticalAngle * ballSpeed this)
    (ballVelocity this)) this in
  let this :=
    if Rabs (THREE.z (ballVelocity this)) <? 0.3 then
      set_ballVelocity (THREE.set_z
        (if THREE.z (ballVelocity this) >? 0 then 0.3 else -0.3)
        (ballVelocity this)) this
    else this in
  let this := set_lastPosition (position (ball this)) this in
  let this :=
    emitParticles (position (ball this)) (THREE.Color_hex 0x00ffff) 30 0.15
      this in
  playSound launch this.

Definition resetBall (initialStart : bool) (this : PongGame) : PongGame :=
  let this :=
    set_ball (set_position (THREE.set_x 0 (position (ball this))) (ball this))
      this in
  let this :=
    set_ball (set_position (THREE.set_z 0 (position (ball this))) (ball this))
      this in
  let this :=
    set_ball (set_position
      (THREE.set_y (tableHeight + ballRadius) (position (ball this)))
      (ball this)) this in
  if initialStart then setTimeout LaunchBall 1000 this
  else launchBall this.

(** ** Paddle collisions *)

Definition paddleOf (p : PaddleId) (this : PongGame) : Mesh :=
  match p with Player => playerPaddle this | AI => aiPaddle this end.

(** [flashPaddle(paddle)]: the material and light belong to the renderer;
    what remains is the timeout that restores them. *)
Definition flashPaddle (p : PaddleId) (this : PongGame) : PongGame :=
  setTimeout (FlashReset p) 100 this.

(** The body shared by the two hits: reflect, deflect, renormalise. *)
Definition bounce (paddle : Mesh) (this : PongGame) : PongGame :=
  let this := set_ballVelocity (THREE.set_z
    (THREE.z (ballVelocity this) * -1.05) (ballVelocity this)) this in
  let hitX :=
    (THREE.x (position (ball this)) - THREE.x (position paddle))
    / (paddleWidth / 2) in
  let hitY :=
    (THREE.y (position (ball this)) - THREE.y (position paddle))
    / (paddleHeight / 2) in
  let this := set_ballVelocity (THREE.set_x
    (THREE.x (ballVelocity this) + hitX * 0.5) (ballVelocity this)) this in
  let this := set_ballVelocity (THREE.set_y
    (THREE.y (ballVelocity this) + hitY * 0.5) (ballVelocity this)) this in
  let speed := sqrt (
    THREE.x (ballVelocity this) * THREE.x (ballVelocity this) +
    THREE.y (ballVelocity this) * THREE.y (ballVelocity this) +
    THREE.z (ballVelocity this) * THREE.z (ballVelocity this)) in
  set_ballVelocity
    (THREE.multiplyScalar (ballVelocity this) (ballSpeed this / speed)) this.

(** The two tests of a hit: the crossing test on z, then the extent test. *)
Definition crossesPlayerPaddle (this : PongGame) : bool :=
  (THREE.z (ballVelocity this) >? 0) &&
  (THREE.z (position (ball this)) + ballRadius
     >? THREE.z (position (playerPaddle this)) - paddleDepth / 2) &&
  (THREE.z (lastPosition this) + ballRadius
     <=? THREE.z (position (playerPaddle this)) - paddleDepth / 2).

Definition crossesAiPaddle (this : PongGame) : bool :=
  (THREE.z (ballVelocity this) <? 0) &&
  (THREE.z (position (ball this)) - ballRadius
     <? THREE.z (position (aiPaddle this)) + paddleDepth / 2) &&
  (THREE.z (lastPosition this) - ballRadius
     >=? THREE.z (position (aiPaddle this)) + paddleDepth / 2).

Definition withinPaddle (paddle : Mesh) (this : PongGame) : bool :=
  let paddleMinX := THREE.x (position paddle) - paddleWidth / 2 in
  let paddleMaxX := THREE.x (position paddle) + paddleWidth / 2 in
  let paddleMinY := THREE.y (position paddle) - paddleHeight / 2 in
  let paddleMaxY := THREE.y (position paddle) + paddleHeight / 2 in
  (THREE.x (position (ball this)) >=? paddleMinX) &&
  (THREE.x (position (ball this)) <=? paddleMaxX) &&
  (THREE.y (position (ball this)) >=? paddleMinY) &&
  (THREE.y (position (ball this)) <=? paddleMaxY).

(** The first statement of [checkPaddleCollisions]. *)
Definition playerPaddleCollision (this : PongGame) : PongGame :=
  if crossesPlayerPaddle this && withinPaddle (playerPaddle this) this then
    let this := bounce (playerPaddle this) this in
    let this := set_ball (set_position (THREE.set_z
      (THREE.z (position (playerPaddle this)) - paddleDepth / 2 - ballRadius)
      (position (ball this))) (ball this)) this in
    let this := playSound paddle this in
    let this := flashPaddle Player this in
    emitParticles (position (ball this)) (THREE.Color_hex 0x00ff88) 30 0.2
      this
  else this.

(** The second statement of [checkPaddleCollisions]. *)
Definition aiPaddleCollision (this : PongGame) : PongGame :=
  if crossesAiPaddle this && withinPaddle (aiPaddle this) this then
    let this := bounce (aiPaddle this) this in
    let this := set_ball (set_position (THREE.set_z
      (THREE.z (position (aiPaddle this)) + paddleDepth / 2 + ballRadius)
      (position (ball this))) (ball this)) this in
    let this := playSound paddle this in
    let this := flashPaddle AI this in
    emitParticles (position (ball this)) (THREE.Color_hex 0xff3366) 30 0.2
      this
  else this.

Definition checkPaddleCollisions (this : PongGame) : PongGame :=
  aiPaddleCollision (playerPaddleCollision this).

(** ** Scoring and rounds *)

Definition checkGameEnd (this : PongGame) : PongGame :=
  if (winningScore <=? playerScore this)%nat
     || (winningScore <=? aiScore this)%nat then
    let this := playSound win this in
    let this :=
      for_loop 5 (fun i this => setTimeout Celebrate (INR i * 300) this)
        this in
    setTimeout RoundReset 3000 this
  else this.

Definition checkScoring (this : PongGame) : PongGame :=
  let this :=
    if THREE.z (position (ball this)) >? tableDepth / 2 + ballRadius then
      let this := set_aiScore (S (aiScore this)) this in
      let this := updateScoreDisplay this in
      let this := createScoreIndicator (position (ball this)) false this in
      let this := playSound score this in
      let this :=
        emitParticles (position (ball this)) (THREE.Color_hex 0xff3366)
          40 0.25 this in
      let this := resetBall false this in
      checkGameEnd this
    else this in
  if THREE.z (position (ball this)) <? - tableDepth / 2 - ballRadius then
    let this := set_playerScore (S (playerScore this)) this in
    let this := updateScoreDisplay this in
    let this := createScoreIndicator (position (ball this)) true this in
    let this := playSound score this in
    let this :=
      emitParticles (position (ball this)) (THREE.Color_hex 0x00ff88)
        40 0.25 this in
    let this := resetBall false this in
    checkGameEnd this
  else this.

(** The callbacks handed to [setTimeout], run by the host when due. *)
Definition runTimeout (callback : Timeout) (this : PongGame) : PongGame :=
  match callback with
  | LaunchBall => launchBall this
  | FlashReset _ => this
  | Celebrate =>
      let '(u, this) := Math_random this in
      let x := (u - 0.5) * tableWidth in
      let '(u, this) := Math_random this in
      let z := (u - 0.5) * tableDepth in
      let position := THREE.Vec3 x (tableHeight + 0.1) z in
      let color :=
        if (aiScore this <? playerScore this)%nat
        then THREE.Color_hex 0x00ff88 else THREE.Color_hex 0xff3366 in
      emitParticles position color 40 0.3 this
  | RoundReset =>
      let this := set_playerScore 0%nat this in
      let this := set_aiScore 0%nat this in
      let this := updateScoreDisplay this in
      let this := resetBall true this in
      let this := set_gameLevel (S (gameLevel this)) this in
      set_ballSpeed (Math_min (0.5 + INR (gameLevel this) * 0.05) 0.8) this
  end.

(** ** The AI opponent *)

Definition updateAI (deltaTime : R) (this : PongGame) : PongGame :=
  let difficulty := Math_min (0.4 + INR (gameLevel this) * 0.05) 0.9 in
  let aiSpeed := aiPaddleMovementSpeed * difficulty in
  let predictedPosition :=
    THREE.add (position (ball this))
      (THREE.multiplyScalar (ballVelocity this) (deltaTime * 60)) in
  let move (f : THREE.Vector3 -> THREE.Vector3) (this : PongGame) :=
    set_aiPaddle (set_position (f (position (aiPaddle this))) (aiPaddle this))
      this in
  let this :=
    if THREE.z (ballVelocity this) <? 0 then
      let targetX := THREE.x predictedPosition in
      let targetY := THREE.y predictedPosition in
      let targetZ := - tableDepth / 2 + 0.05 in
      let this := move (fun p =>
        THREE.set_x (THREE.x p + (targetX - THREE.x p) * aiSpeed) p) this in
      let this := move (fun p =>
        THREE.set_y (THREE.y p + (targetY - THREE.y p) * aiSpeed) p) this in
      let this := move (fun p =>
        THREE.set_z (THREE.z p + (targetZ - THREE.z p) * aiSpeed) p) this in
      let '(u, this) := Math_random this in
      if u <? 0.05 then
        let '(u, this) := Math_random this in
        let this := move (fun p =>
          THREE.set_x (THREE.x p + (u - 0.5) * 0.05) p) this in
        let '(u, this) := Math_random this in
        let this := move (fun p =>
          THREE.set_y (THREE.y p + (u - 0.5) * 0.05) p) this in
        let '(u, this) := Math_random this in
        move (fun p => THREE.set_z (THREE.z p + (u - 0.5) * 0.02) p) this
      else this
    else this in
  let maxX := tableWidth / 2 - paddleWidth / 2 in
  let this := move (fun p =>
    THREE.set_x (Math_max (- maxX) (Math_min maxX (THREE.x p))) p) this in
  let this := move (fun p =>
    THREE.set_y (Math_max (tableHeight + paddleHeight / 2)
      (Math_min (tableHeight + paddleVerticalRange) (THREE.y p))) p) this in
  move (fun p =>
    THREE.set_z (Math_max (- tableDepth / 2 - paddleDepthRange)
      (Math_min (- tableDepth / 2 + 0.05) (THREE.z p))) p) this.

(** ** The player's paddle *)

(** A pointer event as the handler sees it: the client coordinates, the
    window size, and, outside debug mode, the point where the pointer ray
    meets the touch plane in the anchor's space (none without an anchor or
    an intersection). *)
Record PointerEvent := {
  clientX : R;
  clientY : R;
  innerWidth : R;
  innerHeight : R;
  intersectionPoint : option THREE.Vector3
}.

Definition updatePointerPosition (event : PointerEvent) (this : PongGame)
  : PongGame :=
  let newX := clientX event / innerWidth event * 2 - 1 in
  let newY := - (clientY event / innerHeight event * 2 - 1) in
  let this :=
    if pointerDown this then
      set_pointerDelta
        (THREE.Vec2 (newX - THREE.x2 (lastPointerPosition this))
                    (newY - THREE.y2 (lastPointerPosition this))) this
    else this in
  let this := set_lastPointerPosition (THREE.Vec2 newX newY) this in
  let move (f : THREE.Vector3 -> THREE.Vector3) (this : PongGame) :=
    set_playerPaddle
      (set_position (f (position (playerPaddle this))) (playerPaddle this))
      this in
  if debugMode (arScene this) then
    if pointerDown this then
      let paddleX :=
        THREE.x (position (playerPaddle this))
        + THREE.x2 (pointerDelta this) in
      let maxX := tableWidth / 2 - paddleWidth / 2 in
      let this := move (THREE.set_x
        (Math_max (- maxX) (Math_min maxX paddleX))) this in
      let paddleY :=
        THREE.y (position (playerPaddle this))
        + THREE.y2 (pointerDelta this) * verticalSensitivity in
      let this := move (THREE.set_y
        (Math_max (tableHeight + paddleHeight / 2)
           (Math_min (tableHeight + paddleVerticalRange) paddleY))) this in
      let paddleZ :=
        THREE.z (position (playerPaddle this))
        + THREE.y2 (pointerDelta this) * depthSensitivity in
      let maxDepth := tableDepth / 2 in
      let minDepth := maxDepth - paddleDepthRange in
      move (THREE.set_z (Math_max minDepth (Math_min maxDepth paddleZ))) this
    else this
  else
    match intersectionPoint event with
    | Some point =>
        let maxX := tableWidth / 2 - paddleWidth / 2 in
        let this := move (THREE.set_x
          (Math_max (- maxX) (Math_min maxX (THREE.x point)))) this in
        let verticalPos :=
          Math_max (tableHeight + paddleHeight / 2)
            (Math_min (tableHeight + paddleVerticalRange) (THREE.y point)) in
        let this := move (THREE.set_y verticalPos) this in
        let depthPos :=
          Math_max (tableDepth / 2 - paddleDepthRange)
            (Math_min (tableDepth / 2) (THREE.z point)) in
        move (THREE.set_z depthPos) this
    | None => this
    end.

(** ** The per-frame update

    [update] is one method; the statements it runs between its calls are
    given names, in the order of the source. *)

Definition moveBall (f : THREE.Vector3 -> THREE.Vector3) (this : PongGame)
  : PongGame :=
  set_ball (set_position (f (position (ball this))) (ball this)) this.

(** "Store last position", "Apply gravity", "Update ball position". *)
Definition integrate (deltaTime : R) (this : PongGame) : PongGame :=
  let this := set_lastPosition (position (ball this)) this in
  let this := set_ballVelocity (THREE.set_y
    (THREE.y (ballVelocity this) + gravity * deltaTime)
    (ballVelocity this)) this in
  let this := moveBall (fun p => THREE.set_x
    (THREE.x p + THREE.x (ballVelocity this) * deltaTime) p) this in
  let this := moveBall (fun p => THREE.set_y
    (THREE.y p + THREE.y (ballVelocity this) * deltaTime) p) this in
  moveBall (fun p => THREE.set_z
    (THREE.z p + THREE.z (ballVelocity this) * deltaTime) p) this.

(** "Check floor/ceiling collisions". *)
Definition floorCeiling (this : PongGame) : PongGame :=
  if THREE.y (position (ball this)) <? tableHeight + ballRadius then
    let this := moveBall (THREE.set_y (tableHeight + ballRadius)) this in
    let this := set_ballVelocity (THREE.set_y
      (- THREE.y (ballVelocity this) * groundDamping)
      (ballVelocity this)) this in
    let this := playSound wall this in
    emitParticles (position (ball this)) (THREE.Color_hex 0x3388ff)
      20 0.1 this
  else if THREE.y (position (ball this))
          >? tableHeight + playAreaHeight - ballRadius then
    let this := moveBall
      (THREE.set_y (tableHeight + playAreaHeight - ballRadius)) this in
    let this := set_ballVelocity (THREE.set_y
      (- THREE.y (ballVelocity this) * groundDamping)
      (ballVelocity this)) this in
    let this := playSound wall this in
    emitParticles (position (ball this)) (THREE.Color_hex 0x3388ff)
      20 0.1 this
  else this.

(** "Check for wall collisions". *)
Definition sideWalls (this : PongGame) : PongGame :=
  if Rabs (THREE.x (position (ball this))) >? tableWidth / 2 - ballRadius
  then
    let this := set_ballVelocity (THREE.set_x
      (THREE.x (ballVelocity this) * -1) (ballVelocity this)) this in
    let this := moveBall (fun p => THREE.set_x
      (Math_sign (THREE.x p) * (tableWidth / 2 - ballRadius)) p) this in
    let this := playSound wall this in
    emitParticles (position (ball this)) (THREE.Color_hex 0x3388ff)
      20 0.1 this
  else this.

(** "Add some rotation to the ball based on its velocity". *)
Definition spin (this : PongGame) : PongGame :=
  let this := set_ball (set_rotation (THREE.set_x
    (THREE.x (rotation (ball this)) + THREE.z (ballVelocity this) * 2)
    (rotation (ball this))) (ball this)) this in
  set_ball (set_rotation (THREE.set_z
    (THREE.z (rotation (ball this)) - THREE.x (ballVelocity this) * 2)
    (rotation (ball this))) (ball this)) this.

Definition update (deltaTime : R) (this : PongGame) : PongGame :=
  if negb (isPlaying this) then this
  else
    let this := integrate deltaTime this in
    let this := floorCeiling this in
    let this := updateTrail this in
    let this := updateParticles deltaTime this in
    let this := sideWalls this in
    let this := checkPaddleCollisions this in
    let this := checkScoring this in
    let this := updateAI deltaTime this in
    let this := spin this in
    updateScoreIndicators deltaTime this.

(** ** Session lifecycle *)

(** What the page and the browser supply to a new game: whether Web Audio
    is available, the text of the two score elements (none when the element
    is missing), and the stream [Math.random] draws from. *)
Record Host := {
  hasAudio : bool;
  playerScoreText : option nat;
  aiScoreText : option nat;
  randoms : nat -> R
}.

(** A mesh that has not been created yet. *)
Definition noMesh : Mesh :=
  {| mesh_id := 0; position := THREE.Vec3 0 0 0;
     rotation := THREE.Vec3 0 0 0 |}.

(** [new PongGame(arScene, debug)]. *)
Definition constructor (scene : ARScene) (host : Host) : PongGame :=
  {| arScene := scene;
     table := 0;
     ball := noMesh;
     playerPaddle := noMesh;
     aiPaddle := noMesh;
     walls := [];
     particles := [];
     scoreIndicators := [];
     isPlaying := false;
     playerScore := 0;
     aiScore := 0;
     ballVelocity := THREE.Vec3 0 0 0;
     ballSpeed := 0.5;
     lastPosition := THREE.Vec3 0 0 0;
     gameLevel := 1;
     pointerDown := false;
     lastPointerPosition := THREE.Vec2 0 0;
     pointerDelta := THREE.Vec2 0 0;
     playerScoreElement := playerScoreText host;
     aiScoreElement := aiScoreText host;
     particlePool := [];
     trailUpdateCounter := 0;
     trail := [];
     audioContext :=
       if hasAudio host then Some {| closed := false; started := [] |}
       else None;
     timeouts := [];
     rng := randoms host;
     rngNext := 0 |}.

(** A new mesh at [p], added to the scene. *)
Definition createMesh (p : THREE.Vector3) (this : PongGame)
  : Mesh * PongGame :=
  let '(id, this) := fresh this in
  ({| mesh_id := id; position := p; rotation := THREE.Vec3 0 0 0 |},
   addObject id this).

Definition createTable (this : PongGame) : PongGame :=
  let '(plane, this) := createMesh (THREE.Vec3 0 tableHeight 0) this in
  set_table (mesh_id plane) this.

Definition createBall (this : PongGame) : PongGame :=
  let this := set_trail createTrailEffect this in
  let '(mesh, this) :=
    createMesh (THREE.Vec3 0 (tableHeight + ballRadius) 0) this in
  set_ball mesh this.

Definition createPaddles (this : PongGame) : PongGame :=
  let '(mesh, this) :=
    createMesh (THREE.Vec3 0 (tableHeight + paddleHeight / 2)
                  (tableDepth / 2 - 0.05)) this in
  let this := set_playerPaddle mesh this in
  let '(mesh, this) :=
    createMesh (THREE.Vec3 0 (tableHeight + paddleHeight / 2)
                  (- tableDepth / 2 + 0.05)) this in
  set_aiPaddle mesh this.

Definition createWalls (this : PongGame) : PongGame :=
  let '(leftWall, this) :=
    createMesh (THREE.Vec3 (- tableWidth / 2 - 0.01)
                  (tableHeight + wallHeight / 2) 0) this in
  let this := set_walls (walls this ++ [mesh_id leftWall]) this in
  let '(rightWall, this) :=
    createMesh (THREE.Vec3 (tableWidth / 2 + 0.01)
                  (tableHeight + wallHeight / 2) 0) this in
  set_walls (walls this ++ [mesh_id rightWall]) this.

(** [initialize()]. *)
Definition initialize (this : PongGame) : PongGame :=
  let this := createTable this in
  let this := createBall this in
  let this := createPaddles this in
  let this := createWalls this in
  let this := createParticlePool this in
  let '(callback, this) := bind_update this in
  let this :=
    set_arScene (Scene.addUpdateCallback callback (arScene this)) this in
  let this := resetBall true this in
  let this := set_isPlaying true this in
  let this := set_playerScore 0%nat this in
  let this := set_aiScore 0%nat this in
  updateScoreDisplay this.

(** The three pointer handlers of [setupEventListeners]. *)
Definition onPointerDown (event : PointerEvent) (this : PongGame)
  : PongGame :=
  updatePointerPosition event (set_pointerDown true this).

Definition onPointerMove (event : PointerEvent) (this : PongGame)
  : PongGame :=
  if pointerDown this then updatePointerPosition event this else this.

Definition onPointerUp (this : PongGame) : PongGame :=
  set_pointerDown false this.

(** [dispose()]. *)
Definition dispose (this : PongGame) : PongGame :=
  let this := removeObject (table this) this in
  let this := removeObject (mesh_id (ball this)) this in
  let this := removeObject (mesh_id (playerPaddle this)) this in
  let this := removeObject (mesh_id (aiPaddle this)) this in
  let this := fold_left (fun this wall => removeObject wall this)
    (walls this) this in
  let this := fold_left (fun this ps => removeObject (ps_id ps) this)
    (particlePool this) this in
  let this :=
    fold_left (fun this indicator => removeObject (sprite_id indicator) this)
      (scoreIndicators this) this in
  let this :=
    match audioContext this with
    | Some ctx =>
        if closed ctx then this
        else set_audioContext
               (Some {| closed := true; started := started ctx |}) this
    | None => this
    end in
  let '(callback, this) := bind_update this in
  let this :=
    set_arScene (Scene.removeUpdateCallback callback (arScene this)) this in
  set_isPlaying false this.

(** A scene before anything was added to it. *)
Definition emptyScene (debug : bool) : ARScene :=
  {| objects := []; onUpdateCallbacks := []; debugMode := debug;
     nextId := 0 |}.

(** ** Vocabulary of the statements *)

(** [b] is [a] up to the pool, the live list and the random stream. *)
Definition emitted (a b : PongGame) : Prop :=
  exists pool live k,
    b = set_particles live (set_particlePool pool (set_rngNext k a)).

(** The two angles [launchBall] draws. *)
Definition horizontalAngle (this : PongGame) : R :=
  rng this (rngNext this) * PI * 2.

Definition verticalAngle (this : PongGame) : R :=
  (rng this (S (rngNext this)) - 0.5) * PI * 0.3.

(** The z-component before the floor is enforced. *)
Definition drawnZ (this : PongGame) : R :=
  sin (horizontalAngle this) * cos (verticalAngle this) * ballSpeed this.

(** [b] is [a] up to the fields only effects touch: the scene, the live
    list, the score indicators, the score display, the pool, the trail, the
    audio context, the pending timeouts and the position in the random
    stream.  The ball, the paddles, the scores, the level and the flags are
    those of [a]. *)
Definition effects (a b : PongGame) : Prop :=
  exists sc live inds pse aise pool tuc tr au tos k,
    b = set_arScene sc (set_particles live (set_scoreIndicators inds
          (set_playerScoreElement pse (set_aiScoreElement aise
            (set_particlePool pool (set_trailUpdateCounter tuc
              (set_trail tr (set_audioContext au (set_timeouts tos
                (set_rngNext k a)))))))))).

(** The order of the specification: physics, collisions, scoring, AI, and
    only then the effects (particles, trail, score indicators). *)
Definition update_effects_last (deltaTime : R) (this : PongGame)
  : PongGame :=
  if negb (isPlaying this) then this
  else
    let this := integrate deltaTime this in
    let this := floorCeiling this in
    let this := sideWalls this in
    let this := checkPaddleCollisions this in
    let this := checkScoring this in
    let this := updateAI deltaTime this in
    let this := spin this in
    let this := updateParticles deltaTime this in
    let this := updateTrail this in
    updateScoreIndicators deltaTime this.

(** The velocity a hit on [paddle] produces before it is renormalised: the
    z-component inverted and amplified by 1.05, the x- and y-components
    deflected by half the hit offset, normalised by the paddle's
    half-extents. *)
Definition deflected (paddle : Mesh) (this : PongGame) : THREE.Vector3 :=
  THREE.Vec3
    (THREE.x (ballVelocity this)
     + (THREE.x (position (ball this)) - THREE.x (position paddle))
       / (paddleWidth / 2) * 0.5)
    (THREE.y (ballVelocity this)
     + (THREE.y (position (ball this)) - THREE.y (position paddle))
       / (paddleHeight / 2) * 0.5)
    (THREE.z (ballVelocity this) * -1.05).

(** The guards of the two statements of [checkPaddleCollisions]. *)
Definition hitsPlayerPaddle (this : PongGame) : bool :=
  crossesPlayerPaddle this && withinPaddle (playerPaddle this) this.

Definition hitsAiPaddle (this : PongGame) : bool :=
  crossesAiPaddle this && withinPaddle (aiPaddle this) this.

(** The legal volume of the ball: between the side walls and between the
    floor and the ceiling of the play area. *)
Definition ballWithinWalls (this : PongGame) : Prop :=
  - tableWidth / 2 + ballRadius <= THREE.x (position (ball this))
    <= tableWidth / 2 - ballRadius.

Definition ballWithinHeight (this : PongGame) : Prop :=
  tableHeight + ballRadius <= THREE.y (position (ball this))
    <= tableHeight + playAreaHeight - ballRadius.

(** The table centre, where a serve starts. *)
Definition tableCenter : THREE.Vector3 :=
  THREE.Vec3 0 (tableHeight + ballRadius) 0.

(** The volume the AI's paddle is clamped to. *)
Definition aiPaddleVolume (p : THREE.Vector3) : Prop :=
  - (tableWidth / 2 - paddleWidth / 2) <= THREE.x p
    <= tableWidth / 2 - paddleWidth / 2
  /\ tableHeight + paddleHeight / 2 <= THREE.y p
     <= tableHeight + paddleVerticalRange
  /\ - tableDepth / 2 - paddleDepthRange <= THREE.z p
     <= - tableDepth / 2 + 0.05.

(** The volume the player's paddle is clamped to. *)
Definition playerPaddleVolume (p : THREE.Vector3) : Prop :=
  - (tableWidth / 2 - paddleWidth / 2) <= THREE.x p
    <= tableWidth / 2 - paddleWidth / 2
  /\ tableHeight + paddleHeight / 2 <= THREE.y p
     <= tableHeight + paddleVerticalRange
  /\ tableDepth / 2 - paddleDepthRange <= THREE.z p <= tableDepth / 2.

(** The player's volume mirrored to the AI's end of the table: the same
    extent in x and y, and in z the band of depth [paddleDepthRange] that
    starts at the table end and lies on the table. *)
Definition mirroredPlayerVolume (p : THREE.Vector3) : Prop :=
  playerPaddleVolume (THREE.Vec3 (THREE.x p) (THREE.y p) (- THREE.z p)).


(** [b] has the update callbacks of [a], and [n] more identities have been
    handed out by the scene. *)
Definition allocated (n : nat) (a b : PongGame) : Prop :=
  onUpdateCallbacks (arScene b) = onUpdateCallbacks (arScene a)
  /\ nextId (arScene b) = (nextId (arScene a) + n)%nat.

(** Every registered callback has an identity the scene handed out. *)
Definition callbacksAllocated (sc : ARScene) : Prop :=
  Forall (fun callback => (callback < nextId sc)%nat) (onUpdateCallbacks sc).

(** [b] has the live list and the pool of [a]. *)
Definition quiet (a b : PongGame) : Prop :=
  particles b = particles a /\ particlePool b = particlePool a.

(** A pooled system that is free and has the lifetime it was created
    with. *)
Definition idle (ps : ParticleSystem) : Prop :=
  active ps = false /\ lifetime ps = 0 /\ maxLifetime ps = 1.

(** ** Sample sessions *)

(** A page with both score elements and Web Audio, and a [Math.random] that
    always draws one half. *)
Definition page : Host :=
  {| hasAudio := true;
     playerScoreText := Some 0%nat;
     aiScoreText := Some 0%nat;
     randoms := fun _ => 0.5 |}.

(** A game just initialised on an empty scene. *)
Definition newGame : PongGame :=
  initialize (constructor (emptyScene false) page).

(** Mid-rally, the ball flying level towards the right wall. *)
Definition rally : PongGame :=
  set_ballVelocity (THREE.Vec3 0.5 0.3 0)
    (moveBall (fun _ => THREE.Vec3 0.3 0.3 0) newGame).

(** The ball has just crossed the face of the player's paddle. *)
Definition volley : PongGame :=
  set_ballVelocity (THREE.Vec3 0 0 0.5)
    (set_lastPosition (THREE.Vec3 0.03 0.1 0.5)
       (moveBall (fun _ => THREE.Vec3 0.03 0.1 0.53) newGame)).

(** The ball has passed the player's end of the table. *)
Definition passed : PongGame :=
  set_ballVelocity (THREE.Vec3 0 0 0.5)
    (moveBall (fun _ => THREE.Vec3 0 0.1 0.7) newGame).

(** The player has just scored the fifth point. *)
Definition matchPoint : PongGame := set_playerScore 5 newGame.

(** Every slot of the pool is in use. *)
Definition crowded : PongGame :=
  set_particlePool (set_active true <$> particlePool newGame) newGame.

(** ** Sessions *)

(** The states a session passes through: a game is constructed and
    initialised on some scene, and from then on the host runs frames,
    timeouts and pointer events in any order, and may dispose of the
    game. *)
Inductive reachable : PongGame -> Prop :=
| reachable_initialize scene host :
    reachable (initialize (constructor scene host))
| reachable_update deltaTime this :
    reachable this -> reachable (update deltaTime this)
| reachable_timeout callback this :
    reachable this -> reachable (runTimeout callback this)
| reachable_pointerDown event this :
    reachable this -> reachable (onPointerDown event this)
| reachable_pointerMove event this :
    reachable this -> reachable (onPointerMove event this)
| reachable_pointerUp this :
    reachable this -> reachable (onPointerUp this)
| reachable_dispose this :
    reachable this -> reachable (dispose this).

(** ** More vocabulary *)

(** [b] is [a] up to the scene, the score indicators, the audio context,
    the pending timeouts and the trail: what sounds, timers, sprites and the
    trail touch. *)
Definition staged (a b : PongGame) : Prop :=
  exists sc inds au tos tuc tr,
    b = set_arScene sc (set_scoreIndicators inds (set_audioContext au
          (set_timeouts tos (set_trailUpdateCounter tuc (set_trail tr a))))).

(** [b] has the player's paddle, the level, the speed, the random stream,
    the playing flag and the pool size of [a]. *)
Definition steady (a b : PongGame) : Prop :=
  playerPaddle b = playerPaddle a
  /\ gameLevel b = gameLevel a
  /\ ballSpeed b = ballSpeed a
  /\ rng b = rng a
  /\ isPlaying b = isPlaying a
  /\ length (particlePool b) = length (particlePool a).

(** [b] shows and counts the scores of [a]. *)
Definition sameScores (a b : PongGame) : Prop :=
  playerScore b = playerScore a
  /\ aiScore b = aiScore a
  /\ playerScoreElement b = playerScoreElement a
  /\ aiScoreElement b = aiScoreElement a.

(** Where both score elements exist they show the scores. *)
Definition scoresShown (this : PongGame) : Prop :=
  forall shownPlayer shownAi,
    playerScoreElement this = Some shownPlayer ->
    aiScoreElement this = Some shownAi ->
    shownPlayer = playerScore this /\ shownAi = aiScore this.

(** [b] is [a] up to the scene and the audio context: what [dispose]
    touches before it clears the playing flag. *)
Definition detached (a b : PongGame) : Prop :=
  exists sc au, b = set_audioContext au (set_arScene sc a).

(** Every object on the scene has an identity the scene handed out. *)
Definition objectsAllocated (sc : ARScene) : Prop :=
  Forall (fun object => (object < nextId sc)%nat) (objects sc).

(** The array [l] after [indexOf] and [splice(index, 1)] for [o]. *)
Definition without (l : list nat) (o : nat) : list nat :=
  match indexOf l o with
  | Some index => delete index l
  | None => l
  end.

(** [b] is [a] after its scene lost the objects [l], one [removeObject]
    after the other. *)
Definition swept (l : list nat) (a b : PongGame) : Prop :=
  detached a b
  /\ objects (arScene b) = fold_left without l (objects (arScene a)).

(** * The debug panel (debug-utility.js, src/unnamed/part_000)

    [DebugUtility] keeps the entries it wrote in [this.entries] and shows
    them as children of the [#debug-content] element.  The element is one
    object shared with the document; the state below holds its list of
    children, by identity, together with what else of the document the
    class reads: whether [#debug-panel] exists and carries the class
    [visible], and the identity of the next element created.  The console
    and the scroll position are not modelled; a method takes the text it
    writes and the time of day as arguments. *)

(** How a call ends: it returns, or an exception leaves it; either way
    with the state it reached. *)
Inductive Completion (A : Type) : Type :=
| Normal (state : A)
| Throw (state : A).

Arguments Normal {A} state.
Arguments Throw {A} state.

Definition stateOf {A : Type} (c : Completion A) : A :=
  match c with Normal state => state | Throw state => state end.

Module Debug.

(** The class name of an entry. *)
Inductive Level := Log | Warn | Error.

Record Entry := {
  entry_id : nat;
  className : Level;
  timestamp : String.string;
  message : String.string
}.

Record DebugUtility := {
  debugContent : option (list nat);
  maxEntries : nat;
  entries : list Entry;
  hasPanel : bool;
  panelVisible : bool;
  nextElement : nat
}.

Definition set_debugContent (v : option (list nat)) (this : DebugUtility)
  : DebugUtility :=
  {| debugContent := v; maxEntries := maxEntries this;
     entries := entries this; hasPanel := hasPanel this;
     panelVisible := panelVisible this; nextElement := nextElement this |}.

Definition set_entries (v : list Entry) (this : DebugUtility)
  : DebugUtility :=
  {| debugContent := debugContent this; maxEntries := maxEntries this;
     entries := v; hasPanel := hasPanel this;
     panelVisible := panelVisible this; nextElement := nextElement this |}.

Definition set_hasPanel (v : bool) (this : DebugUtility) : DebugUtility :=
  {| debugContent := debugContent this; maxEntries := maxEntries this;
     entries := entries this; hasPanel := v;
     panelVisible := panelVisible this; nextElement := nextElement this |}.

Definition set_panelVisible (v : bool) (this : DebugUtility)
  : DebugUtility :=
  {| debugContent := debugContent this; maxEntries := maxEntries this;
     entries := entries this; hasPanel := hasPanel this;
     panelVisible := v; nextElement := nextElement this |}.

Definition set_nextElement (v : nat) (this : DebugUtility) : DebugUtility :=
  {| debugContent := debugContent this; maxEntries := maxEntries this;
     entries := entries this; hasPanel := hasPanel this;
     panelVisible := panelVisible this; nextElement := v |}.

(** [document.createElement]: a new element, with a new identity. *)
Definition createElement (this : DebugUtility) : nat * DebugUtility :=
  (nextElement this, set_nextElement (S (nextElement this)) this).

(** [parent.removeChild(node)] on the children of [parent]: a node that
    is not a child raises [NotFoundError]. *)
Definition removeChild (node : nat) (children : list nat)
  : option (list nat) :=
  match indexOf children node with
  | Some index => Some (delete index children)
  | None => None
  end.

(** [createDebugPanel()].  A panel that is missing is created with its
    heading and an empty content element and appended to the body, where
    a content element the document already had precedes it; a content
    element that is still missing is created empty and put in the
    panel. *)
Definition createDebugPanel (this : DebugUtility) : DebugUtility :=
  let this :=
    if hasPanel this then this
    else
      let '(_, this) := createElement this in
      let '(_, this) := createElement this in
      let '(_, this) := createElement this in
      let this := set_hasPanel true this in
      match debugContent this with
      | Some _ => this
      | None => set_debugContent (Some []) this
      end in
  match debugContent this with
  | Some _ => this
  | None =>
      let '(_, this) := createElement this in
      set_debugContent (Some []) this
  end.

(** [new DebugUtility()] on a document described by: whether it has the
    panel, the children of its content element if it has one, whether the
    panel is visible, and the identity of its next element. *)
Definition constructor (panel : bool) (content : option (list nat))
    (visible : bool) (next : nat) : DebugUtility :=
  let this :=
    {| debugContent := content; maxEntries := 100; entries := [];
       hasPanel := panel; panelVisible := visible; nextElement := next |} in
  match debugContent this with
  | None => createDebugPanel this
  | Some _ => this
  end.

(** [addEntry(type, message)], at the time of day [now]. *)
Definition addEntry (type : Level) (text now : String.string)
    (this : DebugUtility) : Completion DebugUtility :=
  let this :=
    match debugContent this with
    | None => createDebugPanel this
    | Some _ => this
    end in
  let '(id, this) := createElement this in
  let entry :=
    {| entry_id := id; className := type; timestamp := now;
       message := text |} in
  match debugContent this with
  | None => Throw this
  | Some children =>
      let this := set_debugContent (Some (children ++ [entry_id entry])) this in
      let this := set_entries (entries this ++ [entry]) this in
      if (maxEntries this <? length (entries this))%nat then
        match entries this with
        | [] => Throw this
        | oldest :: rest =>
            let this := set_entries rest this in
            match debugContent this with
            | None => Throw this
            | Some children =>
                match removeChild (entry_id oldest) children with
                | Some children =>
                    Normal (set_debugContent (Some children) this)
                | None => Throw this
                end
            end
        end
      else Normal this
  end.

(** [log(...messages)], [warn(...messages)] and [error(...messages)],
    with the messages already joined to [text]. *)
Definition log (text now : String.string) (this : DebugUtility)
  : Completion DebugUtility :=
  addEntry Log text now this.

Definition warn (text now : String.string) (this : DebugUtility)
  : Completion DebugUtility :=
  addEntry Warn text now this.

Definition error (text now : String.string) (this : DebugUtility)
  : Completion DebugUtility :=
  match addEntry Error text now this with
  | Normal this =>
      if hasPanel this then Normal (set_panelVisible true this)
      else Throw this
  | Throw this => Throw this
  end.

(** [clear()]. *)
Definition clear (this : DebugUtility) : DebugUtility :=
  match debugContent this with
  | None => this
  | Some _ => set_entries [] (set_debugContent (Some []) this)
  end.

(** The two handlers the application script puts on [window] for
    uncaught errors and rejected promises: they write to the content
    element directly, past [this.entries]. *)
Definition onWindowError (this : DebugUtility) : Completion DebugUtility :=
  match debugContent this with
  | Some children =>
      let '(errorMsg, this) := createElement this in
      let this := set_debugContent (Some (children ++ [errorMsg])) this in
      if hasPanel this then Normal (set_panelVisible true this)
      else Throw this
  | None => Normal this
  end.

(** The states of a utility in use: constructed on a document whose
    content element, if any, holds elements the document has created,
    then written to, cleared and passed by the window handlers in any
    order. *)
Inductive reachable : DebugUtility -> Prop :=
| reachable_constructor panel content visible next :
    (forall children, content = Some children ->
       Forall (fun node => (node < next)%nat) children) ->
    reachable (constructor panel content visible next)
| reachable_log text now this :
    reachable this -> reachable (stateOf (log text now this))
| reachable_warn text now this :
    reachable this -> reachable (stateOf (warn text now this))
| reachable_error text now this :
    reachable this -> reachable (stateOf (error text now this))
| reachable_clear this :
    reachable this -> reachable (clear this)
| reachable_onWindowError this :
    reachable this -> reachable (stateOf (onWindowError this)).

(** What holds between the entries and the panel of a utility in use. *)
Definition consistent (this : DebugUtility) : Prop :=
  exists children,
    debugContent this = Some children
    /\ maxEntries this = 100%nat
    /\ (length (entries this) <= 100)%nat
    /\ NoDup (entry_id <$> entries this)
    /\ Forall (fun entry => entry_id entry ∈ children) (entries this)
    /\ Forall (fun node => (node < nextElement this)%nat) children.

End Debug.

(** * The application (src/unnamed/part_001)

    Of [App] the file embeds [loadExperience], the caller of the game's
    constructor, [initialize] and [dispose].  The scene is one object
    shared by the application and its game: the application's copy is
    handed to the game for each call and taken back after it.  Both
    callers of [loadExperience] run after the scene was created. *)

Import String.StringSyntax.
Delimit Scope string_scope with string.

Record App := {
  app_arScene : ARScene;
  currentExperience : String.string;
  pongGame : option PongGame
}.

Definition set_app_arScene (v : ARScene) (this : App) : App :=
  {| app_arScene := v; currentExperience := currentExperience this;
     pongGame := pongGame this |}.

Definition set_pongGame (v : option PongGame) (this : App) : App :=
  {| app_arScene := app_arScene this;
     currentExperience := currentExperience this; pongGame := v |}.

(** [loadExperience(experienceId)], on the page [host]. *)
Definition loadExperience (host : Host) (experienceId : String.string)
    (this : App) : App :=
  let this :=
    match pongGame this with
    | Some game =>
        let game := dispose (set_arScene (app_arScene this) game) in
        set_pongGame None (set_app_arScene (arScene game) this)
    | None => this
    end in
  if String.eqb experienceId "pong"%string then
    let game := initialize (constructor (app_arScene this) host) in
    set_pongGame (Some game) (set_app_arScene (arScene game) this)
  else this.

(** ** More sample states *)

(** A page whose first draw points the serve straight down the table. *)
Definition steepPage : Host :=
  {| hasAudio := true;
     playerScoreText := Some 0%nat;
     aiScoreText := Some 0%nat;
     randoms := fun n => match n with O => 0.25 | _ => 0.5 end |}.

(** A touch whose ray meets the touch plane at the player's end of the
    table, right of the centre. *)
Definition tap : PointerEvent :=
  {| clientX := 300; clientY := 500; innerWidth := 400; innerHeight := 800;
     intersectionPoint := Some (THREE.Vec3 0.1 0.085 0.6) |}.

(** A utility on a document that has the panel and an empty content
    element. *)
Definition emptyLog : Debug.DebugUtility :=
  Debug.constructor true (Some []) false 0.

(** The same after a hundred lines were logged. *)
Definition fullLog : Debug.DebugUtility :=
  Nat.iter 100
    (fun this => stateOf (Debug.log "frame"%string "12:00:00"%string this))
    emptyLog.

(** A utility on a document that has a content element and no panel. *)
Definition bareLog : Debug.DebugUtility :=
  Debug.constructor false (Some []) false 0.

(** The application before any experience was loaded. *)
Definition idleApp : App :=
  {| app_arScene := emptyScene false;
     currentExperience := "pong"%string;
     pongGame := None |}.

(** The live list and the pool agree: the live list names no system
    twice, every system it names is an active system of the pool, and
    every active system of the pool is on it. *)
Definition pooled (this : PongGame) : Prop :=
  NoDup (particles this)
  /\ (forall slot, slot ∈ particles this ->
        exists ps, particlePool this !! slot = Some ps /\ active ps = true)
  /\ (forall slot ps, particlePool this !! slot = Some ps ->
        active ps = true -> slot ∈ particles this).

(** [b] keeps the agreement of [a]. *)
Definition pooling (a b : PongGame) : Prop := pooled a -> pooled b.

(** ** The host's timers *)

(** The number of round resets among pending timeouts. *)
Fixpoint resets (pending : list (R * Timeout)) : nat :=
  match pending with
  | [] => 0
  | (_, RoundReset) :: rest => S (resets rest)
  | _ :: rest => resets rest
  end.

(** The host runs the callbacks of [order], one after the other. *)
Definition fire (order : list (R * Timeout)) (this : PongGame) : PongGame :=
  fold_left (fun this entry => runTimeout (snd entry) this) order this.

(** The player has won 5-0: the first serve's timer has fired long ago,
    the five celebrations and the reset are pending, and the serve that
    followed the fifth point has passed the AI's end of the table. *)
Definition lateScore : PongGame :=
  set_ballVelocity (THREE.Vec3 0 0 (-0.5))
    (moveBall (fun _ => THREE.Vec3 0.3 0.1 (-0.7))
       (checkGameEnd (set_timeouts [] matchPoint))).

(** * Properties *)

(** ** Comparisons *)

Lemma Rltb_true (a b : R) : (a <? b) = true <-> a < b.
Proof. unfold Rltb. destruct (Rlt_dec a b); split; intros; auto; discriminate. Qed.

Lemma Rltb_false (a b : R) : (a <? b) = false <-> b <= a.
Proof.
  unfold Rltb. destruct (Rlt_dec a b); split; intros; auto; try discriminate; lra.
Qed.

Lemma Rleb_true (a b : R) : (a <=? b) = true <-> a <= b.
Proof. unfold Rleb. destruct (Rle_dec a b); split; intros; auto; discriminate. Qed.

Lemma Rleb_false (a b : R) : (a <=? b) = false <-> b < a.
Proof.
  unfold Rleb. destruct (Rle_dec a b); split; intros; auto; try discriminate; lra.
Qed.

(** Decide the comparisons of a goal, keeping the branches lra cannot
    refute. *)
Ltac cmp :=
  repeat match goal with
  | |- context [?a <? ?b] =>
      let E := fresh "E" in
      destruct (a <? b) eqn:E;
      [apply Rltb_true in E | apply Rltb_false in E]; try lra
  | |- context [?a <=? ?b] =>
      let E := fresh "E" in
      destruct (a <=? b) eqn:E;
      [apply Rleb_true in E | apply Rleb_false in E]; try lra
  end.

(** Constants unfold to their decimal values. *)
Ltac consts :=
  unfold paddleVerticalRange, paddleDepthRange, wallHeight,
    aiPaddleMovementSpeed, verticalSensitivity, depthSensitivity,
    tableWidth, tableDepth, tableHeight, playAreaHeight, paddleWidth,
    paddleHeight, paddleDepth, ballRadius, gravity, groundDamping in *.

(** ** Geometry *)

Lemma length_nonneg (p : THREE.Vector3) : 0 <= THREE.length p.
Proof. apply sqrt_pos. Qed.

Lemma length_multiplyScalar (p : THREE.Vector3) (s : R) :
  THREE.length (THREE.multiplyScalar p s) = Rabs s * THREE.length p.
Proof.
  unfold THREE.length, THREE.multiplyScalar; simpl.
  replace (THREE.x p * s * (THREE.x p * s) + THREE.y p * s * (THREE.y p * s)
           + THREE.z p * s * (THREE.z p * s))
    with (Rsqr s * (THREE.x p * THREE.x p + THREE.y p * THREE.y p
                    + THREE.z p * THREE.z p))
    by (unfold Rsqr; ring).
  rewrite sqrt_mult_alt by apply Rle_0_sqr.
  now rewrite sqrt_Rsqr_abs.
Qed.

Lemma length_pos_z (p : THREE.Vector3) : THREE.z p <> 0 -> 0 < THREE.length p.
Proof.
  intros Hz. apply sqrt_lt_R0.
  assert (0 < THREE.z p * THREE.z p) by nra.
  assert (0 <= THREE.x p * THREE.x p) by nra.
  assert (0 <= THREE.y p * THREE.y p) by nra.
  lra.
Qed.

(** ** What the effects leave alone *)

Lemma for_loop_ind {S : Type} (P : S -> Prop) (body : nat -> S -> S) :
  (forall i s, P s -> P (body i s)) ->
  forall n s, P s -> P (for_loop n body s).
Proof.
  intros Hbody n. unfold for_loop. generalize (seq 0 n) as l.
  induction l as [|i l IH]; simpl; auto.
Qed.

Lemma emitted_refl (a : PongGame) : emitted a a.
Proof. exists (particlePool a), (particles a), (rngNext a). now destruct a. Qed.

Lemma emitted_with_ps (a b : PongGame) slot f :
  emitted a b -> emitted a (with_ps slot f b).
Proof.
  intros (pool & live & k & ->).
  exists (alter f slot pool), live, k. now destruct a.
Qed.

Lemma emitted_random (a b : PongGame) :
  emitted a b -> emitted a (snd (Math_random b)).
Proof.
  intros (pool & live & k & ->). exists pool, live, (S k). now destruct a.
Qed.

Lemma emitParticles_emitted position color count speed (this : PongGame) :
  emitted this (emitParticles position color count speed this).
Proof.
  unfold emitParticles.
  destruct (list_find _ _) as [[slot ?]|]; [|apply emitted_refl].
  assert (H : emitted this
    (with_ps slot (set_lifetime 0) (with_ps slot (set_active true)
      (for_loop count (emitParticles_body slot color speed)
        (with_ps slot (set_visible true)
          (with_ps slot (set_ps_position position) this)))))).
  { do 2 apply emitted_with_ps. apply for_loop_ind.
    - intros i s Hs. unfold emitParticles_body.
      apply emitted_with_ps.
      do 3 apply (emitted_random this).
      now do 2 apply emitted_with_ps.
    - do 2 apply emitted_with_ps. apply emitted_refl. }
  destruct H as (pool & live & k & ->).
  exists pool, (live ++ [slot]), k. now destruct this.
Qed.

(** Compute field reads through field writes, and nothing else. *)
Ltac fields :=
  cbv beta iota zeta delta [set_position set_rotation set_ps_position
    set_visible set_positions set_colors set_velocities set_active
    set_lifetime set_sprite_position set_scale set_opacity
    set_sprite_lifetime set_objects set_onUpdateCallbacks set_nextId
    set_arScene set_table set_ball set_playerPaddle set_aiPaddle set_walls
    set_particles set_scoreIndicators set_isPlaying set_playerScore
    set_aiScore set_ballVelocity set_ballSpeed set_lastPosition
    set_gameLevel set_pointerDown set_lastPointerPosition set_pointerDelta
    set_playerScoreElement set_aiScoreElement set_particlePool
    set_trailUpdateCounter set_trail set_audioContext set_timeouts
    set_rngNext mesh_id position rotation ps_id ps_position visible
    positions colors sizes velocities active lifetime maxLifetime sprite_id
    sprite_position scale opacity sprite_lifetime sprite_maxLifetime
    initialY closed started objects onUpdateCallbacks debugMode nextId
    arScene table ball playerPaddle aiPaddle walls particles scoreIndicators
    isPlaying playerScore aiScore ballVelocity ballSpeed lastPosition
    gameLevel pointerDown lastPointerPosition pointerDelta
    playerScoreElement aiScoreElement particlePool trailUpdateCounter trail
    audioContext timeouts rng rngNext moveBall THREE.x THREE.y THREE.z THREE.x2
    THREE.y2 THREE.set_x THREE.set_y THREE.set_z THREE.r THREE.g THREE.b].

(** The same on a goal that reads a field of a state that is not a
    constructor: only the reads that meet a write are computed. *)
Ltac reads :=
  cbn beta iota zeta delta [set_position set_rotation set_ps_position
    set_visible set_positions set_colors set_velocities set_active
    set_lifetime set_sprite_position set_scale set_opacity
    set_sprite_lifetime set_objects set_onUpdateCallbacks set_nextId
    set_arScene set_table set_ball set_playerPaddle set_aiPaddle set_walls
    set_particles set_scoreIndicators set_isPlaying set_playerScore
    set_aiScore set_ballVelocity set_ballSpeed set_lastPosition
    set_gameLevel set_pointerDown set_lastPointerPosition set_pointerDelta
    set_playerScoreElement set_aiScoreElement set_particlePool
    set_trailUpdateCounter set_trail set_audioContext set_timeouts
    set_rngNext mesh_id position rotation ps_id ps_position visible
    positions colors sizes velocities active lifetime maxLifetime sprite_id
    sprite_position scale opacity sprite_lifetime sprite_maxLifetime
    initialY closed started objects onUpdateCallbacks debugMode nextId
    arScene table ball playerPaddle aiPaddle walls particles scoreIndicators
    isPlaying playerScore aiScore ballVelocity ballSpeed lastPosition
    gameLevel pointerDown lastPointerPosition pointerDelta
    playerScoreElement aiScoreElement particlePool trailUpdateCounter trail
    audioContext timeouts rng rngNext moveBall THREE.x THREE.y THREE.z THREE.x2
    THREE.y2 THREE.set_x THREE.set_y THREE.set_z THREE.r THREE.g THREE.b].

Ltac fields_in H :=
  cbv beta iota zeta delta [set_position set_rotation set_ps_position
    set_visible set_positions set_colors set_velocities set_active
    set_lifetime set_sprite_position set_scale set_opacity
    set_sprite_lifetime set_objects set_onUpdateCallbacks set_nextId
    set_arScene set_table set_ball set_playerPaddle set_aiPaddle set_walls
    set_particles set_scoreIndicators set_isPlaying set_playerScore
    set_aiScore set_ballVelocity set_ballSpeed set_lastPosition
    set_gameLevel set_pointerDown set_lastPointerPosition set_pointerDelta
    set_playerScoreElement set_aiScoreElement set_particlePool
    set_trailUpdateCounter set_trail set_audioContext set_timeouts
    set_rngNext mesh_id position rotation ps_id ps_position visible
    positions colors sizes velocities active lifetime maxLifetime sprite_id
    sprite_position scale opacity sprite_lifetime sprite_maxLifetime
    initialY closed started objects onUpdateCallbacks debugMode nextId
    arScene table ball playerPaddle aiPaddle walls particles scoreIndicators
    isPlaying playerScore aiScore ballVelocity ballSpeed lastPosition
    gameLevel pointerDown lastPointerPosition pointerDelta
    playerScoreElement aiScoreElement particlePool trailUpdateCounter trail
    audioContext timeouts rng rngNext moveBall THREE.x THREE.y THREE.z THREE.x2
    THREE.y2 THREE.set_x THREE.set_y THREE.set_z THREE.r THREE.g THREE.b] in
    H.

Lemma effects_refl (a : PongGame) : effects a a.
Proof. destruct a. unfold effects. do 11 eexists. fields. reflexivity. Qed.

Lemma effects_trans (a b c : PongGame) :
  effects a b -> effects b c -> effects a c.
Proof.
  intros (? & ? & ? & ? & ? & ? & ? & ? & ? & ? & ? & ->)
         (? & ? & ? & ? & ? & ? & ? & ? & ? & ? & ? & ->).
  destruct a. unfold effects. do 11 eexists. fields. reflexivity.
Qed.

Ltac effects_setter :=
  let a := fresh "a" in
  intros a; destruct a; unfold effects; do 11 eexists; fields; reflexivity.

Lemma effects_set_arScene v : forall a, effects a (set_arScene v a).
Proof. effects_setter. Qed.
Lemma effects_set_particles v : forall a, effects a (set_particles v a).
Proof. effects_setter. Qed.
Lemma effects_set_scoreIndicators v :
  forall a, effects a (set_scoreIndicators v a).
Proof. effects_setter. Qed.
Lemma effects_set_playerScoreElement v :
  forall a, effects a (set_playerScoreElement v a).
Proof. effects_setter. Qed.
Lemma effects_set_aiScoreElement v :
  forall a, effects a (set_aiScoreElement v a).
Proof. effects_setter. Qed.
Lemma effects_set_particlePool v : forall a, effects a (set_particlePool v a).
Proof. effects_setter. Qed.
Lemma effects_set_trailUpdateCounter v :
  forall a, effects a (set_trailUpdateCounter v a).
Proof. effects_setter. Qed.
Lemma effects_set_trail v : forall a, effects a (set_trail v a).
Proof. effects_setter. Qed.
Lemma effects_set_audioContext v : forall a, effects a (set_audioContext v a).
Proof. effects_setter. Qed.
Lemma effects_set_timeouts v : forall a, effects a (set_timeouts v a).
Proof. effects_setter. Qed.
Lemma effects_set_rngNext v : forall a, effects a (set_rngNext v a).
Proof. effects_setter. Qed.

Create HintDb effects.
Create Rewrite HintDb reads.

#[export] Hint Resolve effects_refl effects_set_arScene effects_set_particles
  effects_set_scoreIndicators effects_set_playerScoreElement
  effects_set_aiScoreElement effects_set_particlePool
  effects_set_trailUpdateCounter effects_set_trail effects_set_audioContext
  effects_set_timeouts effects_set_rngNext : effects.

(** Chain one more effect after [b]. *)
Ltac after H := eapply effects_trans; [|apply H].

Lemma effects_emitted (a b : PongGame) : emitted a b -> effects a b.
Proof.
  intros (pool & live & k & ->).
  after effects_set_particles. after effects_set_particlePool.
  apply effects_set_rngNext.
Qed.

Lemma effects_emitParticles position color count speed this :
  effects this (emitParticles position color count speed this).
Proof. apply effects_emitted, emitParticles_emitted. Qed.

Lemma effects_playSound type this : effects this (playSound type this).
Proof. unfold playSound. destruct (audioContext this); auto with effects. Qed.

Lemma effects_setTimeout callback delay this :
  effects this (setTimeout callback delay this).
Proof. apply effects_set_timeouts. Qed.

Lemma effects_with_ps slot f this : effects this (with_ps slot f this).
Proof. apply effects_set_particlePool. Qed.

Lemma effects_addObject o this : effects this (addObject o this).
Proof. apply effects_set_arScene. Qed.

Lemma effects_removeObject o this : effects this (removeObject o this).
Proof. apply effects_set_arScene. Qed.

Lemma effects_fresh this : effects this (snd (fresh this)).
Proof. apply effects_set_arScene. Qed.

Lemma effects_random this : effects this (snd (Math_random this)).
Proof. apply effects_set_rngNext. Qed.

Lemma effects_flashPaddle p this : effects this (flashPaddle p this).
Proof. apply effects_setTimeout. Qed.

Lemma effects_updateScoreDisplay this :
  effects this (updateScoreDisplay this).
Proof.
  unfold updateScoreDisplay.
  destruct (playerScoreElement this), (aiScoreElement this);
    auto with effects.
  after effects_set_aiScoreElement. apply effects_set_playerScoreElement.
Qed.

Lemma effects_createScoreIndicator position isPlayer this :
  effects this (createScoreIndicator position isPlayer this).
Proof.
  unfold createScoreIndicator. cbn.
  after effects_set_scoreIndicators. after effects_addObject.
  apply effects_set_arScene.
Qed.

Lemma effects_updateTrail this : effects this (updateTrail this).
Proof.
  unfold updateTrail. cbv zeta. destruct (negb _).
  - apply effects_set_trailUpdateCounter.
  - after effects_set_trail. apply effects_set_trailUpdateCounter.
Qed.

Lemma effects_updateParticles_loop deltaTime refs :
  forall this,
    effects this (snd (updateParticles_loop deltaTime refs this)).
Proof.
  induction refs as [|slot rest IH]; intros this; simpl.
  - apply effects_refl.
  - destruct (_ !! slot) as [ps|].
    + destruct (_ >=? _).
      * eapply effects_trans; [|apply IH].
        do 3 after effects_with_ps. apply effects_refl.
      * destruct (updateParticles_loop _ _ _) as [kept this'] eqn:E.
        simpl. change this' with (snd (kept, this')). rewrite <- E.
        eapply effects_trans; [|apply IH].
        do 2 after effects_with_ps. apply effects_refl.
    + eapply effects_trans; [|apply IH]. apply effects_with_ps.
Qed.

Lemma effects_updateParticles deltaTime this :
  effects this (updateParticles deltaTime this).
Proof.
  unfold updateParticles.
  pose proof (effects_updateParticles_loop deltaTime (particles this) this).
  destruct (updateParticles_loop _ _ _) as [kept this'].
  after effects_set_particles. assumption.
Qed.

Lemma effects_updateScoreIndicators_loop deltaTime l :
  forall this,
    effects this (snd (updateScoreIndicators_loop deltaTime l this)).
Proof.
  induction l as [|indicator rest IH]; intros this; simpl.
  - apply effects_refl.
  - destruct (_ >=? _).
    + eapply effects_trans; [|apply IH]. apply effects_removeObject.
    + destruct (updateScoreIndicators_loop _ _ _) as [kept this'] eqn:E.
      simpl. change this' with (snd (kept, this')). rewrite <- E. apply IH.
Qed.

Lemma effects_updateScoreIndicators deltaTime this :
  effects this (updateScoreIndicators deltaTime this).
Proof.
  unfold updateScoreIndicators.
  pose proof
    (effects_updateScoreIndicators_loop deltaTime (scoreIndicators this) this).
  destruct (updateScoreIndicators_loop _ _ _) as [kept this'].
  after effects_set_scoreIndicators. assumption.
Qed.

(** What [effects] keeps. *)
Lemma effects_keeps (a b : PongGame) :
  effects a b ->
  ball b = ball a /\ ballVelocity b = ballVelocity a
  /\ ballSpeed b = ballSpeed a /\ lastPosition b = lastPosition a
  /\ playerPaddle b = playerPaddle a /\ aiPaddle b = aiPaddle a
  /\ playerScore b = playerScore a /\ aiScore b = aiScore a
  /\ gameLevel b = gameLevel a /\ isPlaying b = isPlaying a
  /\ rng b = rng a.
Proof.
  intros (? & ? & ? & ? & ? & ? & ? & ? & ? & ? & ? & ->).
  repeat split.
Qed.

(** Read the kept fields of an effect's result in the state before it. *)
Ltac keep H :=
  let K := fresh "K" in
  pose proof (effects_keeps _ _ H) as K;
  let K1 := fresh in let K2 := fresh in let K3 := fresh in
  let K4 := fresh in let K5 := fresh in let K6 := fresh in
  let K7 := fresh in let K8 := fresh in let K9 := fresh in
  let K10 := fresh in let K11 := fresh in
  destruct K as (K1 & K2 & K3 & K4 & K5 & K6 & K7 & K8 & K9 & K10 & K11);
  progress
    (rewrite ?K1, ?K2, ?K3, ?K4, ?K5, ?K6, ?K7, ?K8, ?K9, ?K10, ?K11);
  clear K1 K2 K3 K4 K5 K6 K7 K8 K9 K10 K11.

Ltac drop_effect :=
  match goal with
  | |- context [emitParticles ?p ?c ?n ?s ?t] =>
      keep (effects_emitParticles p c n s t)
  | |- context [playSound ?ty ?t] => keep (effects_playSound ty t)
  | |- context [updateScoreDisplay ?t] =>
      keep (effects_updateScoreDisplay t)
  | |- context [createScoreIndicator ?p ?b ?t] =>
      keep (effects_createScoreIndicator p b t)
  | |- context [updateTrail ?t] => keep (effects_updateTrail t)
  | |- context [updateParticles ?d ?t] => keep (effects_updateParticles d t)
  | |- context [updateScoreIndicators ?d ?t] =>
      keep (effects_updateScoreIndicators d t)
  | |- context [setTimeout ?c ?d ?t] => keep (effects_setTimeout c d t)
  | |- context [flashPaddle ?p ?t] => keep (effects_flashPaddle p t)
  end.

(** ** Running a method symbolically *)

(** Name the value of a [let] of the goal whose bound term is closed and
    holds no [let] itself, or the two components of the pair it matches
    on.  A [let]-bound function is a local helper and is inlined. *)
(** A value gets a name and an equation; the name is a variable, so that
    nothing computes through it. *)
Lemma name_value {A : Type} (e : A) (P : A -> Prop) :
  (forall t, t = e -> P t) -> P e.
Proof. intros H. now apply H. Qed.

Ltac flat e :=
  let ok :=
    lazymatch e with
    | context [let y := _ in _] => constr:(false)
    | context [match _ with pair _ _ => _ end] => constr:(false)
    | _ => constr:(true)
    end in
  lazymatch ok with true => idtac end.

Ltac step :=
  match goal with
  | |- context C [let x := ?e in @?b x] =>
      flat e;
      lazymatch e with
      | (fun _ => _) =>
          (* a local helper: inline it *)
          let r := eval cbv beta in (b e) in
          let G := context C [r] in
          change G
      | _ =>
          let t := fresh "t" in
          let H := fresh "H" t in
          let r := eval cbv beta in (b e) in
          let G := context C [r] in
          change G; pattern e; apply name_value; intros t H
      end
  | |- context [match ?e with pair _ _ => _ end] =>
      flat e;
      let H := fresh "H" in
      destruct e as [? ?] eqn:H; cbv beta iota
  end.

(** Decide a test between two states. *)
Ltac branch :=
  match goal with
  | |- context [if ?c then ?a else _] =>
      lazymatch type of a with PongGame => idtac end;
      let E := fresh "E" in
      destruct c eqn:E; cbv beta iota
  end.

Ltac exec := repeat step.

Ltac execs := repeat first [branch | step].

(** Run the call [c] of method [f]: every statement's state gets a name and
    an equation, and the goal speaks of the last one. *)
Ltac run f c :=
  let r := fresh "r" in
  let Hr := fresh "Hr" in
  pattern c; apply name_value; intros r Hr; symmetry in Hr; revert Hr;
  cbv beta delta [f]; exec; intros <-.

(** The same, deciding every test between states on the way. *)
Ltac runs f c :=
  let r := fresh "r" in
  let Hr := fresh "Hr" in
  pattern c; apply name_value; intros r Hr; symmetry in Hr; revert Hr;
  cbv beta delta [f]; execs; intros <-.

(** Turn the decided comparisons into inequalities. *)
Ltac tests :=
  repeat match goal with
  | E : (_ <? _) = true |- _ => apply Rltb_true in E
  | E : (_ <? _) = false |- _ => apply Rltb_false in E
  | E : (_ <=? _) = true |- _ => apply Rleb_true in E
  | E : (_ <=? _) = false |- _ => apply Rleb_false in E
  end.

(** Read the goal in the state one statement earlier: drop an effect,
    use a known fact, or replace the newest named state by its value. *)
Ltac unwind1 :=
  match goal with
  | |- _ => drop_effect
  | |- _ => progress autorewrite with reads
  | H : ?l = ?r |- _ =>
      first
      [ is_var l; subst l; reads
      | lazymatch r with
        | (?a, ?b) =>
            cbv beta iota zeta delta
              [Math_random createMesh fresh Scene.fresh bind_update] in H;
            let H1 := fresh in
            let H2 := fresh in
            injection H as H1 H2; try subst a; try subst b; reads
        end ]
  end.

Ltac unwind := reads; repeat unwind1.

(** ** Serve *)

Lemma launchBall_spec (this : PongGame) :
  ballVelocity (launchBall this) =
    THREE.Vec3
      (cos (horizontalAngle this) * cos (verticalAngle this)
       * ballSpeed this)
      (sin (verticalAngle this) * ballSpeed this)
      (if Rabs (drawnZ this) <? 0.3
       then (if drawnZ this >? 0 then 0.3 else -0.3)
       else drawnZ this)
  /\ ball (launchBall this) = ball this
  /\ ballSpeed (launchBall this) = ballSpeed this
  /\ lastPosition (launchBall this) = position (ball this)
  /\ playerPaddle (launchBall this) = playerPaddle this
  /\ aiPaddle (launchBall this) = aiPaddle this
  /\ playerScore (launchBall this) = playerScore this
  /\ aiScore (launchBall this) = aiScore this
  /\ gameLevel (launchBall this) = gameLevel this
  /\ isPlaying (launchBall this) = isPlaying this
  /\ rng (launchBall this) = rng this.
Proof.
  unfold drawnZ, horizontalAngle, verticalAngle.
  run launchBall (launchBall this). unwind.
  destruct (_ <? 0.3); reads; repeat split.
Qed.

Lemma launchBall_ballVelocity (this : PongGame) :
  ballVelocity (launchBall this) =
    THREE.Vec3
      (cos (horizontalAngle this) * cos (verticalAngle this)
       * ballSpeed this)
      (sin (verticalAngle this) * ballSpeed this)
      (if Rabs (drawnZ this) <? 0.3
       then (if drawnZ this >? 0 then 0.3 else -0.3)
       else drawnZ this).
Proof. apply launchBall_spec. Qed.

Lemma launchBall_ball this : ball (launchBall this) = ball this.
Proof. apply launchBall_spec. Qed.
Lemma launchBall_ballSpeed this :
  ballSpeed (launchBall this) = ballSpeed this.
Proof. apply launchBall_spec. Qed.
Lemma launchBall_lastPosition this :
  lastPosition (launchBall this) = position (ball this).
Proof. apply launchBall_spec. Qed.
Lemma launchBall_playerPaddle this :
  playerPaddle (launchBall this) = playerPaddle this.
Proof. apply launchBall_spec. Qed.
Lemma launchBall_aiPaddle this : aiPaddle (launchBall this) = aiPaddle this.
Proof. apply launchBall_spec. Qed.
Lemma launchBall_playerScore this :
  playerScore (launchBall this) = playerScore this.
Proof. apply launchBall_spec. Qed.
Lemma launchBall_aiScore this : aiScore (launchBall this) = aiScore this.
Proof. apply launchBall_spec. Qed.
Lemma launchBall_gameLevel this :
  gameLevel (launchBall this) = gameLevel this.
Proof. apply launchBall_spec. Qed.
Lemma launchBall_isPlaying this :
  isPlaying (launchBall this) = isPlaying this.
Proof. apply launchBall_spec. Qed.
Lemma launchBall_rng this : rng (launchBall this) = rng this.
Proof. apply launchBall_spec. Qed.

#[export] Hint Rewrite launchBall_ball launchBall_ballSpeed
  launchBall_lastPosition launchBall_playerPaddle launchBall_aiPaddle
  launchBall_playerScore launchBall_aiScore launchBall_gameLevel
  launchBall_isPlaying launchBall_rng : reads.

(** C9.  After every [launchBall] the z-component of the launch velocity has
    magnitude at least 0.3, hence at least 0.3 of [ballSpeed], which never
    exceeds 1 (it is 0.5 at construction and at most 0.8 afterwards). *)
Theorem launchBall_z_floor (this : PongGame) :
  ballSpeed this <= 1 ->
  0.3 * ballSpeed this <= Rabs (THREE.z (ballVelocity (launchBall this))).
Proof.
  intros Hs. rewrite launchBall_ballVelocity. cbn [THREE.z].
  destruct (Rabs (drawnZ this) <? 0.3) eqn:E.
  - destruct (drawnZ this >? 0).
    + rewrite Rabs_pos_eq; lra.
    + rewrite Rabs_left; lra.
  - apply Rltb_false in E. lra.
Qed.

(** C10.  Whenever the drawn z-component falls below 0.3 in magnitude, the
    velocity [launchBall] assigns is strictly faster than [ballSpeed]: the
    z-component is raised to 0.3 and nothing is renormalised. *)
Theorem launchBall_exceeds_ballSpeed (this : PongGame) :
  Rabs (drawnZ this) < 0.3 ->
  ballSpeed this < THREE.length (ballVelocity (launchBall this)).
Proof.
  intros Hz. rewrite launchBall_ballVelocity.
  apply Rltb_true in Hz as E. rewrite E. apply Rltb_true in E.
  unfold THREE.length. cbn.
  set (h := horizontalAngle this) in *. set (v := verticalAngle this) in *.
  set (s := ballSpeed this) in *.
  assert (Hzz : drawnZ this * drawnZ this < 0.3 * 0.3).
  { apply Rabs_def2 in Hz. nra. }
  unfold drawnZ in Hzz. fold h v s in Hzz.
  pose proof (sin2_cos2 h) as Hh. pose proof (sin2_cos2 v) as Hv.
  unfold Rsqr in Hh, Hv.
  set (z' := if _ >? 0 then 0.3 else -0.3).
  assert (Hz' : z' * z' = 0.3 * 0.3) by (subst z'; destruct (_ <? _); lra).
  rewrite Hz'.
  assert (Hsum : cos h * cos v * s * (cos h * cos v * s)
                 + sin v * s * (sin v * s)
                 = s * s - sin h * cos v * s * (sin h * cos v * s)).
  { replace (cos h * cos v * s * (cos h * cos v * s))
      with ((cos h * cos h) * (cos v * cos v) * (s * s)) by ring.
    replace (cos h * cos h) with (1 - sin h * sin h) by lra.
    replace (sin v * s * (sin v * s))
      with ((1 - cos v * cos v) * (s * s)) by (rewrite <- Hv; ring).
    ring. }
  rewrite Hsum.
  apply Rle_lt_trans with (Rabs s); [apply Rle_abs|].
  rewrite <- sqrt_Rsqr_abs. apply sqrt_lt_1_alt. unfold Rsqr. nra.
Qed.

(** ** The frame update *)

Lemma update_blocks (deltaTime : R) (this : PongGame) :
  isPlaying this = true ->
  update deltaTime this =
  updateScoreIndicators deltaTime (spin (updateAI deltaTime (checkScoring
    (checkPaddleCollisions (sideWalls (updateParticles deltaTime
      (updateTrail (floorCeiling (integrate deltaTime this))))))))).
Proof. intros Hp. unfold update. now rewrite Hp. Qed.

Lemma update_effects_last_blocks (deltaTime : R) (this : PongGame) :
  isPlaying this = true ->
  update_effects_last deltaTime this =
  updateScoreIndicators deltaTime (updateTrail (updateParticles deltaTime
    (spin (updateAI deltaTime (checkScoring (checkPaddleCollisions
      (sideWalls (floorCeiling (integrate deltaTime this))))))))).
Proof. intros Hp. unfold update_effects_last. now rewrite Hp. Qed.

(** ** Paddle collisions *)

Lemma bounce_ballVelocity (paddle : Mesh) (this : PongGame) :
  ballVelocity (bounce paddle this) =
  THREE.multiplyScalar (deflected paddle this)
    (ballSpeed this / THREE.length (deflected paddle this)).
Proof. destruct this. reflexivity. Qed.

Lemma bounce_ball (paddle : Mesh) (this : PongGame) :
  ball (bounce paddle this) = ball this.
Proof. reflexivity. Qed.

Lemma bounce_ballSpeed (paddle : Mesh) (this : PongGame) :
  ballSpeed (bounce paddle this) = ballSpeed this.
Proof. reflexivity. Qed.

Lemma bounce_playerPaddle (paddle : Mesh) (this : PongGame) :
  playerPaddle (bounce paddle this) = playerPaddle this.
Proof. reflexivity. Qed.

Lemma bounce_aiPaddle (paddle : Mesh) (this : PongGame) :
  aiPaddle (bounce paddle this) = aiPaddle this.
Proof. reflexivity. Qed.

(** Renormalisation: a velocity with a non-zero z-component is scaled to
    the target speed exactly. *)
Lemma renormalised_length (v : THREE.Vector3) (s : R) :
  0 <= s -> THREE.z v <> 0 ->
  THREE.length (THREE.multiplyScalar v (s / THREE.length v)) = s.
Proof.
  intros Hs Hz. pose proof (length_pos_z v Hz) as Hl.
  rewrite length_multiplyScalar, Rabs_pos_eq.
  - field. lra.
  - apply Rmult_le_pos; [assumption|]. left. now apply Rinv_0_lt_compat.
Qed.

Lemma crossesPlayerPaddle_z (this : PongGame) :
  crossesPlayerPaddle this = true -> 0 < THREE.z (ballVelocity this).
Proof.
  unfold crossesPlayerPaddle. intros H.
  apply andb_prop in H as [H _]. apply andb_prop in H as [H _].
  now apply Rltb_true in H.
Qed.

Lemma crossesAiPaddle_z (this : PongGame) :
  crossesAiPaddle this = true -> THREE.z (ballVelocity this) < 0.
Proof.
  unfold crossesAiPaddle. intros H.
  apply andb_prop in H as [H _]. apply andb_prop in H as [H _].
  now apply Rltb_true in H.
Qed.

Lemma playerPaddleCollision_hit (this : PongGame) :
  hitsPlayerPaddle this = true ->
  ballVelocity (playerPaddleCollision this)
    = ballVelocity (bounce (playerPaddle this) this)
  /\ ballSpeed (playerPaddleCollision this) = ballSpeed this
  /\ position (ball (playerPaddleCollision this))
     = THREE.set_z
         (THREE.z (position (playerPaddle this)) - paddleDepth / 2
          - ballRadius) (position (ball this)).
Proof.
  unfold hitsPlayerPaddle. intros Hhit.
  run playerPaddleCollision (playerPaddleCollision this).
  rewrite Hhit. unwind. auto.
Qed.

Lemma aiPaddleCollision_hit (this : PongGame) :
  hitsAiPaddle this = true ->
  ballVelocity (aiPaddleCollision this)
    = ballVelocity (bounce (aiPaddle this) this)
  /\ ballSpeed (aiPaddleCollision this) = ballSpeed this
  /\ position (ball (aiPaddleCollision this))
     = THREE.set_z
         (THREE.z (position (aiPaddle this)) + paddleDepth / 2
          + ballRadius) (position (ball this)).
Proof.
  unfold hitsAiPaddle. intros Hhit.
  run aiPaddleCollision (aiPaddleCollision this).
  rewrite Hhit. unwind. auto.
Qed.

Lemma playerPaddleCollision_miss (this : PongGame) :
  hitsPlayerPaddle this = false -> playerPaddleCollision this = this.
Proof. unfold hitsPlayerPaddle, playerPaddleCollision. now intros ->. Qed.

Lemma aiPaddleCollision_miss (this : PongGame) :
  hitsAiPaddle this = false -> aiPaddleCollision this = this.
Proof. unfold hitsAiPaddle, aiPaddleCollision. now intros ->. Qed.

Lemma playerPaddleCollision_ballSpeed (this : PongGame) :
  ballSpeed (playerPaddleCollision this) = ballSpeed this.
Proof.
  destruct (hitsPlayerPaddle this) eqn:E.
  - now apply playerPaddleCollision_hit.
  - now rewrite playerPaddleCollision_miss.
Qed.

Lemma deflected_z (paddle : Mesh) (this : PongGame) :
  THREE.z (ballVelocity this) <> 0 -> THREE.z (deflected paddle this) <> 0.
Proof. unfold deflected. cbn [THREE.z]. lra. Qed.

(** C1.  On a hit of the player's paddle (ball moving towards +z, crossing
    the paddle plane since the last tick, inside the paddle's extent), and
    likewise on a hit of the AI's paddle at the other end, the response is
    the deflected velocity (z inverted and amplified by 1.05, x and y
    deflected by the normalised hit offset) rescaled so that its length is
    exactly [ballSpeed], and the ball is put flush against the paddle face:
    half the paddle depth plus the ball radius before it.  After
    [checkPaddleCollisions], a ball that was hit has speed [ballSpeed]. *)
Theorem paddle_collision_response (this : PongGame) :
  0 <= ballSpeed this ->
  (hitsPlayerPaddle this = true ->
     ballVelocity (playerPaddleCollision this)
       = THREE.multiplyScalar (deflected (playerPaddle this) this)
           (ballSpeed this
            / THREE.length (deflected (playerPaddle this) this))
     /\ THREE.length (ballVelocity (playerPaddleCollision this))
        = ballSpeed this
     /\ THREE.z (position (ball (playerPaddleCollision this)))
        = THREE.z (position (playerPaddle this)) - paddleDepth / 2
          - ballRadius)
  /\ (hitsAiPaddle this = true ->
     ballVelocity (aiPaddleCollision this)
       = THREE.multiplyScalar (deflected (aiPaddle this) this)
           (ballSpeed this / THREE.length (deflected (aiPaddle this) this))
     /\ THREE.length (ballVelocity (aiPaddleCollision this))
        = ballSpeed this
     /\ THREE.z (position (ball (aiPaddleCollision this)))
        = THREE.z (position (aiPaddle this)) + paddleDepth / 2
          + ballRadius)
  /\ (hitsPlayerPaddle this = true
      \/ hitsAiPaddle (playerPaddleCollision this) = true ->
     THREE.length (ballVelocity (checkPaddleCollisions this))
     = ballSpeed this).
Proof.
  intros Hs.
  assert (Hplayer : forall t, 0 <= ballSpeed t -> hitsPlayerPaddle t = true ->
    THREE.length (ballVelocity (playerPaddleCollision t)) = ballSpeed t).
  { intros t Ht Hhit.
    destruct (playerPaddleCollision_hit t Hhit) as (-> & _ & _).
    rewrite bounce_ballVelocity. apply renormalised_length; [assumption|].
    apply deflected_z. apply andb_prop in Hhit as [Hc _].
    apply crossesPlayerPaddle_z in Hc. lra. }
  assert (Hai : forall t, 0 <= ballSpeed t -> hitsAiPaddle t = true ->
    THREE.length (ballVelocity (aiPaddleCollision t)) = ballSpeed t).
  { intros t Ht Hhit.
    destruct (aiPaddleCollision_hit t Hhit) as (-> & _ & _).
    rewrite bounce_ballVelocity. apply renormalised_length; [assumption|].
    apply deflected_z. apply andb_prop in Hhit as [Hc _].
    apply crossesAiPaddle_z in Hc. lra. }
  split; [|split].
  - intros Hhit. split; [|split].
    + destruct (playerPaddleCollision_hit this Hhit) as (-> & _ & _).
      apply bounce_ballVelocity.
    + now apply Hplayer.
    + destruct (playerPaddleCollision_hit this Hhit) as (_ & _ & ->).
      reflexivity.
  - intros Hhit. split; [|split].
    + destruct (aiPaddleCollision_hit this Hhit) as (-> & _ & _).
      apply bounce_ballVelocity.
    + now apply Hai.
    + destruct (aiPaddleCollision_hit this Hhit) as (_ & _ & ->).
      reflexivity.
  - intros Hhit. unfold checkPaddleCollisions.
    destruct (hitsAiPaddle (playerPaddleCollision this)) eqn:Eai.
    + rewrite Hai; auto using playerPaddleCollision_ballSpeed.
      now rewrite playerPaddleCollision_ballSpeed.
    + rewrite aiPaddleCollision_miss by assumption.
      destruct Hhit as [Hhit|Hhit]; [now apply Hplayer | discriminate].
Qed.

(** ** Scoring *)

Lemma checkGameEnd_effects (this : PongGame) :
  effects this (checkGameEnd this).
Proof.
  unfold checkGameEnd. destruct (_ || _); [|apply effects_refl].
  after effects_setTimeout.
  apply (for_loop_ind (fun s => effects this s)).
  - intros i s Hs. now after effects_setTimeout.
  - apply effects_playSound.
Qed.

Ltac drop_effect ::=
  match goal with
  | |- context [emitParticles ?p ?c ?n ?s ?t] =>
      keep (effects_emitParticles p c n s t)
  | |- context [playSound ?ty ?t] => keep (effects_playSound ty t)
  | |- context [updateScoreDisplay ?t] =>
      keep (effects_updateScoreDisplay t)
  | |- context [createScoreIndicator ?p ?b ?t] =>
      keep (effects_createScoreIndicator p b t)
  | |- context [updateTrail ?t] => keep (effects_updateTrail t)
  | |- context [updateParticles ?d ?t] => keep (effects_updateParticles d t)
  | |- context [updateScoreIndicators ?d ?t] =>
      keep (effects_updateScoreIndicators d t)
  | |- context [setTimeout ?c ?d ?t] => keep (effects_setTimeout c d t)
  | |- context [flashPaddle ?p ?t] => keep (effects_flashPaddle p t)
  | |- context [checkGameEnd ?t] => keep (checkGameEnd_effects t)
  end.

Lemma resetBall_spec (initialStart : bool) (this : PongGame) :
  position (ball (resetBall initialStart this)) = tableCenter
  /\ ballSpeed (resetBall initialStart this) = ballSpeed this
  /\ playerPaddle (resetBall initialStart this) = playerPaddle this
  /\ aiPaddle (resetBall initialStart this) = aiPaddle this
  /\ playerScore (resetBall initialStart this) = playerScore this
  /\ aiScore (resetBall initialStart this) = aiScore this
  /\ gameLevel (resetBall initialStart this) = gameLevel this
  /\ isPlaying (resetBall initialStart this) = isPlaying this
  /\ rng (resetBall initialStart this) = rng this.
Proof.
  run resetBall (resetBall initialStart this).
  destruct initialStart; unwind; repeat split.
Qed.

Lemma resetBall_position b this :
  position (ball (resetBall b this)) = tableCenter.
Proof. apply resetBall_spec. Qed.
Lemma resetBall_ballSpeed b this :
  ballSpeed (resetBall b this) = ballSpeed this.
Proof. apply resetBall_spec. Qed.
Lemma resetBall_playerPaddle b this :
  playerPaddle (resetBall b this) = playerPaddle this.
Proof. apply resetBall_spec. Qed.
Lemma resetBall_aiPaddle b this :
  aiPaddle (resetBall b this) = aiPaddle this.
Proof. apply resetBall_spec. Qed.
Lemma resetBall_playerScore b this :
  playerScore (resetBall b this) = playerScore this.
Proof. apply resetBall_spec. Qed.
Lemma resetBall_aiScore b this : aiScore (resetBall b this) = aiScore this.
Proof. apply resetBall_spec. Qed.
Lemma resetBall_gameLevel b this :
  gameLevel (resetBall b this) = gameLevel this.
Proof. apply resetBall_spec. Qed.
Lemma resetBall_isPlaying b this :
  isPlaying (resetBall b this) = isPlaying this.
Proof. apply resetBall_spec. Qed.
Lemma resetBall_rng b this : rng (resetBall b this) = rng this.
Proof. apply resetBall_spec. Qed.

#[export] Hint Rewrite resetBall_position resetBall_ballSpeed
  resetBall_playerPaddle resetBall_aiPaddle resetBall_playerScore
  resetBall_aiScore resetBall_gameLevel resetBall_isPlaying resetBall_rng
  : reads.

Lemma resetBall_true_ballVelocity this :
  ballVelocity (resetBall true this) = ballVelocity this.
Proof. run resetBall (resetBall true this). now unwind. Qed.

Lemma resetBall_true_lastPosition this :
  lastPosition (resetBall true this) = lastPosition this.
Proof. run resetBall (resetBall true this). now unwind. Qed.

#[export] Hint Rewrite resetBall_true_ballVelocity
  resetBall_true_lastPosition : reads.

(** What [checkScoring] does in each of its three cases. *)
Lemma checkScoring_idle (this : PongGame) :
  - tableDepth / 2 - ballRadius <= THREE.z (position (ball this))
    <= tableDepth / 2 + ballRadius ->
  checkScoring this = this.
Proof.
  intros Hz. cbv beta delta [checkScoring].
  destruct (THREE.z (position (ball this)) >? tableDepth / 2 + ballRadius)
    eqn:E; tests; [lra|]. cbv zeta.
  destruct (THREE.z (position (ball this)) <? - tableDepth / 2 - ballRadius)
    eqn:E0; tests; [lra|]. reflexivity.
Qed.

Lemma checkScoring_spec (this : PongGame) :
  let z := THREE.z (position (ball this)) in
  let this' := checkScoring this in
  (tableDepth / 2 + ballRadius < z ->
     aiScore this' = S (aiScore this)
     /\ playerScore this' = playerScore this
     /\ position (ball this') = tableCenter)
  /\ (z < - tableDepth / 2 - ballRadius ->
     playerScore this' = S (playerScore this)
     /\ aiScore this' = aiScore this
     /\ position (ball this') = tableCenter)
  /\ ballSpeed this' = ballSpeed this
  /\ gameLevel this' = gameLevel this
  /\ isPlaying this' = isPlaying this
  /\ playerPaddle this' = playerPaddle this
  /\ aiPaddle this' = aiPaddle this
  /\ rng this' = rng this.
Proof.
  cbv zeta. runs checkScoring (checkScoring this).
  - (* both tests succeed: impossible, the ball was reset in between *)
    exfalso. revert E0. unwind. intros E0. tests.
    unfold tableCenter in E0. cbn [THREE.z] in E0. consts. lra.
  - unwind. tests. unfold tableCenter. consts.
    repeat split; intros; try reflexivity; exfalso; lra.
  - unwind. tests. unfold tableCenter. consts.
    repeat split; intros; try reflexivity; exfalso; lra.
  - unwind. tests. consts.
    repeat split; intros; try reflexivity; exfalso; lra.
Qed.

(** C3.  A scoring event, the ball beyond either end of the table by more
    than its radius, increments exactly one score by exactly one, the
    AI's at the player's end and the player's at the AI's end, leaves the
    other score alone and puts the ball back at the table centre. *)
Theorem checkScoring_one_point (this : PongGame) :
  tableDepth / 2 + ballRadius < THREE.z (position (ball this))
  \/ THREE.z (position (ball this)) < - tableDepth / 2 - ballRadius ->
  (tableDepth / 2 + ballRadius < THREE.z (position (ball this)) ->
     aiScore (checkScoring this) = S (aiScore this)
     /\ playerScore (checkScoring this) = playerScore this)
  /\ (THREE.z (position (ball this)) < - tableDepth / 2 - ballRadius ->
     playerScore (checkScoring this) = S (playerScore this)
     /\ aiScore (checkScoring this) = aiScore this)
  /\ position (ball (checkScoring this)) = tableCenter.
Proof.
  intros Hev. pose proof (checkScoring_spec this) as H. cbv zeta in H.
  destruct H as (Hai & Hpl & _).
  repeat split; intros; try (now apply Hai); try (now apply Hpl).
  destruct Hev as [Hev|Hev]; [now apply Hai | now apply Hpl].
Qed.

(** ** The AI opponent *)

Lemma clamp_bounds (lo hi v : R) :
  lo <= hi -> lo <= Math_max lo (Math_min hi v) <= hi.
Proof.
  intros H. unfold Math_max, Math_min, Rmax, Rmin.
  repeat destruct (Rle_dec _ _); lra.
Qed.

Lemma updateAI_spec (deltaTime : R) (this : PongGame) :
  aiPaddleVolume (position (aiPaddle (updateAI deltaTime this)))
  /\ ball (updateAI deltaTime this) = ball this
  /\ ballVelocity (updateAI deltaTime this) = ballVelocity this
  /\ ballSpeed (updateAI deltaTime this) = ballSpeed this
  /\ lastPosition (updateAI deltaTime this) = lastPosition this
  /\ playerPaddle (updateAI deltaTime this) = playerPaddle this
  /\ playerScore (updateAI deltaTime this) = playerScore this
  /\ aiScore (updateAI deltaTime this) = aiScore this
  /\ gameLevel (updateAI deltaTime this) = gameLevel this
  /\ isPlaying (updateAI deltaTime this) = isPlaying this
  /\ rng (updateAI deltaTime this) = rng this.
Proof.
  unfold aiPaddleVolume.
  runs updateAI (updateAI deltaTime this); unwind;
    (split; [|repeat split]);
    (repeat split; apply clamp_bounds; consts; lra).
Qed.

(** ** Session lifecycle *)

Lemma createParticleSystem_effects count this :
  effects this (snd (createParticleSystem count this)).
Proof.
  unfold createParticleSystem.
  pose proof (for_loop_ind
    (fun st : list R * list R * PongGame => effects this (snd st))
    createParticleSystem_body) as Hloop.
  specialize (Hloop (fun i st Hst =>
    ltac:(destruct st as [[c s] t]; cbn in *;
          repeat after effects_set_rngNext; exact Hst))).
  specialize (Hloop count
    (replicate (count * 3) 0, replicate count 0, this) (effects_refl this)).
  destruct (for_loop _ _ _) as [[c s] t]. cbn in *.
  now after effects_set_arScene.
Qed.

Lemma createParticlePool_effects this :
  effects this (createParticlePool this).
Proof.
  unfold createParticlePool. apply (for_loop_ind (fun s => effects this s)).
  - intros i s Hs. unfold createParticlePool_body.
    pose proof (createParticleSystem_effects 30 s) as Hps.
    destruct (createParticleSystem 30 s) as [ps s']. cbn [snd] in Hps.
    cbv zeta. after effects_addObject. after effects_with_ps.
    after effects_set_particlePool. eapply effects_trans; eassumption.
  - apply effects_refl.
Qed.

Ltac drop_effect ::=
  match goal with
  | |- context [emitParticles ?p ?c ?n ?s ?t] =>
      keep (effects_emitParticles p c n s t)
  | |- context [playSound ?ty ?t] => keep (effects_playSound ty t)
  | |- context [updateScoreDisplay ?t] =>
      keep (effects_updateScoreDisplay t)
  | |- context [createScoreIndicator ?p ?b ?t] =>
      keep (effects_createScoreIndicator p b t)
  | |- context [updateTrail ?t] => keep (effects_updateTrail t)
  | |- context [updateParticles ?d ?t] => keep (effects_updateParticles d t)
  | |- context [updateScoreIndicators ?d ?t] =>
      keep (effects_updateScoreIndicators d t)
  | |- context [setTimeout ?c ?d ?t] => keep (effects_setTimeout c d t)
  | |- context [flashPaddle ?p ?t] => keep (effects_flashPaddle p t)
  | |- context [checkGameEnd ?t] => keep (checkGameEnd_effects t)
  | |- context [createParticlePool ?t] =>
      keep (createParticlePool_effects t)
  | |- context [addObject ?o ?t] => keep (effects_addObject o t)
  | |- context [removeObject ?o ?t] => keep (effects_removeObject o t)
  end.

Lemma initialize_spec (this : PongGame) :
  position (ball (initialize this)) = tableCenter
  /\ position (playerPaddle (initialize this))
     = THREE.Vec3 0 (tableHeight + paddleHeight / 2) (tableDepth / 2 - 0.05)
  /\ position (aiPaddle (initialize this))
     = THREE.Vec3 0 (tableHeight + paddleHeight / 2)
         (- tableDepth / 2 + 0.05)
  /\ isPlaying (initialize this) = true
  /\ playerScore (initialize this) = 0%nat
  /\ aiScore (initialize this) = 0%nat
  /\ ballVelocity (initialize this) = ballVelocity this
  /\ ballSpeed (initialize this) = ballSpeed this
  /\ gameLevel (initialize this) = gameLevel this
  /\ rng (initialize this) = rng this.
Proof.
  pattern (initialize this). apply name_value. intros r Hr.
  symmetry in Hr. revert Hr.
  cbv beta delta
    [initialize createTable createBall createPaddles createWalls].
  exec. intros <-. unwind. repeat split.
Qed.

(** ** Containment of the ball *)

Lemma floorCeiling_height (this : PongGame) :
  ballWithinHeight (floorCeiling this).
Proof.
  unfold ballWithinHeight.
  runs floorCeiling (floorCeiling this); unwind; tests; consts; lra.
Qed.

Lemma Math_sign_bound (a b : R) :
  0 < b -> b < Rabs a -> - b <= Math_sign a * b <= b.
Proof.
  intros Hb Ha. unfold Math_sign. cmp.
Qed.

Lemma sideWalls_spec (this : PongGame) :
  ballWithinWalls (sideWalls this)
  /\ THREE.y (position (ball (sideWalls this)))
     = THREE.y (position (ball this)).
Proof.
  unfold ballWithinWalls.
  runs sideWalls (sideWalls this); unwind; tests.
  - split; [|reflexivity].
    pose proof (Math_sign_bound (THREE.x (position (ball this)))
                  (tableWidth / 2 - ballRadius)) as Hs.
    revert Hs E. consts. intros Hs E. lra.
  - split; [|reflexivity].
    revert E. consts. intros E.
    destruct (Rcase_abs (THREE.x (position (ball this)))) as [Hneg|Hpos].
    + rewrite Rabs_left in E by assumption. lra.
    + rewrite Rabs_right in E by assumption. lra.
Qed.

Lemma checkPaddleCollisions_xy (this : PongGame) :
  THREE.x (position (ball (checkPaddleCollisions this)))
    = THREE.x (position (ball this))
  /\ THREE.y (position (ball (checkPaddleCollisions this)))
     = THREE.y (position (ball this)).
Proof.
  unfold checkPaddleCollisions.
  assert (Hai : forall t,
    THREE.x (position (ball (aiPaddleCollision t)))
      = THREE.x (position (ball t))
    /\ THREE.y (position (ball (aiPaddleCollision t)))
       = THREE.y (position (ball t))).
  { intros t. destruct (hitsAiPaddle t) eqn:E.
    - destruct (aiPaddleCollision_hit t E) as (_ & _ & ->). now split.
    - now rewrite aiPaddleCollision_miss. }
  destruct (Hai (playerPaddleCollision this)) as [-> ->].
  destruct (hitsPlayerPaddle this) eqn:E.
  - destruct (playerPaddleCollision_hit this E) as (_ & _ & ->). now split.
  - now rewrite playerPaddleCollision_miss.
Qed.

Lemma checkScoring_contained (this : PongGame) :
  ballWithinWalls this -> ballWithinHeight this ->
  ballWithinWalls (checkScoring this)
  /\ ballWithinHeight (checkScoring this).
Proof.
  unfold ballWithinWalls, ballWithinHeight. intros Hx Hy.
  pose proof (checkScoring_spec this) as H. cbv zeta in H.
  destruct H as (Hai & Hpl & _).
  destruct (Rlt_dec (tableDepth / 2 + ballRadius)
              (THREE.z (position (ball this)))) as [Hz|Hz].
  - destruct (Hai Hz) as (_ & _ & ->). unfold tableCenter. cbn [THREE.x THREE.y].
    consts. lra.
  - destruct (Rlt_dec (THREE.z (position (ball this)))
                (- tableDepth / 2 - ballRadius)) as [Hz'|Hz'].
    + destruct (Hpl Hz') as (_ & _ & ->). unfold tableCenter.
      cbn [THREE.x THREE.y]. consts. lra.
    + rewrite checkScoring_idle by lra. now split.
Qed.

Lemma spin_position (this : PongGame) :
  position (ball (spin this)) = position (ball this).
Proof. reflexivity. Qed.

(** C2.  At the end of every [update] of a game that is playing, the ball
    lies between the side walls and between the floor and the ceiling of
    the play area, whatever [deltaTime] is and wherever the ball was. *)
Theorem update_contains_ball (deltaTime : R) (this : PongGame) :
  isPlaying this = true ->
  ballWithinWalls (update deltaTime this)
  /\ ballWithinHeight (update deltaTime this).
Proof.
  intros Hp. rewrite update_blocks by assumption.
  set (t1 := floorCeiling (integrate deltaTime this)).
  set (t2 := updateParticles deltaTime (updateTrail t1)).
  assert (H2 : ballWithinHeight t2).
  { unfold ballWithinHeight, t2. unwind. apply floorCeiling_height. }
  destruct (sideWalls_spec t2) as [H3x H3y].
  assert (H3 : ballWithinHeight (sideWalls t2)).
  { unfold ballWithinHeight. now rewrite H3y. }
  destruct (checkPaddleCollisions_xy (sideWalls t2)) as [H4x H4y].
  destruct (checkScoring_contained (checkPaddleCollisions (sideWalls t2)))
    as [H5x H5y].
  { unfold ballWithinWalls. now rewrite H4x. }
  { unfold ballWithinHeight. now rewrite H4y. }
  unfold ballWithinWalls, ballWithinHeight in *.
  keep (effects_updateScoreIndicators deltaTime
          (spin (updateAI deltaTime
            (checkScoring (checkPaddleCollisions (sideWalls t2)))))).
  rewrite spin_position.
  destruct (updateAI_spec deltaTime
    (checkScoring (checkPaddleCollisions (sideWalls t2)))) as (_ & -> & _).
  now split.
Qed.

(** ** Round end *)

Lemma playSound_timeouts type this :
  timeouts (playSound type this) = timeouts this.
Proof. unfold playSound. now destruct (audioContext this). Qed.

Lemma checkGameEnd_timeouts (this : PongGame) :
  (winningScore <=? playerScore this)%nat
  || (winningScore <=? aiScore this)%nat = true ->
  timeouts (checkGameEnd this)
  = timeouts this
    ++ map (fun i => (INR i * 300, Celebrate)) (seq 0 5)
    ++ [(3000, RoundReset)].
Proof.
  intros Hend. unfold checkGameEnd. rewrite Hend.
  unfold for_loop, setTimeout. cbn [seq fold_left map]. reads.
  rewrite playSound_timeouts. now rewrite <- !app_assoc.
Qed.

Lemma checkGameEnd_idle (this : PongGame) :
  (winningScore <=? playerScore this)%nat
  || (winningScore <=? aiScore this)%nat = false ->
  checkGameEnd this = this.
Proof. intros Hend. unfold checkGameEnd. now rewrite Hend. Qed.

Lemma roundReset_spec (this : PongGame) :
  playerScore (runTimeout RoundReset this) = 0%nat
  /\ aiScore (runTimeout RoundReset this) = 0%nat
  /\ gameLevel (runTimeout RoundReset this) = S (gameLevel this)
  /\ ballSpeed (runTimeout RoundReset this)
     = Math_min (0.5 + INR (S (gameLevel this)) * 0.05) 0.8
  /\ position (ball (runTimeout RoundReset this)) = tableCenter
  /\ isPlaying (runTimeout RoundReset this) = isPlaying this
  /\ rng (runTimeout RoundReset this) = rng this.
Proof.
  pattern (runTimeout RoundReset this). apply name_value. intros r Hr.
  symmetry in Hr. revert Hr. cbv beta iota delta [runTimeout].
  exec. intros <-. unwind. repeat split.
Qed.

(** ** The particle pool *)

Lemma for_loop_S {S : Type} (n : nat) (body : nat -> S -> S) (s : S) :
  for_loop (Datatypes.S n) body s = body n (for_loop n body s).
Proof.
  unfold for_loop. rewrite seq_S, fold_left_app. reflexivity.
Qed.

Lemma with_ps_pool_length slot f this :
  length (particlePool (with_ps slot f this)) = length (particlePool this).
Proof. unfold with_ps. reads. apply length_alter. Qed.

Lemma emitParticles_pool_length position color count speed this :
  length (particlePool (emitParticles position color count speed this))
  = length (particlePool this).
Proof.
  unfold emitParticles.
  destruct (list_find _ _) as [[slot ?]|]; [|reflexivity].
  cbv zeta. reads. rewrite !with_ps_pool_length.
  apply (for_loop_ind (fun s =>
    length (particlePool s) = length (particlePool this))).
  - intros i s Hs. unfold emitParticles_body, Math_random. cbv zeta.
    repeat (progress (reads; rewrite ?with_ps_pool_length)). exact Hs.
  - now rewrite !with_ps_pool_length.
Qed.

Lemma createParticleSystem_pool count this :
  particlePool (snd (createParticleSystem count this)) = particlePool this.
Proof.
  unfold createParticleSystem.
  pose proof (for_loop_ind
    (fun st : list R * list R * PongGame =>
       particlePool (snd st) = particlePool this)
    createParticleSystem_body) as Hloop.
  specialize (Hloop (fun i st Hst =>
    ltac:(destruct st as [[c s] t]; exact Hst))).
  specialize (Hloop count
    (replicate (count * 3) 0, replicate count 0, this) eq_refl).
  destruct (for_loop _ _ _) as [[c s] t]. exact Hloop.
Qed.

Lemma createParticlePool_body_length i this :
  length (particlePool (createParticlePool_body i this))
  = Datatypes.S (length (particlePool this)).
Proof.
  unfold createParticlePool_body.
  pose proof (createParticleSystem_pool 30 this) as Hps.
  destruct (createParticleSystem 30 this) as [ps t]. cbn [snd] in Hps.
  cbv zeta. unfold addObject. reads.
  rewrite with_ps_pool_length. reads. rewrite length_app, Hps.
  cbn [length]. lia.
Qed.

Lemma createParticlePool_length this :
  length (particlePool (createParticlePool this))
  = (length (particlePool this) + 10)%nat.
Proof.
  unfold createParticlePool.
  do 10 (rewrite for_loop_S, createParticlePool_body_length).
  unfold for_loop. cbn [seq fold_left]. lia.
Qed.

(** C8.  The pool is scanned for an inactive slot; when every slot is
    active the call changes nothing at all: the state after the call is the
    state before it, pool, live list and random stream included.  (That the
    pool has ten slots and that no emission changes its size are
    [createParticlePool_length] and [emitParticles_pool_length].) *)
Theorem emitParticles_pool_exhausted position color count speed
    (this : PongGame) :
  Forall (fun ps => active ps = true) (particlePool this) ->
  emitParticles position color count speed this = this.
Proof.
  intros Hall. unfold emitParticles.
  destruct (list_find _ _) as [[slot ps]|] eqn:Hfind; [|reflexivity].
  apply list_find_Some in Hfind as (Hps & Hact & _).
  pose proof (Forall_lookup_1 _ _ _ _ Hall Hps) as Hon. cbv beta in Hon.
  congruence.
Qed.

(** ** The update callback *)

Lemma allocated_refl this : allocated 0 this this.
Proof. split; [reflexivity | lia]. Qed.

Lemma allocated_trans n m a b c :
  allocated n a b -> allocated m b c -> allocated (n + m) a c.
Proof. intros [H1 H2] [H3 H4]. split; [congruence | lia]. Qed.

Lemma allocated_same a b : arScene b = arScene a -> allocated 0 a b.
Proof. intros H. unfold allocated. rewrite H. split; [reflexivity | lia]. Qed.

Lemma allocated_fresh this : allocated 1 this (snd (fresh this)).
Proof.
  unfold allocated, fresh, Scene.fresh. cbn [snd]. reads.
  split; [reflexivity | lia].
Qed.

Lemma allocated_addObject object this :
  allocated 0 this (addObject object this).
Proof.
  unfold allocated, addObject, Scene.addObject. reads.
  split; [reflexivity | lia].
Qed.

Lemma allocated_removeObject object this :
  allocated 0 this (removeObject object this).
Proof.
  unfold allocated, removeObject, Scene.removeObject. reads.
  destruct (indexOf _ _); reads; (split; [reflexivity | lia]).
Qed.

Lemma allocated_createMesh p this :
  allocated 1 this (snd (createMesh p this)).
Proof.
  unfold createMesh.
  pose proof (allocated_fresh this) as Hf.
  destruct (fresh this) as [id t]. cbn [snd] in *.
  apply (allocated_trans 1 0 _ _ _ Hf), allocated_addObject.
Qed.

Lemma allocated_createTable this : allocated 1 this (createTable this).
Proof.
  unfold createTable. pose proof (allocated_createMesh (THREE.Vec3 0 tableHeight 0) this) as Hm.
  destruct (createMesh _ _) as [m t]. cbn [snd] in *.
  apply (allocated_trans 1 0 _ _ _ Hm), allocated_same. now reads.
Qed.

Lemma allocated_createBall this : allocated 1 this (createBall this).
Proof.
  unfold createBall. cbv zeta.
  match goal with |- context [createMesh ?p ?t] =>
    pose proof (allocated_createMesh p t) as Hm;
    destruct (createMesh p t) as [m t'] end.
  cbn [snd] in *.
  apply (allocated_trans 0 1 _ (set_trail createTrailEffect this));
    [apply allocated_same; now reads|].
  apply (allocated_trans 1 0 _ _ _ Hm), allocated_same. now reads.
Qed.

Lemma allocated_createPaddles this : allocated 2 this (createPaddles this).
Proof.
  unfold createPaddles.
  match goal with |- context [createMesh ?p this] =>
    pose proof (allocated_createMesh p this) as Hm;
    destruct (createMesh p this) as [m t] end.
  cbn [snd] in *. cbv zeta.
  match goal with |- context [createMesh ?p ?t'] =>
    pose proof (allocated_createMesh p t') as Hm';
    destruct (createMesh p t') as [m' t''] end.
  cbn [snd] in *.
  apply (allocated_trans 1 1 _ _ _ Hm).
  apply (allocated_trans 0 1 _ (set_playerPaddle m t));
    [apply allocated_same; now reads|].
  apply (allocated_trans 1 0 _ _ _ Hm'), allocated_same. now reads.
Qed.

Lemma allocated_createWalls this : allocated 2 this (createWalls this).
Proof.
  unfold createWalls.
  match goal with |- context [createMesh ?p this] =>
    pose proof (allocated_createMesh p this) as Hm;
    destruct (createMesh p this) as [m t] end.
  cbn [snd] in *. cbv zeta.
  match goal with |- context [createMesh ?p ?t'] =>
    pose proof (allocated_createMesh p t') as Hm';
    destruct (createMesh p t') as [m' t''] end.
  cbn [snd] in *.
  apply (allocated_trans 1 1 _ _ _ Hm).
  match type of Hm' with allocated _ ?t' _ =>
    apply (allocated_trans 0 1 _ t'); [apply allocated_same; now reads|] end.
  apply (allocated_trans 1 0 _ _ _ Hm'), allocated_same. now reads.
Qed.

Lemma allocated_createParticleSystem count this :
  allocated 1 this (snd (createParticleSystem count this)).
Proof.
  unfold createParticleSystem.
  pose proof (for_loop_ind
    (fun st : list R * list R * PongGame => allocated 0 this (snd st))
    createParticleSystem_body) as Hloop.
  specialize (Hloop (fun i st Hst =>
    ltac:(destruct st as [[c s] t]; cbn [snd] in *;
          unfold createParticleSystem_body, Math_random; cbn [snd];
          apply (allocated_trans 0 0 _ _ _ Hst), allocated_same;
          now reads))).
  specialize (Hloop count
    (replicate (count * 3) 0, replicate count 0, this)
    (allocated_refl this)).
  destruct (for_loop _ _ _) as [[c s] t]. cbn [snd] in Hloop.
  pose proof (allocated_fresh t) as Hf.
  destruct (fresh t) as [id t']. cbn [snd] in *.
  apply (allocated_trans 0 1 _ _ _ Hloop Hf).
Qed.

Lemma allocated_createParticlePool_body i this :
  allocated 1 this (createParticlePool_body i this).
Proof.
  unfold createParticlePool_body.
  pose proof (allocated_createParticleSystem 30 this) as Hps.
  destruct (createParticleSystem 30 this) as [ps t]. cbn [snd] in Hps.
  cbv zeta. apply (allocated_trans 1 0 _ _ _ Hps).
  eapply (allocated_trans 0 0); [|apply allocated_addObject].
  apply allocated_same. unfold with_ps. now reads.
Qed.

Lemma allocated_for_loop n (body : nat -> PongGame -> PongGame) this :
  (forall i s, allocated 1 s (body i s)) ->
  allocated n this (for_loop n body this).
Proof.
  intros Hbody. induction n as [|n IHn].
  - apply allocated_refl.
  - rewrite for_loop_S. replace (S n) with (n + 1)%nat by lia.
    eapply allocated_trans; [apply IHn | apply Hbody].
Qed.

Lemma allocated_createParticlePool this :
  allocated 10 this (createParticlePool this).
Proof.
  apply allocated_for_loop, allocated_createParticlePool_body.
Qed.

Lemma allocated_fold_removeObject {A : Type} (f : A -> nat) (l : list A)
    this :
  allocated 0 this (fold_left (fun this x => removeObject (f x) this) l this).
Proof.
  revert this. induction l as [|x l IHl]; intros this; cbn [fold_left].
  - apply allocated_refl.
  - apply (allocated_trans 0 0 _ (removeObject (f x) this));
      [apply allocated_removeObject | apply IHl].
Qed.

Lemma indexOf_unallocated (sc : ARScene) :
  callbacksAllocated sc -> indexOf (onUpdateCallbacks sc) (nextId sc) = None.
Proof.
  intros Hsc. unfold indexOf.
  destruct (list_find _ _) as [[index callback]|] eqn:Hfind; [|reflexivity].
  apply list_find_Some in Hfind as (Hin & -> & _).
  pose proof (Forall_lookup_1 _ _ _ _ Hsc Hin) as Hlt. cbv beta in Hlt. lia.
Qed.

Lemma updateScoreDisplay_arScene this :
  arScene (updateScoreDisplay this) = arScene this.
Proof.
  unfold updateScoreDisplay.
  repeat match goal with |- context [match ?e with Some _ => _ | None => _ end] =>
    destruct e end; now reads.
Qed.

Lemma resetBall_true_arScene this :
  arScene (resetBall true this) = arScene this.
Proof. unfold resetBall, setTimeout. cbv zeta. now reads. Qed.

Ltac allocate k lem :=
  match goal with
  | H : ?t = ?rhs, A : allocated ?n ?a ?s |- _ =>
      lazymatch rhs with context [s] => idtac end;
      let A' := fresh "A" in
      assert (A' : allocated k s rhs) by apply lem;
      apply (allocated_trans _ _ _ _ _ A) in A';
      rewrite <- H in A'; clear H A
  end.

Lemma initialize_allocated (this : PongGame) :
  onUpdateCallbacks (arScene (initialize this))
  = onUpdateCallbacks (arScene this) ++ [(nextId (arScene this) + 16)%nat]
  /\ nextId (arScene (initialize this)) = (nextId (arScene this) + 17)%nat.
Proof.
  run initialize (initialize this).
  pose proof (allocated_refl this) as A.
  allocate 1%nat allocated_createTable.
  allocate 1%nat allocated_createBall.
  allocate 2%nat allocated_createPaddles.
  allocate 2%nat allocated_createWalls.
  allocate 10%nat allocated_createParticlePool.
  match goal with A : allocated _ _ _ |- _ => destruct A as [Hc Hn] end.
  rewrite updateScoreDisplay_arScene.
  repeat match goal with H : ?t = _ |- _ => is_var t; subst t; reads end.
  rewrite resetBall_true_arScene. reads.
  match goal with H : bind_update _ = (_, _) |- _ =>
    unfold bind_update, fresh, Scene.fresh in H; cbv beta iota in H;
    injection H as <- <- end.
  unfold Scene.addUpdateCallback. reads.
  rewrite Hc, Hn. split; [reflexivity | lia].
Qed.

Lemma initialize_callbacksAllocated (this : PongGame) :
  callbacksAllocated (arScene this) ->
  callbacksAllocated (arScene (initialize this)).
Proof.
  unfold callbacksAllocated.
  destruct (initialize_allocated this) as [-> ->]. intros Hsc.
  apply Forall_app. split.
  - eapply Forall_impl; [exact Hsc|]. cbv beta. intros; lia.
  - repeat constructor. lia.
Qed.

Lemma dispose_callbacks (this : PongGame) :
  callbacksAllocated (arScene this) ->
  onUpdateCallbacks (arScene (dispose this))
  = onUpdateCallbacks (arScene this).
Proof.
  intros Hsc.
  assert (Hall : forall t, allocated 0 this t ->
            callbacksAllocated (arScene t)).
  { intros t [Hc Hn]. unfold callbacksAllocated. rewrite Hc, Hn.
    now rewrite Nat.add_0_r. }
  run dispose (dispose this).
  pose proof (allocated_refl this) as A.
  do 4 allocate 0%nat allocated_removeObject.
  allocate 0%nat (allocated_fold_removeObject (fun wall : nat => wall)).
  allocate 0%nat (allocated_fold_removeObject ps_id).
  allocate 0%nat (allocated_fold_removeObject sprite_id).
  match goal with H : ?t = match audioContext ?s with _ => _ end |- _ =>
    assert (A' : allocated 0 s t)
      by (rewrite H; apply allocated_same;
          destruct (audioContext s) as [ctx|]; [destruct (closed ctx)|];
          now reads);
    clear H end.
  match goal with A : allocated _ this _ |- _ =>
    pose proof (allocated_trans _ _ _ _ _ A A') as A8 end.
  match goal with H : bind_update _ = (_, _) |- _ =>
    unfold bind_update, fresh, Scene.fresh in H; cbv beta iota in H;
    injection H as <- <- end.
  repeat match goal with H : ?t = _ |- _ => is_var t; subst t; reads end.
  unfold Scene.removeUpdateCallback. reads.
  rewrite (indexOf_unallocated _ (Hall _ A8)). reads. apply A8.
Qed.

(** ** The order of the frame update *)

Lemma quiet_refl this : quiet this this.
Proof. now split. Qed.

Lemma quiet_trans a b c : quiet a b -> quiet b c -> quiet a c.
Proof. intros [H1 H2] [H3 H4]. split; congruence. Qed.

Lemma quiet_removeObject object this : quiet this (removeObject object this).
Proof. unfold quiet, removeObject. now reads. Qed.

Lemma quiet_playSound type this : quiet this (playSound type this).
Proof. unfold quiet, playSound. destruct (audioContext this); now reads. Qed.

Lemma quiet_updateScoreIndicators_loop deltaTime l :
  forall this,
    quiet this (snd (updateScoreIndicators_loop deltaTime l this)).
Proof.
  induction l as [|indicator rest IH]; intros this; simpl.
  - apply quiet_refl.
  - destruct (_ >=? _).
    + eapply quiet_trans; [|apply IH]. apply quiet_removeObject.
    + destruct (updateScoreIndicators_loop _ _ _) as [kept this'] eqn:E.
      simpl. change this' with (snd (kept, this')). rewrite <- E. apply IH.
Qed.

Lemma quiet_updateScoreIndicators deltaTime this :
  quiet this (updateScoreIndicators deltaTime this).
Proof.
  unfold updateScoreIndicators.
  pose proof
    (quiet_updateScoreIndicators_loop deltaTime (scoreIndicators this) this)
    as H.
  destruct (updateScoreIndicators_loop _ _ _) as [kept this'].
  eapply quiet_trans; [exact H|]. unfold quiet. now reads.
Qed.

Lemma quiet_updateTrail this : quiet this (updateTrail this).
Proof.
  unfold quiet, updateTrail. cbv zeta. destruct (negb _); now reads.
Qed.

Lemma quiet_integrate deltaTime this : quiet this (integrate deltaTime this).
Proof.
  unfold quiet. run integrate (integrate deltaTime this). unwind. now split.
Qed.

Lemma quiet_spin this : quiet this (spin this).
Proof. unfold quiet, spin. cbv zeta. now reads. Qed.

Lemma quiet_updateAI deltaTime this : quiet this (updateAI deltaTime this).
Proof.
  unfold quiet. runs updateAI (updateAI deltaTime this); unwind; now split.
Qed.

(** An emission into a free slot: the slot joins the live list, with its
    lifetime at zero. *)
Lemma with_ps_lookup slot f this ps :
  particlePool this !! slot = Some ps ->
  particlePool (with_ps slot f this) !! slot = Some (f ps).
Proof.
  intros H. unfold with_ps. reads. rewrite list_lookup_alter, H.
  destruct (decide (slot = slot)); [reflexivity | congruence].
Qed.

Lemma emitParticles_free position color count speed this slot ps :
  list_find (fun ps => active ps = false) (particlePool this)
    = Some (slot, ps) ->
  particles (emitParticles position color count speed this)
    = particles this ++ [slot]
  /\ exists ps',
       particlePool (emitParticles position color count speed this) !! slot
         = Some ps'
       /\ lifetime ps' = 0 /\ maxLifetime ps' = maxLifetime ps.
Proof.
  intros Hfind. unfold emitParticles. rewrite Hfind.
  apply list_find_Some in Hfind as (Hps & _ & _). cbv zeta.
  set (t0 := with_ps slot (set_visible true)
               (with_ps slot (set_ps_position position) this)).
  assert (H0 : particles t0 = particles this
               /\ exists ps', particlePool t0 !! slot = Some ps'
                              /\ maxLifetime ps' = maxLifetime ps).
  { split; [reflexivity|]. eexists. split.
    - subst t0. apply with_ps_lookup, with_ps_lookup, Hps.
    - reflexivity. }
  pose proof (for_loop_ind (fun s =>
    particles s = particles this
    /\ exists ps', particlePool s !! slot = Some ps'
                   /\ maxLifetime ps' = maxLifetime ps)
    (emitParticles_body slot color speed)) as Hloop.
  specialize (Hloop (fun i s Hs => ltac:(
    destruct Hs as (Hp & ps' & Hl & Hm);
    unfold emitParticles_body, Math_random; cbv zeta;
    split; [exact Hp|];
    eexists; split;
      [apply with_ps_lookup; unfold with_ps at 1; reads;
       apply with_ps_lookup, with_ps_lookup, Hl
      |exact Hm])) count t0 H0).
  destruct Hloop as (Hp & ps' & Hl & Hm). reads.
  split.
  - unfold with_ps. reads. now rewrite Hp.
  - eexists. split; [apply with_ps_lookup, with_ps_lookup, Hl|].
    split; [reflexivity | exact Hm].
Qed.

Lemma updateParticles_none deltaTime this :
  particles this = [] -> quiet this (updateParticles deltaTime this).
Proof.
  intros Hp. unfold quiet, updateParticles. rewrite Hp.
  cbn [updateParticles_loop]. now reads.
Qed.

(** A live system that has reached its maximal lifetime leaves the live
    list. *)
Lemma updateParticles_expires deltaTime this slot ps :
  particles this = [slot] ->
  particlePool this !! slot = Some ps ->
  maxLifetime ps <= lifetime ps + deltaTime ->
  particles (updateParticles deltaTime this) = [].
Proof.
  intros Hp Hl Hdue. unfold updateParticles. rewrite Hp.
  cbn [updateParticles_loop]. cbv zeta.
  rewrite (with_ps_lookup _ _ _ _ Hl). reads.
  replace (lifetime ps + deltaTime >=? maxLifetime ps) with true
    by (symmetry; cmp).
  now reads.
Qed.

Lemma integrate_spec deltaTime this :
  ballVelocity (integrate deltaTime this)
  = THREE.set_y (THREE.y (ballVelocity this) + gravity * deltaTime)
      (ballVelocity this)
  /\ position (ball (integrate deltaTime this))
     = THREE.Vec3
         (THREE.x (position (ball this))
          + THREE.x (ballVelocity this) * deltaTime)
         (THREE.y (position (ball this))
          + (THREE.y (ballVelocity this) + gravity * deltaTime) * deltaTime)
         (THREE.z (position (ball this))
          + THREE.z (ballVelocity this) * deltaTime)
  /\ lastPosition (integrate deltaTime this) = position (ball this)
  /\ playerPaddle (integrate deltaTime this) = playerPaddle this
  /\ aiPaddle (integrate deltaTime this) = aiPaddle this.
Proof.
  run integrate (integrate deltaTime this). unwind.
  destruct (ballVelocity this), (position (ball this)). now reads.
Qed.

Lemma floorCeiling_idle this :
  ballWithinHeight this -> floorCeiling this = this.
Proof.
  unfold ballWithinHeight, floorCeiling. intros Hy.
  replace (_ <? _) with false by (symmetry; cmp).
  replace (_ >? _) with false by (symmetry; cmp).
  reflexivity.
Qed.

Lemma sideWalls_hit this :
  tableWidth / 2 - ballRadius < Rabs (THREE.x (position (ball this))) ->
  exists hit : PongGame,
    sideWalls this
    = emitParticles (position (ball hit)) (THREE.Color_hex 0x3388ff) 20 0.1
        hit
    /\ quiet this hit
    /\ THREE.z (ballVelocity hit) = THREE.z (ballVelocity this)
    /\ THREE.z (position (ball hit)) = THREE.z (position (ball this)).
Proof.
  intros Hx. unfold sideWalls.
  replace (_ >? _) with true by (symmetry; cmp). cbv zeta.
  eexists. split; [reflexivity|]. split.
  - eapply quiet_trans; [|apply quiet_playSound]. unfold quiet. now reads.
  - keep (effects_playSound wall
            (moveBall (fun p => THREE.set_x
               (Math_sign (THREE.x p) * (tableWidth / 2 - ballRadius)) p)
               (set_ballVelocity (THREE.set_x
                  (THREE.x (ballVelocity this) * -1) (ballVelocity this))
                  this))).
    reads. destruct (ballVelocity this), (position (ball this)).
    now reads.
Qed.

Lemma rally_continues this :
  THREE.z (ballVelocity this) = 0 ->
  - tableDepth / 2 - ballRadius <= THREE.z (position (ball this))
    <= tableDepth / 2 + ballRadius ->
  checkScoring (checkPaddleCollisions this) = this.
Proof.
  intros Hv Hz. unfold checkPaddleCollisions.
  rewrite (playerPaddleCollision_miss this).
  - rewrite (aiPaddleCollision_miss this).
    + now apply checkScoring_idle.
    + unfold hitsAiPaddle, crossesAiPaddle. rewrite Hv.
      replace (0 <? 0) with false by (symmetry; cmp). reflexivity.
  - unfold hitsPlayerPaddle, crossesPlayerPaddle. rewrite Hv.
    replace (0 >? 0) with false by (symmetry; cmp). reflexivity.
Qed.

Lemma integrate_ballSpeed deltaTime this :
  ballSpeed (integrate deltaTime this) = ballSpeed this.
Proof. run integrate (integrate deltaTime this). unwind. reflexivity. Qed.

Lemma floorCeiling_ballSpeed this :
  ballSpeed (floorCeiling this) = ballSpeed this.
Proof. runs floorCeiling (floorCeiling this); unwind; reflexivity. Qed.

Lemma sideWalls_ballSpeed this :
  ballSpeed (sideWalls this) = ballSpeed this.
Proof. runs sideWalls (sideWalls this); unwind; reflexivity. Qed.

Lemma spin_ballSpeed this : ballSpeed (spin this) = ballSpeed this.
Proof. reflexivity. Qed.

(** With a side-wall hit in the frame, the two orders leave different live
    lists: [update] has the burst of the hit live at the end of the frame,
    while advancing the particles last would already have aged it by
    [deltaTime]. *)
Lemma update_orders_differ deltaTime this slot ps :
  isPlaying this = true ->
  ballWithinHeight (integrate deltaTime this) ->
  tableWidth / 2 - ballRadius
    < Rabs (THREE.x (position (ball (integrate deltaTime this)))) ->
  THREE.z (ballVelocity this) = 0 ->
  - tableDepth / 2 - ballRadius <= THREE.z (position (ball this))
    <= tableDepth / 2 + ballRadius ->
  particles this = [] ->
  list_find (fun ps => active ps = false) (particlePool this)
    = Some (slot, ps) ->
  particles (update deltaTime this) = [slot]
  /\ (maxLifetime ps <= deltaTime ->
      particles (update_effects_last deltaTime this) = []).
Proof.
  intros Hplay Hy Hx Hvz Hz Hnone Hfree.
  assert (Hvz1 : THREE.z (ballVelocity (integrate deltaTime this)) = 0).
  { destruct (integrate_spec deltaTime this) as (-> & _).
    destruct (ballVelocity this). exact Hvz. }
  assert (Hz1 : THREE.z (position (ball (integrate deltaTime this)))
                = THREE.z (position (ball this))).
  { destruct (integrate_spec deltaTime this) as (_ & -> & _).
    cbn [THREE.z]. rewrite Hvz. lra. }
  pose proof (quiet_integrate deltaTime this) as Q1.
  rewrite update_blocks, update_effects_last_blocks by assumption.
  revert Hy Hx Hvz1 Hz1 Q1.
  generalize (integrate deltaTime this). intros s1 Hy Hx Hvz1 Hz1 Q1.
  rewrite (floorCeiling_idle s1 Hy).
  assert (Hcont : forall t hit,
    sideWalls t
      = emitParticles (position (ball hit)) (THREE.Color_hex 0x3388ff) 20 0.1
          hit ->
    THREE.z (ballVelocity hit) = THREE.z (ballVelocity s1) ->
    THREE.z (position (ball hit)) = THREE.z (position (ball s1)) ->
    checkScoring (checkPaddleCollisions (sideWalls t)) = sideWalls t).
  { intros t hit Hsw Hv Hp. apply rally_continues; rewrite Hsw.
    - keep (effects_emitParticles (position (ball hit))
              (THREE.Color_hex 0x3388ff) 20%nat 0.1 hit). congruence.
    - keep (effects_emitParticles (position (ball hit))
              (THREE.Color_hex 0x3388ff) 20%nat 0.1 hit).
      rewrite Hp, Hz1. exact Hz. }
  split.
  - set (t2 := updateParticles deltaTime (updateTrail s1)).
    assert (Q2 : quiet this t2).
    { eapply quiet_trans; [exact Q1|].
      eapply quiet_trans; [apply quiet_updateTrail|].
      apply updateParticles_none.
      destruct (quiet_updateTrail s1) as [-> _]. destruct Q1 as [-> _].
      exact Hnone. }
    assert (Hb : ball t2 = ball s1 /\ ballVelocity t2 = ballVelocity s1).
    { unfold t2. unwind. now split. }
    destruct Hb as [Hb Hv].
    destruct (sideWalls_hit t2) as (hit & Hsw & Qh & Hvh & Hzh).
    { now rewrite Hb. }
    rewrite (Hcont t2 hit Hsw) by congruence.
    destruct (quiet_updateScoreIndicators deltaTime
                (spin (updateAI deltaTime (sideWalls t2)))) as [-> _].
    destruct (quiet_spin (updateAI deltaTime (sideWalls t2))) as [-> _].
    destruct (quiet_updateAI deltaTime (sideWalls t2)) as [-> _].
    rewrite Hsw.
    destruct (emitParticles_free (position (ball hit))
                (THREE.Color_hex 0x3388ff) 20 0.1 hit slot ps) as [-> _].
    { destruct Qh as [_ ->]. destruct Q2 as [_ ->]. exact Hfree. }
    destruct Qh as [-> _]. destruct Q2 as [-> _]. now rewrite Hnone.
  - intros Hdue.
    destruct (sideWalls_hit s1 Hx) as (hit & Hsw & Qh & Hvh & Hzh).
    rewrite (Hcont s1 hit Hsw Hvh Hzh).
    destruct (quiet_updateScoreIndicators deltaTime
      (updateTrail (updateParticles deltaTime
         (spin (updateAI deltaTime (sideWalls s1)))))) as [-> _].
    destruct (quiet_updateTrail (updateParticles deltaTime
         (spin (updateAI deltaTime (sideWalls s1))))) as [-> _].
    destruct (emitParticles_free (position (ball hit))
                (THREE.Color_hex 0x3388ff) 20 0.1 hit slot ps)
      as (Hlive & ps' & Hslot & Hlife & Hmax).
    { destruct Qh as [_ ->]. destruct Q1 as [_ ->]. exact Hfree. }
    rewrite <- Hsw in Hlive, Hslot.
    apply (updateParticles_expires _ _ slot ps').
    + destruct (quiet_spin (updateAI deltaTime (sideWalls s1))) as [-> _].
      destruct (quiet_updateAI deltaTime (sideWalls s1)) as [-> _].
      rewrite Hlive. destruct Qh as [-> _]. destruct Q1 as [-> _].
      now rewrite Hnone.
    + destruct (quiet_spin (updateAI deltaTime (sideWalls s1))) as [_ ->].
      destruct (quiet_updateAI deltaTime (sideWalls s1)) as [_ ->].
      exact Hslot.
    + rewrite Hlife, Hmax. lra.
Qed.

(** ** The sample sessions *)

Lemma quiet_createMesh p this : quiet this (snd (createMesh p this)).
Proof.
  unfold quiet, createMesh, fresh, Scene.fresh, addObject.
  cbv beta iota zeta. cbn [snd]. now reads.
Qed.

Lemma quiet_createTable this : quiet this (createTable this).
Proof.
  unfold createTable.
  pose proof (quiet_createMesh (THREE.Vec3 0 tableHeight 0) this) as Hm.
  destruct (createMesh _ _) as [m t]. cbn [snd] in Hm.
  eapply quiet_trans; [exact Hm|]. unfold quiet. now reads.
Qed.

Lemma quiet_createBall this : quiet this (createBall this).
Proof.
  unfold createBall. cbv zeta.
  match goal with |- context [createMesh ?p ?t] =>
    pose proof (quiet_createMesh p t) as Hm;
    destruct (createMesh p t) as [m t'] end.
  cbn [snd] in Hm. destruct Hm as [Hm1 Hm2].
  unfold quiet. reads. rewrite Hm1, Hm2. now reads.
Qed.

Lemma quiet_createPaddles this : quiet this (createPaddles this).
Proof.
  unfold createPaddles.
  match goal with |- context [createMesh ?p this] =>
    pose proof (quiet_createMesh p this) as Hm;
    destruct (createMesh p this) as [m t] end.
  cbn [snd] in Hm. cbv zeta.
  match goal with |- context [createMesh ?p ?t'] =>
    pose proof (quiet_createMesh p t') as Hm';
    destruct (createMesh p t') as [m' t''] end.
  cbn [snd] in Hm'. destruct Hm as [Hm1 Hm2], Hm' as [Hm3 Hm4].
  unfold quiet. reads. rewrite Hm3, Hm4. reads. now rewrite Hm1, Hm2.
Qed.

Lemma quiet_createWalls this : quiet this (createWalls this).
Proof.
  unfold createWalls.
  match goal with |- context [createMesh ?p this] =>
    pose proof (quiet_createMesh p this) as Hm;
    destruct (createMesh p this) as [m t] end.
  cbn [snd] in Hm. cbv zeta.
  match goal with |- context [createMesh ?p ?t'] =>
    pose proof (quiet_createMesh p t') as Hm';
    destruct (createMesh p t') as [m' t''] end.
  cbn [snd] in Hm'. destruct Hm as [Hm1 Hm2], Hm' as [Hm3 Hm4].
  unfold quiet. reads. rewrite Hm3, Hm4. reads. now rewrite Hm1, Hm2.
Qed.

Lemma createParticleSystem_spec count this :
  idle (fst (createParticleSystem count this))
  /\ quiet this (snd (createParticleSystem count this)).
Proof.
  unfold createParticleSystem.
  pose proof (for_loop_ind
    (fun st : list R * list R * PongGame => quiet this (snd st))
    createParticleSystem_body) as Hloop.
  specialize (Hloop (fun i st Hst =>
    ltac:(destruct st as [[c s] t]; cbn [snd] in *;
          unfold createParticleSystem_body, Math_random; cbn [snd];
          eapply quiet_trans; [exact Hst|]; unfold quiet; now reads))).
  specialize (Hloop count
    (replicate (count * 3) 0, replicate count 0, this) (quiet_refl this)).
  destruct (for_loop _ _ _) as [[c s] t]. cbn [snd] in Hloop.
  unfold fresh, Scene.fresh. cbv beta iota. cbn [fst snd]. split.
  - unfold idle. reads. repeat split. lra.
  - eapply quiet_trans; [exact Hloop|]. unfold quiet. now reads.
Qed.

Lemma createParticlePool_body_idle i this :
  Forall idle (particlePool this) ->
  Forall idle (particlePool (createParticlePool_body i this))
  /\ particles (createParticlePool_body i this) = particles this.
Proof.
  intros Hpool. unfold createParticlePool_body.
  destruct (createParticleSystem_spec 30 this) as [Hps [Hq1 Hq2]].
  destruct (createParticleSystem 30 this) as [ps t]. cbn [fst snd] in *.
  cbv zeta. unfold addObject, with_ps. reads. split; [|exact Hq1].
  apply Forall_alter.
  - rewrite Hq2. apply Forall_app. split; [exact Hpool|]. now constructor.
  - intros ps' _ Hidle. exact Hidle.
Qed.

Lemma createParticlePool_idle this :
  Forall idle (particlePool this) ->
  Forall idle (particlePool (createParticlePool this))
  /\ particles (createParticlePool this) = particles this.
Proof.
  intros Hpool. unfold createParticlePool.
  apply (for_loop_ind (fun s =>
    Forall idle (particlePool s) /\ particles s = particles this)).
  - intros i s [Hs Hp].
    destruct (createParticlePool_body_idle i s Hs) as [H1 H2].
    split; [exact H1 | congruence].
  - now split.
Qed.

Lemma quiet_updateScoreDisplay this : quiet this (updateScoreDisplay this).
Proof.
  unfold quiet, updateScoreDisplay.
  repeat match goal with
  | |- context [match ?e with Some _ => _ | None => _ end] => destruct e
  end; now reads.
Qed.

Lemma quiet_resetBall_true this : quiet this (resetBall true this).
Proof. unfold quiet, resetBall, setTimeout. cbv zeta. now reads. Qed.

Lemma initialize_pool (this : PongGame) :
  Forall idle (particlePool this) ->
  Forall idle (particlePool (initialize this))
  /\ length (particlePool (initialize this))
     = (length (particlePool this) + 10)%nat
  /\ particles (initialize this) = particles this.
Proof.
  intros Hpool.
  pose proof (quiet_trans _ _ _
    (quiet_trans _ _ _
      (quiet_trans _ _ _ (quiet_createTable this)
         (quiet_createBall _)) (quiet_createPaddles _))
    (quiet_createWalls _)) as [Hq1 Hq2].
  revert Hq1 Hq2. unfold initialize. cbv zeta.
  generalize (createWalls (createPaddles (createBall (createTable this)))).
  intros t Hq1 Hq2.
  rewrite <- Hq2 in Hpool. rewrite <- Hq1, <- Hq2.
  destruct (createParticlePool_idle t Hpool) as [Hidle Hlive].
  pose proof (createParticlePool_length t) as Hlen.
  revert Hidle Hlive Hlen. generalize (createParticlePool t).
  intros t' Hidle Hlive Hlen.
  unfold bind_update, fresh, Scene.fresh. cbv beta iota.
  repeat match goal with
  | |- context [updateScoreDisplay ?s] =>
      destruct (quiet_updateScoreDisplay s) as [-> ->]
  | |- context [resetBall true ?s] =>
      destruct (quiet_resetBall_true s) as [-> ->]
  | _ => progress reads
  end.
  reads. now repeat split.
Qed.

Lemma newGame_spec :
  position (ball newGame) = tableCenter
  /\ position (playerPaddle newGame)
     = THREE.Vec3 0 (tableHeight + paddleHeight / 2) (tableDepth / 2 - 0.05)
  /\ position (aiPaddle newGame)
     = THREE.Vec3 0 (tableHeight + paddleHeight / 2)
         (- tableDepth / 2 + 0.05)
  /\ isPlaying newGame = true
  /\ playerScore newGame = 0%nat
  /\ aiScore newGame = 0%nat
  /\ ballVelocity newGame = THREE.Vec3 0 0 0
  /\ ballSpeed newGame = 0.5
  /\ gameLevel newGame = 1%nat
  /\ rng newGame = (fun _ => 0.5).
Proof. apply (initialize_spec (constructor (emptyScene false) page)). Qed.

Lemma newGame_pool :
  particles newGame = []
  /\ length (particlePool newGame) = 10%nat
  /\ exists ps, list_find (fun ps => active ps = false) (particlePool newGame)
                = Some (0%nat, ps)
                /\ maxLifetime ps = 1.
Proof.
  destruct (initialize_pool (constructor (emptyScene false) page))
    as (Hidle & Hlen & Hlive); [apply Forall_nil; exact I|].
  change (particlePool (constructor (emptyScene false) page))
    with (@nil ParticleSystem) in Hlen.
  change (particles (constructor (emptyScene false) page))
    with (@nil nat) in Hlive.
  unfold newGame. revert Hidle Hlen Hlive.
  generalize (initialize (constructor (emptyScene false) page)).
  intros g Hidle Hlen Hlive.
  split; [exact Hlive|]. split; [exact Hlen|].
  destruct (particlePool g) as [|ps pool]; [discriminate|].
  apply Forall_cons in Hidle as [(Hact & _ & Hmax) _].
  exists ps. split; [|exact Hmax].
  apply list_find_Some. split; [reflexivity|]. split; [exact Hact|].
  intros j y _ Hj. lia.
Qed.

(** Read the fields of a sample session. *)
Ltac sample_fields :=
  reads;
  repeat match goal with H : _ = _ |- _ => rewrite H end;
  unfold tableCenter; reads; cbv beta.

Ltac sample :=
  unfold rally, volley, passed, matchPoint, crowded;
  generalize newGame_pool; generalize newGame_spec; generalize newGame;
  intros g (Hball & Hplayer & Hai & Hplaying & Hps & Has & Hv & Hs
            & Hlevel & Hrng) (Hlive & Hlen & ps & Hfind & Hmax);
  sample_fields.

Lemma volley_hits : hitsPlayerPaddle volley = true.
Proof.
  unfold hitsPlayerPaddle, crossesPlayerPaddle, withinPaddle. cbv zeta.
  sample. consts.
  repeat match goal with
  | |- context [?a <? ?b] =>
      replace (a <? b) with true by (symmetry; apply Rltb_true; lra)
  | |- context [?a <=? ?b] =>
      replace (a <=? b) with true by (symmetry; apply Rleb_true; lra)
  end.
  reflexivity.
Qed.

(** At [volley] the player's paddle is hit: the ball leaves with speed
    [ballSpeed], flush against the paddle face. *)
Lemma paddle_collision_response_witness :
  0 <= ballSpeed volley
  /\ hitsPlayerPaddle volley = true
  /\ THREE.length (ballVelocity (playerPaddleCollision volley))
     = ballSpeed volley
  /\ THREE.z (position (ball (playerPaddleCollision volley)))
     = THREE.z (position (playerPaddle volley)) - paddleDepth / 2
       - ballRadius
  /\ THREE.length (ballVelocity (checkPaddleCollisions volley))
     = ballSpeed volley.
Proof.
  assert (Hspeed : 0 <= ballSpeed volley) by (sample; lra).
  destruct (paddle_collision_response volley Hspeed) as (Hp & _ & Hc).
  destruct (Hp volley_hits) as (_ & Hlen & Hz).
  exact (conj Hspeed (conj volley_hits (conj Hlen (conj Hz
           (Hc (or_introl volley_hits)))))).
Defined.

(** In the frame of one second at [rally] the ball ends between the walls
    and between floor and ceiling. *)
Lemma update_contains_ball_witness :
  isPlaying rally = true
  /\ ballWithinWalls (update 1 rally) /\ ballWithinHeight (update 1 rally).
Proof.
  assert (Hp : isPlaying rally = true) by (sample; reflexivity).
  split; [exact Hp | exact (update_contains_ball 1 rally Hp)].
Defined.

(** At [passed] the AI scores one point and the ball is back at the
    centre. *)
Lemma checkScoring_one_point_witness :
  tableDepth / 2 + ballRadius < THREE.z (position (ball passed))
  /\ aiScore (checkScoring passed) = S (aiScore passed)
  /\ playerScore (checkScoring passed) = playerScore passed
  /\ position (ball (checkScoring passed)) = tableCenter.
Proof.
  assert (Hz : tableDepth / 2 + ballRadius
               < THREE.z (position (ball passed))) by (sample; consts; lra).
  destruct (checkScoring_one_point passed (or_introl Hz)) as (Hai & _ & Hc).
  destruct (Hai Hz) as [H1 H2].
  exact (conj Hz (conj H1 (conj H2 Hc))).
Defined.

Lemma crowded_pool :
  length (particlePool crowded) = 10%nat
  /\ Forall (fun ps => active ps = true) (particlePool crowded).
Proof.
  unfold crowded. reads. split.
  - rewrite length_fmap. apply newGame_pool.
  - apply Forall_fmap, Forall_true. intros ps. reflexivity.
Qed.

(** At [crowded], where all ten slots are active, an emission changes
    nothing. *)
Lemma emitParticles_pool_exhausted_witness :
  Forall (fun ps => active ps = true) (particlePool crowded)
  /\ emitParticles (THREE.Vec3 0 0 0) (THREE.Color_hex 0x3388ff) 20 0.1
       crowded = crowded.
Proof.
  split; [apply crowded_pool|].
  apply emitParticles_pool_exhausted, crowded_pool.
Defined.

(** The first serve of [newGame]. *)
Lemma launchBall_z_floor_witness :
  ballSpeed newGame <= 1
  /\ 0.3 * ballSpeed newGame
     <= Rabs (THREE.z (ballVelocity (launchBall newGame))).
Proof.
  assert (Hs : ballSpeed newGame <= 1) by (sample; lra).
  split; [exact Hs | exact (launchBall_z_floor newGame Hs)].
Defined.

Lemma newGame_drawnZ : drawnZ newGame = 0.
Proof.
  unfold drawnZ, horizontalAngle. sample.
  replace (0.5 * PI * 2) with PI by lra. rewrite sin_PI. lra.
Qed.

(** The first serve of [newGame] draws a z-component of zero and leaves
    faster than [ballSpeed]. *)
Lemma launchBall_exceeds_ballSpeed_witness :
  Rabs (drawnZ newGame) < 0.3
  /\ ballSpeed newGame < THREE.length (ballVelocity (launchBall newGame)).
Proof.
  assert (Hz : Rabs (drawnZ newGame) < 0.3)
    by (rewrite newGame_drawnZ, Rabs_R0; lra).
  split; [exact Hz | exact (launchBall_exceeds_ballSpeed newGame Hz)].
Defined.

(** ** Disposal *)

(** C5.  [dispose] does not deregister the update callback.  On a scene
    whose callbacks all have identities the scene handed out, [initialize]
    registers one new callback, the function [this.update.bind(this)]
    allocated at that point; [dispose] binds [update] anew, looks for that
    new function, finds nothing, and leaves the list as it was: the
    registered callback is still in it. *)
Theorem dispose_keeps_update_callback (scene : ARScene) (host : Host) :
  callbacksAllocated scene ->
  onUpdateCallbacks (arScene (initialize (constructor scene host)))
  = onUpdateCallbacks scene ++ [(nextId scene + 16)%nat]
  /\ onUpdateCallbacks
       (arScene (dispose (initialize (constructor scene host))))
     = onUpdateCallbacks scene ++ [(nextId scene + 16)%nat].
Proof.
  intros Hscene.
  destruct (initialize_allocated (constructor scene host)) as [Hc _].
  split; [exact Hc|].
  rewrite dispose_callbacks; [exact Hc|].
  apply initialize_callbacksAllocated. exact Hscene.
Qed.

(** On an empty scene the callback registered by [initialize] has identity
    16 and is the one callback of the scene, before [dispose] and after. *)
Lemma dispose_keeps_update_callback_witness :
  callbacksAllocated (emptyScene false)
  /\ onUpdateCallbacks
       (arScene (initialize (constructor (emptyScene false) page)))
     = onUpdateCallbacks (emptyScene false)
       ++ [(nextId (emptyScene false) + 16)%nat]
  /\ onUpdateCallbacks
       (arScene (dispose (initialize (constructor (emptyScene false) page))))
     = onUpdateCallbacks (emptyScene false)
       ++ [(nextId (emptyScene false) + 16)%nat].
Proof.
  assert (Hscene : callbacksAllocated (emptyScene false))
    by (apply Forall_nil; exact I).
  exact (conj Hscene
           (dispose_keeps_update_callback (emptyScene false) page Hscene)).
Defined.

(** ** The order of the frame update, settled *)

Lemma rally_frame :
  particles (update 1 rally) = [0%nat]
  /\ particles (update_effects_last 1 rally) = [].
Proof.
  sample.
  match goal with |- particles (update 1 ?r) = _ /\ _ =>
    destruct (update_orders_differ 1 r 0%nat ps) as [Hreal Hspec];
      [..| split; [exact Hreal | apply Hspec; lra]];
    try destruct (integrate_spec 1 r) as (_ & Hpos & _)
  end.
  - sample_fields. reflexivity.
  - unfold ballWithinHeight. rewrite Hpos. sample_fields. consts. lra.
  - rewrite Hpos. sample_fields. consts. rewrite Rabs_pos_eq; lra.
  - sample_fields. reflexivity.
  - sample_fields. consts. lra.
  - reads. exact Hlive.
  - reads. exact Hfind.
Qed.

(** C6, refuted as stated: at [rally], a frame of one second in which the
    ball hits the right wall, [update] differs from the update that
    advances the effects last.  The burst of the hit is live at the end of
    [update]; advancing the particles after the collisions would have
    expired it. *)
Lemma update_not_effects_last :
  update 1 rally <> update_effects_last 1 rally.
Proof.
  intros Heq. destruct rally_frame as [Hreal Hspec].
  rewrite Heq, Hspec in Hreal. discriminate Hreal.
Qed.

(** C6, as the code has it.  While the game is playing, [update] integrates
    the ball, handles floor and ceiling, advances the trail and the
    particles, and only then handles the side walls, the paddles, the
    scoring and the AI, spins the ball, and advances the score indicators
    last; a game that is not playing is left alone.  So a burst emitted by
    a side wall in a frame in which nothing else happens is live at the end
    of that frame, whatever [deltaTime] is, while an update advancing the
    particles last would have aged it, and expired it when [deltaTime]
    reaches its lifetime. *)
Theorem update_order (deltaTime : R) (this : PongGame) :
  update deltaTime this
  = (if isPlaying this then
       updateScoreIndicators deltaTime (spin (updateAI deltaTime
         (checkScoring (checkPaddleCollisions (sideWalls
           (updateParticles deltaTime (updateTrail
             (floorCeiling (integrate deltaTime this)))))))))
     else this)
  /\ forall slot ps,
       isPlaying this = true ->
       ballWithinHeight (integrate deltaTime this) ->
       tableWidth / 2 - ballRadius
         < Rabs (THREE.x (position (ball (integrate deltaTime this)))) ->
       THREE.z (ballVelocity this) = 0 ->
       - tableDepth / 2 - ballRadius <= THREE.z (position (ball this))
         <= tableDepth / 2 + ballRadius ->
       particles this = [] ->
       list_find (fun ps => active ps = false) (particlePool this)
         = Some (slot, ps) ->
       particles (update deltaTime this) = [slot]
       /\ (maxLifetime ps <= deltaTime ->
           particles (update_effects_last deltaTime this) = []).
Proof.
  split.
  - unfold update. now destruct (isPlaying this).
  - intros slot ps. apply update_orders_differ.
Qed.

(** ** The AI's paddle, settled *)

Lemma updateAI_waiting (deltaTime : R) (this : PongGame) :
  0 <= THREE.z (ballVelocity this) ->
  position (aiPaddle (updateAI deltaTime this))
  = THREE.Vec3
      (Math_max (- (tableWidth / 2 - paddleWidth / 2))
         (Math_min (tableWidth / 2 - paddleWidth / 2)
            (THREE.x (position (aiPaddle this)))))
      (Math_max (tableHeight + paddleHeight / 2)
         (Math_min (tableHeight + paddleVerticalRange)
            (THREE.y (position (aiPaddle this)))))
      (Math_max (- tableDepth / 2 - paddleDepthRange)
         (Math_min (- tableDepth / 2 + 0.05)
            (THREE.z (position (aiPaddle this))))).
Proof.
  intros Hv.
  runs updateAI (updateAI deltaTime this); unwind; tests;
    try (exfalso; lra).
  destruct (position (aiPaddle this)). reflexivity.
Qed.


(** ** The speed of a session *)

Lemma aiPaddleCollision_ballSpeed (this : PongGame) :
  ballSpeed (aiPaddleCollision this) = ballSpeed this.
Proof.
  destruct (hitsAiPaddle this) eqn:E.
  - now apply aiPaddleCollision_hit.
  - now rewrite aiPaddleCollision_miss.
Qed.

Lemma checkScoring_ballSpeed (this : PongGame) :
  ballSpeed (checkScoring this) = ballSpeed this.
Proof.
  runs checkScoring (checkScoring this); unwind; reflexivity.
Qed.

Lemma update_ballSpeed (deltaTime : R) (this : PongGame) :
  ballSpeed (update deltaTime this) = ballSpeed this.
Proof.
  destruct (isPlaying this) eqn:Hp.
  - rewrite update_blocks by assumption. unwind. rewrite spin_ballSpeed.
    destruct (updateAI_spec deltaTime (checkScoring (checkPaddleCollisions
      (sideWalls (updateParticles deltaTime (updateTrail
        (floorCeiling (integrate deltaTime this))))))))
      as (_ & _ & _ & -> & _).
    rewrite checkScoring_ballSpeed. unfold checkPaddleCollisions.
    rewrite aiPaddleCollision_ballSpeed, playerPaddleCollision_ballSpeed.
    rewrite sideWalls_ballSpeed. unwind.
    rewrite floorCeiling_ballSpeed. apply integrate_ballSpeed.
  - unfold update. now rewrite Hp.
Qed.

Lemma runTimeout_ballSpeed (callback : Timeout) (this : PongGame) :
  0.5 <= ballSpeed this <= 0.8 ->
  0.5 <= ballSpeed (runTimeout callback this) <= 0.8.
Proof.
  intros Hs. destruct callback.
  - cbn [runTimeout]. now rewrite launchBall_ballSpeed.
  - exact Hs.
  - run runTimeout (runTimeout Celebrate this). unwind. exact Hs.
  - destruct (roundReset_spec this) as (_ & _ & _ & -> & _).
    pose proof (pos_INR (S (gameLevel this))) as Hl.
    unfold Math_min, Rmin. destruct (Rle_dec _ _); lra.
Qed.

Lemma updatePointerPosition_ballSpeed event this :
  ballSpeed (updatePointerPosition event this) = ballSpeed this.
Proof.
  runs updatePointerPosition (updatePointerPosition event this);
    try destruct (intersectionPoint event); exec; unwind; reflexivity.
Qed.

Lemma effects_fold_removeObject {A : Type} (f : A -> nat) (l : list A)
    this :
  effects this (fold_left (fun this x => removeObject (f x) this) l this).
Proof.
  revert this. induction l as [|x l IHl]; intros this; cbn [fold_left].
  - apply effects_refl.
  - eapply effects_trans; [apply effects_removeObject | apply IHl].
Qed.

Ltac affect lem :=
  match goal with
  | H : ?t = ?rhs, A : effects ?a ?s |- _ =>
      lazymatch rhs with context [s] => idtac end;
      let A' := fresh "A" in
      assert (A' : effects s rhs) by apply lem;
      apply (effects_trans _ _ _ A) in A';
      rewrite <- H in A'; clear H A
  end.

Lemma dispose_ballSpeed (this : PongGame) :
  ballSpeed (dispose this) = ballSpeed this.
Proof.
  run dispose (dispose this).
  pose proof (effects_refl this) as A.
  do 4 affect effects_removeObject.
  affect (effects_fold_removeObject (fun wall : nat => wall)).
  affect (effects_fold_removeObject ps_id).
  affect (effects_fold_removeObject sprite_id).
  match goal with H : ?t = match audioContext ?s with _ => _ end |- _ =>
    assert (A' : effects s t)
      by (rewrite H; destruct (audioContext s) as [ctx|];
          [destruct (closed ctx)|];
          first [apply effects_refl | apply effects_set_audioContext]);
    clear H end.
  match goal with H : bind_update _ = (_, _) |- _ =>
    unfold bind_update, fresh, Scene.fresh in H; cbv beta iota in H;
    injection H as <- <- end.
  unwind.
  match goal with A : effects this ?s |- _ =>
    keep A' ; keep A end.
  reflexivity.
Qed.

(** Throughout a session [ballSpeed] stays between 0.5 and 0.8. *)
Lemma reachable_ballSpeed (this : PongGame) :
  reachable this -> 0.5 <= ballSpeed this <= 0.8.
Proof.
  induction 1 as [scene host|deltaTime this _ IH|callback this _ IH
                 |event this _ IH|event this _ IH|this _ IH|this _ IH].
  - destruct (initialize_spec (constructor scene host))
      as (_ & _ & _ & _ & _ & _ & _ & -> & _).
    cbn [ballSpeed constructor]. lra.
  - now rewrite update_ballSpeed.
  - now apply runTimeout_ballSpeed.
  - unfold onPointerDown. now rewrite updatePointerPosition_ballSpeed.
  - unfold onPointerMove. destruct (pointerDown this);
      [now rewrite updatePointerPosition_ballSpeed | exact IH].
  - exact IH.
  - now rewrite dispose_ballSpeed.
Qed.

(** ** The AI's paddle in a session *)

(** [b] has the AI's paddle, the level and the random stream of [a]. *)
Lemma integrate_aiPaddle deltaTime this :
  aiPaddle (integrate deltaTime this) = aiPaddle this
  /\ rng (integrate deltaTime this) = rng this.
Proof. run integrate (integrate deltaTime this). unwind. now split. Qed.

Lemma floorCeiling_aiPaddle this :
  aiPaddle (floorCeiling this) = aiPaddle this
  /\ rng (floorCeiling this) = rng this.
Proof. runs floorCeiling (floorCeiling this); unwind; now split. Qed.

Lemma sideWalls_aiPaddle this :
  aiPaddle (sideWalls this) = aiPaddle this
  /\ rng (sideWalls this) = rng this.
Proof. runs sideWalls (sideWalls this); unwind; now split. Qed.

Lemma playerPaddleCollision_aiPaddle this :
  aiPaddle (playerPaddleCollision this) = aiPaddle this
  /\ rng (playerPaddleCollision this) = rng this.
Proof.
  runs playerPaddleCollision (playerPaddleCollision this); unwind;
    rewrite ?bounce_aiPaddle; unfold bounce; cbv zeta; reads; now split.
Qed.

Lemma aiPaddleCollision_aiPaddle this :
  aiPaddle (aiPaddleCollision this) = aiPaddle this
  /\ rng (aiPaddleCollision this) = rng this.
Proof.
  runs aiPaddleCollision (aiPaddleCollision this); unwind;
    rewrite ?bounce_aiPaddle; unfold bounce; cbv zeta; reads; now split.
Qed.

Lemma checkScoring_aiPaddle this :
  aiPaddle (checkScoring this) = aiPaddle this
  /\ rng (checkScoring this) = rng this.
Proof. runs checkScoring (checkScoring this); unwind; now split. Qed.

Lemma aiSpeed_bounds (level : nat) :
  0.2 <= aiPaddleMovementSpeed * Math_min (0.4 + INR level * 0.05) 0.9
      <= 0.45.
Proof.
  pose proof (pos_INR level) as Hl.
  unfold aiPaddleMovementSpeed, Math_min, Rmin.
  destruct (Rle_dec _ _); lra.
Qed.

Lemma updateAI_z_session (deltaTime : R) (this : PongGame) :
  (forall n, 0 <= rng this n <= 1) ->
  - tableDepth / 2 <= THREE.z (position (aiPaddle this))
    <= - tableDepth / 2 + 0.05 ->
  - tableDepth / 2 <= THREE.z (position (aiPaddle (updateAI deltaTime this)))
    <= - tableDepth / 2 + 0.05.
Proof.
  intros Hr Hz. pose proof (aiSpeed_bounds (gameLevel this)) as Ha.
  revert Ha.
  runs updateAI (updateAI deltaTime this);
    repeat match goal with E : (_ <? _) = _ |- _ => clear E end;
    unwind; intros Ha.
  all: try pose proof (Hr (S (S (S (rngNext this))))) as Hu;
    revert Ha Hz; try revert Hu;
    generalize (aiPaddleMovementSpeed
                * Math_min (0.4 + INR (gameLevel this) * 0.05) 0.9);
    generalize (THREE.z (position (aiPaddle this)));
    try generalize (rng this (S (S (S (rngNext this)))));
    intros; unfold Math_max, Math_min, Rmax, Rmin; consts;
    repeat destruct (Rle_dec _ _); nra.
Qed.

(** ** Sounds, timers, sprites and the trail *)

Lemma staged_refl (a : PongGame) : staged a a.
Proof. destruct a. unfold staged. do 6 eexists. fields. reflexivity. Qed.

Lemma staged_trans (a b c : PongGame) :
  staged a b -> staged b c -> staged a c.
Proof.
  intros (? & ? & ? & ? & ? & ? & ->) (? & ? & ? & ? & ? & ? & ->).
  destruct a. unfold staged. do 6 eexists. fields. reflexivity.
Qed.

Ltac staged_setter :=
  let a := fresh "a" in
  intros a; destruct a; unfold staged; do 6 eexists; fields; reflexivity.

Lemma staged_set_arScene v : forall a, staged a (set_arScene v a).
Proof. staged_setter. Qed.
Lemma staged_set_scoreIndicators v :
  forall a, staged a (set_scoreIndicators v a).
Proof. staged_setter. Qed.
Lemma staged_set_audioContext v : forall a, staged a (set_audioContext v a).
Proof. staged_setter. Qed.
Lemma staged_set_timeouts v : forall a, staged a (set_timeouts v a).
Proof. staged_setter. Qed.
Lemma staged_set_trailUpdateCounter v :
  forall a, staged a (set_trailUpdateCounter v a).
Proof. staged_setter. Qed.
Lemma staged_set_trail v : forall a, staged a (set_trail v a).
Proof. staged_setter. Qed.

Ltac then_staged H := eapply staged_trans; [|apply H].

Lemma staged_playSound type this : staged this (playSound type this).
Proof.
  unfold playSound. destruct (audioContext this);
    [apply staged_set_audioContext | apply staged_refl].
Qed.

Lemma staged_setTimeout callback delay this :
  staged this (setTimeout callback delay this).
Proof. apply staged_set_timeouts. Qed.

Lemma staged_flashPaddle p this : staged this (flashPaddle p this).
Proof. apply staged_setTimeout. Qed.

Lemma staged_addObject o this : staged this (addObject o this).
Proof. apply staged_set_arScene. Qed.

Lemma staged_removeObject o this : staged this (removeObject o this).
Proof. apply staged_set_arScene. Qed.

Lemma staged_fresh this : staged this (snd (fresh this)).
Proof. apply staged_set_arScene. Qed.

Lemma staged_createScoreIndicator position isPlayer this :
  staged this (createScoreIndicator position isPlayer this).
Proof.
  unfold createScoreIndicator. cbn.
  then_staged staged_set_scoreIndicators. then_staged staged_addObject.
  apply staged_set_arScene.
Qed.

Lemma staged_updateTrail this : staged this (updateTrail this).
Proof.
  unfold updateTrail. cbv zeta. destruct (negb _).
  - apply staged_set_trailUpdateCounter.
  - then_staged staged_set_trail. apply staged_set_trailUpdateCounter.
Qed.

Lemma staged_updateScoreIndicators_loop deltaTime l :
  forall this,
    staged this (snd (updateScoreIndicators_loop deltaTime l this)).
Proof.
  induction l as [|indicator rest IH]; intros this; simpl.
  - apply staged_refl.
  - destruct (_ >=? _).
    + eapply staged_trans; [|apply IH]. apply staged_removeObject.
    + destruct (updateScoreIndicators_loop _ _ _) as [kept this'] eqn:E.
      simpl. change this' with (snd (kept, this')). rewrite <- E. apply IH.
Qed.

Lemma staged_updateScoreIndicators deltaTime this :
  staged this (updateScoreIndicators deltaTime this).
Proof.
  unfold updateScoreIndicators.
  pose proof
    (staged_updateScoreIndicators_loop deltaTime (scoreIndicators this) this)
    as H.
  destruct (updateScoreIndicators_loop _ _ _) as [kept this'].
  then_staged staged_set_scoreIndicators. exact H.
Qed.

Lemma staged_checkGameEnd this : staged this (checkGameEnd this).
Proof.
  unfold checkGameEnd. destruct (_ || _); [|apply staged_refl].
  then_staged staged_setTimeout.
  apply (for_loop_ind (fun s => staged this s)).
  - intros i s Hs. now then_staged staged_setTimeout.
  - apply staged_playSound.
Qed.

Lemma staged_fold_removeObject {A : Type} (f : A -> nat) (l : list A) this :
  staged this (fold_left (fun this x => removeObject (f x) this) l this).
Proof.
  revert this. induction l as [|x l IHl]; intros this; cbn [fold_left].
  - apply staged_refl.
  - eapply staged_trans; [apply staged_removeObject | apply IHl].
Qed.

(** What sounds, timers, sprites and the trail leave alone besides the
    fields [effects] keeps. *)
Lemma staged_keeps (a b : PongGame) :
  staged a b ->
  particles b = particles a /\ particlePool b = particlePool a
  /\ playerScoreElement b = playerScoreElement a
  /\ aiScoreElement b = aiScoreElement a
  /\ rngNext b = rngNext a
  /\ pointerDown b = pointerDown a.
Proof. intros (? & ? & ? & ? & ? & ? & ->). repeat split. Qed.

(** What an emission and the ageing of the particles leave alone besides
    the fields [effects] keeps. *)
Lemma emitted_keeps (a b : PongGame) :
  emitted a b ->
  playerScoreElement b = playerScoreElement a
  /\ aiScoreElement b = aiScoreElement a
  /\ timeouts b = timeouts a
  /\ arScene b = arScene a
  /\ scoreIndicators b = scoreIndicators a
  /\ audioContext b = audioContext a
  /\ pointerDown b = pointerDown a.
Proof. intros (? & ? & ? & ->). repeat split. Qed.

Lemma updateParticles_loop_emitted deltaTime refs :
  forall this,
    emitted this (snd (updateParticles_loop deltaTime refs this)).
Proof.
  induction refs as [|slot rest IH]; intros this; simpl.
  - apply emitted_refl.
  - assert (Hstep : forall f t, emitted this t ->
      emitted this (snd (updateParticles_loop deltaTime rest
                           (with_ps slot f t)))).
    { intros f t Ht.
      destruct (IH (with_ps slot f t)) as (pool & live & k & ->).
      destruct (emitted_with_ps this t slot f Ht) as (pool' & live' & k' & ->).
      exists pool, live, k. now destruct this. }
    destruct (_ !! slot) as [ps|].
    + destruct (_ >=? _).
      * apply Hstep, emitted_with_ps, emitted_with_ps, emitted_refl.
      * destruct (updateParticles_loop _ _ _) as [kept this'] eqn:E.
        simpl. change this' with (snd (kept, this')). rewrite <- E.
        apply Hstep, emitted_with_ps, emitted_refl.
    + apply Hstep, emitted_refl.
Qed.

Lemma updateParticles_emitted deltaTime this :
  emitted this (updateParticles deltaTime this).
Proof.
  unfold updateParticles.
  pose proof (updateParticles_loop_emitted deltaTime (particles this) this)
    as H.
  destruct (updateParticles_loop _ _ _) as [kept this']. cbn [snd] in H.
  destruct H as (pool & live & k & ->).
  exists pool, kept, k. now destruct this.
Qed.

Ltac keep_staged H :=
  let K := fresh "K" in
  pose proof (staged_keeps _ _ H) as K;
  let K1 := fresh in let K2 := fresh in let K3 := fresh in
  let K4 := fresh in let K5 := fresh in let K6 := fresh in
  destruct K as (K1 & K2 & K3 & K4 & K5 & K6);
  progress (rewrite ?K1, ?K2, ?K3, ?K4, ?K5, ?K6);
  clear K1 K2 K3 K4 K5 K6.

Ltac keep_emitted H :=
  let K := fresh "K" in
  pose proof (emitted_keeps _ _ H) as K;
  let K1 := fresh in let K2 := fresh in let K3 := fresh in
  let K4 := fresh in let K5 := fresh in let K6 := fresh in
  let K7 := fresh in
  destruct K as (K1 & K2 & K3 & K4 & K5 & K6 & K7);
  progress (rewrite ?K1, ?K2, ?K3, ?K4, ?K5, ?K6, ?K7);
  clear K1 K2 K3 K4 K5 K6 K7.

Ltac drop_effect ::=
  match goal with
  | |- context [emitParticles ?p ?c ?n ?s ?t] =>
      first [ keep (effects_emitParticles p c n s t)
            | keep_emitted (emitParticles_emitted p c n s t)
            | progress rewrite (emitParticles_pool_length p c n s t) ]
  | |- context [playSound ?ty ?t] =>
      first [ keep (effects_playSound ty t)
            | keep_staged (staged_playSound ty t) ]
  | |- context [updateScoreDisplay ?t] =>
      keep (effects_updateScoreDisplay t)
  | |- context [createScoreIndicator ?p ?b ?t] =>
      first [ keep (effects_createScoreIndicator p b t)
            | keep_staged (staged_createScoreIndicator p b t) ]
  | |- context [updateTrail ?t] =>
      first [ keep (effects_updateTrail t)
            | keep_staged (staged_updateTrail t) ]
  | |- context [updateParticles ?d ?t] =>
      first [ keep (effects_updateParticles d t)
            | keep_emitted (updateParticles_emitted d t) ]
  | |- context [updateScoreIndicators ?d ?t] =>
      first [ keep (effects_updateScoreIndicators d t)
            | keep_staged (staged_updateScoreIndicators d t) ]
  | |- context [setTimeout ?c ?d ?t] =>
      first [ keep (effects_setTimeout c d t)
            | keep_staged (staged_setTimeout c d t) ]
  | |- context [flashPaddle ?p ?t] =>
      first [ keep (effects_flashPaddle p t)
            | keep_staged (staged_flashPaddle p t) ]
  | |- context [checkGameEnd ?t] =>
      first [ keep (checkGameEnd_effects t)
            | keep_staged (staged_checkGameEnd t) ]
  | |- context [createParticlePool ?t] =>
      keep (createParticlePool_effects t)
  | |- context [addObject ?o ?t] =>
      first [ keep (effects_addObject o t)
            | keep_staged (staged_addObject o t) ]
  | |- context [removeObject ?o ?t] =>
      first [ keep (effects_removeObject o t)
            | keep_staged (staged_removeObject o t) ]
  end.

(** ** What a frame leaves alone *)

Lemma updateParticles_loop_pool_length deltaTime refs :
  forall this,
    length (particlePool (snd (updateParticles_loop deltaTime refs this)))
    = length (particlePool this).
Proof.
  induction refs as [|slot rest IH]; intros this; simpl; [reflexivity|].
  destruct (_ !! slot) as [ps|].
  - destruct (_ >=? _).
    + rewrite IH. now rewrite !with_ps_pool_length.
    + destruct (updateParticles_loop _ _ _) as [kept this'] eqn:E.
      simpl. change this' with (snd (kept, this')). rewrite <- E.
      rewrite IH. now rewrite !with_ps_pool_length.
  - rewrite IH. now rewrite !with_ps_pool_length.
Qed.

Lemma updateParticles_pool_length deltaTime this :
  length (particlePool (updateParticles deltaTime this))
  = length (particlePool this).
Proof.
  unfold updateParticles.
  pose proof (updateParticles_loop_pool_length deltaTime (particles this)
                this) as H.
  destruct (updateParticles_loop _ _ _) as [kept this']. exact H.
Qed.

Ltac drop_effect ::=
  match goal with
  | |- context [emitParticles ?p ?c ?n ?s ?t] =>
      first [ keep (effects_emitParticles p c n s t)
            | keep_emitted (emitParticles_emitted p c n s t)
            | progress rewrite (emitParticles_pool_length p c n s t) ]
  | |- context [playSound ?ty ?t] =>
      first [ keep (effects_playSound ty t)
            | keep_staged (staged_playSound ty t) ]
  | |- context [updateScoreDisplay ?t] =>
      keep (effects_updateScoreDisplay t)
  | |- context [createScoreIndicator ?p ?b ?t] =>
      first [ keep (effects_createScoreIndicator p b t)
            | keep_staged (staged_createScoreIndicator p b t) ]
  | |- context [updateTrail ?t] =>
      first [ keep (effects_updateTrail t)
            | keep_staged (staged_updateTrail t) ]
  | |- context [updateParticles ?d ?t] =>
      first [ keep (effects_updateParticles d t)
            | keep_emitted (updateParticles_emitted d t)
            | progress rewrite (updateParticles_pool_length d t) ]
  | |- context [updateScoreIndicators ?d ?t] =>
      first [ keep (effects_updateScoreIndicators d t)
            | keep_staged (staged_updateScoreIndicators d t) ]
  | |- context [setTimeout ?c ?d ?t] =>
      first [ keep (effects_setTimeout c d t)
            | keep_staged (staged_setTimeout c d t) ]
  | |- context [flashPaddle ?p ?t] =>
      first [ keep (effects_flashPaddle p t)
            | keep_staged (staged_flashPaddle p t) ]
  | |- context [checkGameEnd ?t] =>
      first [ keep (checkGameEnd_effects t)
            | keep_staged (staged_checkGameEnd t) ]
  | |- context [createParticlePool ?t] =>
      keep (createParticlePool_effects t)
  | |- context [addObject ?o ?t] =>
      first [ keep (effects_addObject o t)
            | keep_staged (staged_addObject o t) ]
  | |- context [removeObject ?o ?t] =>
      first [ keep (effects_removeObject o t)
            | keep_staged (staged_removeObject o t) ]
  end.

Lemma steady_refl this : steady this this.
Proof. repeat split. Qed.

Lemma steady_trans a b c : steady a b -> steady b c -> steady a c.
Proof.
  intros (H1 & H2 & H3 & H4 & H5 & H6) (K1 & K2 & K3 & K4 & K5 & K6).
  repeat split; congruence.
Qed.

Lemma steady_staged a b : staged a b -> steady a b.
Proof. intros (? & ? & ? & ? & ? & ? & ->). repeat split. Qed.

Lemma steady_emitParticles position color count speed this :
  steady this (emitParticles position color count speed this).
Proof.
  unfold steady. rewrite emitParticles_pool_length.
  keep (effects_emitParticles position color count speed this).
  repeat split.
Qed.

Lemma steady_updateParticles deltaTime this :
  steady this (updateParticles deltaTime this).
Proof.
  unfold steady. rewrite updateParticles_pool_length.
  keep (effects_updateParticles deltaTime this). repeat split.
Qed.

Lemma steady_updateScoreDisplay this : steady this (updateScoreDisplay this).
Proof.
  unfold steady, updateScoreDisplay.
  destruct (playerScoreElement this), (aiScoreElement this);
    cbv zeta; reads; repeat split.
Qed.

Lemma steady_random this : steady this (snd (Math_random this)).
Proof. unfold steady, Math_random. cbn [snd]. reads. repeat split. Qed.

Create HintDb steady.

#[export] Hint Resolve steady_refl steady_emitParticles
  steady_updateParticles steady_updateScoreDisplay : steady.

#[export] Hint Extern 1 (steady _ (playSound _ _)) =>
  apply steady_staged, staged_playSound : steady.
#[export] Hint Extern 1 (steady _ (setTimeout _ _ _)) =>
  apply steady_staged, staged_setTimeout : steady.
#[export] Hint Extern 1 (steady _ (flashPaddle _ _)) =>
  apply steady_staged, staged_flashPaddle : steady.
#[export] Hint Extern 1 (steady _ (createScoreIndicator _ _ _)) =>
  apply steady_staged, staged_createScoreIndicator : steady.
#[export] Hint Extern 1 (steady _ (checkGameEnd _)) =>
  apply steady_staged, staged_checkGameEnd : steady.
#[export] Hint Extern 1 (steady _ (updateTrail _)) =>
  apply steady_staged, staged_updateTrail : steady.
#[export] Hint Extern 1 (steady _ (updateScoreIndicators _ _)) =>
  apply steady_staged, staged_updateScoreIndicators : steady.
#[export] Hint Extern 1 (steady _ (addObject _ _)) =>
  apply steady_staged, staged_addObject : steady.
#[export] Hint Extern 1 (steady _ (removeObject _ _)) =>
  apply steady_staged, staged_removeObject : steady.
#[export] Hint Extern 5 (steady _ _) =>
  unfold steady, moveBall; reads; repeat split; reflexivity : steady.

(** Follow a method statement by statement, carrying [steady] along. *)
Ltac steady_step :=
  match goal with
  | H : Math_random ?s = (_, ?t), A : steady ?a ?s |- _ =>
      let A' := fresh "A" in
      assert (A' : steady a t)
        by (apply (steady_trans _ _ _ A);
            replace t with (snd (Math_random s)) by (now rewrite H);
            apply steady_random);
      clear H A
  | H : ?t = ?rhs, A : steady ?a ?s |- _ =>
      is_var t;
      lazymatch rhs with context [s] => idtac end;
      let A' := fresh "A" in
      assert (A' : steady a t)
        by (rewrite H; apply (steady_trans _ _ _ A); auto with steady);
      clear H A
  end.

Ltac steadily f c :=
  let r := fresh "r" in let Hr := fresh "Hr" in
  let A := fresh "A" in let goal := fresh "goal" in
  match goal with |- steady ?a _ =>
    pose proof (steady_refl a) as A; set (goal := steady a)
  end;
  pattern c; apply name_value; intros r Hr; revert Hr;
  cbv beta delta [f]; execs; intros Hr;
  repeat match goal with E : (_ <? _) = _ |- _ => clear E
                       | E : (_ <=? _) = _ |- _ => clear E end;
  repeat steady_step;
  subst goal; try assumption.

Lemma steady_integrate deltaTime this :
  steady this (integrate deltaTime this).
Proof. steadily integrate (integrate deltaTime this). Qed.

Lemma steady_floorCeiling this : steady this (floorCeiling this).
Proof. steadily floorCeiling (floorCeiling this). Qed.

Lemma steady_sideWalls this : steady this (sideWalls this).
Proof. steadily sideWalls (sideWalls this). Qed.

Lemma steady_launchBall this : steady this (launchBall this).
Proof. steadily launchBall (launchBall this). Qed.

#[export] Hint Resolve steady_launchBall : steady.

Lemma steady_resetBall initialStart this :
  steady this (resetBall initialStart this).
Proof. steadily resetBall (resetBall initialStart this). Qed.

Lemma steady_bounce paddle this : steady this (bounce paddle this).
Proof. unfold steady, bounce. cbv zeta. reads. repeat split. Qed.

#[export] Hint Resolve steady_resetBall steady_bounce : steady.

Lemma steady_playerPaddleCollision this :
  steady this (playerPaddleCollision this).
Proof. steadily playerPaddleCollision (playerPaddleCollision this). Qed.

Lemma steady_aiPaddleCollision this :
  steady this (aiPaddleCollision this).
Proof. steadily aiPaddleCollision (aiPaddleCollision this). Qed.

Lemma steady_checkPaddleCollisions this :
  steady this (checkPaddleCollisions this).
Proof.
  unfold checkPaddleCollisions.
  eapply steady_trans;
    [apply steady_playerPaddleCollision | apply steady_aiPaddleCollision].
Qed.

Lemma steady_checkScoring this : steady this (checkScoring this).
Proof. steadily checkScoring (checkScoring this). Qed.

Lemma steady_updateAI deltaTime this : steady this (updateAI deltaTime this).
Proof. steadily updateAI (updateAI deltaTime this). Qed.

Lemma steady_spin this : steady this (spin this).
Proof. unfold steady, spin. cbv zeta. reads. repeat split. Qed.

Lemma steady_update deltaTime this : steady this (update deltaTime this).
Proof.
  destruct (isPlaying this) eqn:Hp.
  - rewrite update_blocks by assumption.
    repeat match goal with
    | |- steady _ (updateScoreIndicators _ _) =>
        eapply steady_trans;
          [|apply steady_staged, staged_updateScoreIndicators]
    | |- steady _ (spin _) => eapply steady_trans; [|apply steady_spin]
    | |- steady _ (updateAI _ _) =>
        eapply steady_trans; [|apply steady_updateAI]
    | |- steady _ (checkScoring _) =>
        eapply steady_trans; [|apply steady_checkScoring]
    | |- steady _ (checkPaddleCollisions _) =>
        eapply steady_trans; [|apply steady_checkPaddleCollisions]
    | |- steady _ (sideWalls _) =>
        eapply steady_trans; [|apply steady_sideWalls]
    | |- steady _ (updateParticles _ _) =>
        eapply steady_trans; [|apply steady_updateParticles]
    | |- steady _ (updateTrail _) =>
        eapply steady_trans; [|apply steady_staged, staged_updateTrail]
    | |- steady _ (floorCeiling _) =>
        eapply steady_trans; [|apply steady_floorCeiling]
    end.
    apply steady_integrate.
  - unfold update. rewrite Hp. apply steady_refl.
Qed.

Lemma steady_celebrate this : steady this (runTimeout Celebrate this).
Proof. steadily runTimeout (runTimeout Celebrate this). Qed.

Lemma updatePointerPosition_keeps event this :
  gameLevel (updatePointerPosition event this) = gameLevel this
  /\ ballSpeed (updatePointerPosition event this) = ballSpeed this
  /\ rng (updatePointerPosition event this) = rng this
  /\ isPlaying (updatePointerPosition event this) = isPlaying this
  /\ particlePool (updatePointerPosition event this) = particlePool this
  /\ aiPaddle (updatePointerPosition event this) = aiPaddle this
  /\ ball (updatePointerPosition event this) = ball this
  /\ sameScores this (updatePointerPosition event this).
Proof.
  unfold sameScores.
  runs updatePointerPosition (updatePointerPosition event this);
    try destruct (intersectionPoint event); exec; unwind; repeat split.
Qed.

(** ** What leaves the scores alone *)

Lemma sameScores_refl this : sameScores this this.
Proof. repeat split. Qed.

Lemma sameScores_trans a b c :
  sameScores a b -> sameScores b c -> sameScores a c.
Proof.
  intros (H1 & H2 & H3 & H4) (K1 & K2 & K3 & K4). repeat split; congruence.
Qed.

Lemma sameScores_staged a b : staged a b -> sameScores a b.
Proof. intros (? & ? & ? & ? & ? & ? & ->). repeat split. Qed.

Lemma sameScores_emitted a b : emitted a b -> sameScores a b.
Proof. intros (? & ? & ? & ->). repeat split. Qed.

Lemma sameScores_random this : sameScores this (snd (Math_random this)).
Proof. unfold sameScores, Math_random. cbn [snd]. reads. repeat split. Qed.

Create HintDb sameScores.

#[export] Hint Resolve sameScores_refl : sameScores.
#[export] Hint Extern 1 (sameScores _ (emitParticles _ _ _ _ _)) =>
  apply sameScores_emitted, emitParticles_emitted : sameScores.
#[export] Hint Extern 1 (sameScores _ (updateParticles _ _)) =>
  apply sameScores_emitted, updateParticles_emitted : sameScores.
#[export] Hint Extern 1 (sameScores _ (playSound _ _)) =>
  apply sameScores_staged, staged_playSound : sameScores.
#[export] Hint Extern 1 (sameScores _ (setTimeout _ _ _)) =>
  apply sameScores_staged, staged_setTimeout : sameScores.
#[export] Hint Extern 1 (sameScores _ (flashPaddle _ _)) =>
  apply sameScores_staged, staged_flashPaddle : sameScores.
#[export] Hint Extern 1 (sameScores _ (createScoreIndicator _ _ _)) =>
  apply sameScores_staged, staged_createScoreIndicator : sameScores.
#[export] Hint Extern 1 (sameScores _ (checkGameEnd _)) =>
  apply sameScores_staged, staged_checkGameEnd : sameScores.
#[export] Hint Extern 1 (sameScores _ (updateTrail _)) =>
  apply sameScores_staged, staged_updateTrail : sameScores.
#[export] Hint Extern 1 (sameScores _ (updateScoreIndicators _ _)) =>
  apply sameScores_staged, staged_updateScoreIndicators : sameScores.
#[export] Hint Extern 1 (sameScores _ (addObject _ _)) =>
  apply sameScores_staged, staged_addObject : sameScores.
#[export] Hint Extern 1 (sameScores _ (removeObject _ _)) =>
  apply sameScores_staged, staged_removeObject : sameScores.
#[export] Hint Extern 5 (sameScores _ _) =>
  unfold sameScores, moveBall; reads; repeat split; reflexivity : sameScores.

Ltac sameScores_step :=
  match goal with
  | H : Math_random ?s = (_, ?t), A : sameScores ?a ?s |- _ =>
      let A' := fresh "A" in
      assert (A' : sameScores a t)
        by (apply (sameScores_trans _ _ _ A);
            replace t with (snd (Math_random s)) by (now rewrite H);
            apply sameScores_random);
      clear H A
  | H : ?t = ?rhs, A : sameScores ?a ?s |- _ =>
      is_var t;
      lazymatch rhs with context [s] => idtac end;
      let A' := fresh "A" in
      assert (A' : sameScores a t)
        by (rewrite H; apply (sameScores_trans _ _ _ A);
            auto with sameScores);
      clear H A
  end.

Ltac scoring f c :=
  let r := fresh "r" in let Hr := fresh "Hr" in
  let A := fresh "A" in let goal := fresh "goal" in
  match goal with |- sameScores ?a _ =>
    pose proof (sameScores_refl a) as A; set (goal := sameScores a)
  end;
  pattern c; apply name_value; intros r Hr; revert Hr;
  cbv beta delta [f]; execs; intros Hr;
  repeat match goal with E : (_ <? _) = _ |- _ => clear E
                       | E : (_ <=? _) = _ |- _ => clear E end;
  repeat sameScores_step;
  subst goal; try assumption.

Lemma sameScores_integrate deltaTime this :
  sameScores this (integrate deltaTime this).
Proof. scoring integrate (integrate deltaTime this). Qed.

Lemma sameScores_floorCeiling this : sameScores this (floorCeiling this).
Proof. scoring floorCeiling (floorCeiling this). Qed.

Lemma sameScores_sideWalls this : sameScores this (sideWalls this).
Proof. scoring sideWalls (sideWalls this). Qed.

Lemma sameScores_launchBall this : sameScores this (launchBall this).
Proof. scoring launchBall (launchBall this). Qed.

#[export] Hint Resolve sameScores_launchBall : sameScores.

Lemma sameScores_resetBall initialStart this :
  sameScores this (resetBall initialStart this).
Proof. scoring resetBall (resetBall initialStart this). Qed.

Lemma sameScores_bounce paddle this : sameScores this (bounce paddle this).
Proof. unfold sameScores, bounce. cbv zeta. reads. repeat split. Qed.

#[export] Hint Resolve sameScores_resetBall sameScores_bounce : sameScores.

Lemma sameScores_playerPaddleCollision this :
  sameScores this (playerPaddleCollision this).
Proof. scoring playerPaddleCollision (playerPaddleCollision this). Qed.

Lemma sameScores_aiPaddleCollision this :
  sameScores this (aiPaddleCollision this).
Proof. scoring aiPaddleCollision (aiPaddleCollision this). Qed.

Lemma sameScores_updateAI deltaTime this :
  sameScores this (updateAI deltaTime this).
Proof. scoring updateAI (updateAI deltaTime this). Qed.

Lemma sameScores_spin this : sameScores this (spin this).
Proof. unfold sameScores, spin. cbv zeta. reads. repeat split. Qed.

Lemma sameScores_celebrate this :
  sameScores this (runTimeout Celebrate this).
Proof. scoring runTimeout (runTimeout Celebrate this). Qed.

(** The scores before and after the frame are those before and after its
    scoring check. *)
Lemma update_scores deltaTime this :
  isPlaying this = true ->
  exists before,
    sameScores this before
    /\ THREE.z (position (ball before))
       = THREE.z (position (ball
           (checkPaddleCollisions (sideWalls (updateParticles deltaTime
              (updateTrail (floorCeiling (integrate deltaTime this))))))))
    /\ sameScores (checkScoring before) (update deltaTime this).
Proof.
  intros Hp. rewrite update_blocks by assumption.
  eexists. split; [|split; [reflexivity|]].
  - unfold checkPaddleCollisions.
    repeat match goal with
    | |- sameScores _ (aiPaddleCollision _) =>
        eapply sameScores_trans; [|apply sameScores_aiPaddleCollision]
    | |- sameScores _ (playerPaddleCollision _) =>
        eapply sameScores_trans; [|apply sameScores_playerPaddleCollision]
    | |- sameScores _ (sideWalls _) =>
        eapply sameScores_trans; [|apply sameScores_sideWalls]
    | |- sameScores _ (updateParticles _ _) =>
        eapply sameScores_trans;
          [|apply sameScores_emitted, updateParticles_emitted]
    | |- sameScores _ (updateTrail _) =>
        eapply sameScores_trans;
          [|apply sameScores_staged, staged_updateTrail]
    | |- sameScores _ (floorCeiling _) =>
        eapply sameScores_trans; [|apply sameScores_floorCeiling]
    end.
    apply sameScores_integrate.
  - eapply sameScores_trans;
      [|apply sameScores_staged, staged_updateScoreIndicators].
    eapply sameScores_trans; [|apply sameScores_spin].
    apply sameScores_updateAI.
Qed.

(** ** The scores *)

Lemma sameScores_update_idle deltaTime this :
  isPlaying this = false -> update deltaTime this = this.
Proof. intros Hp. unfold update. now rewrite Hp. Qed.

Lemma checkScoring_scores this :
  (playerScore (checkScoring this) = playerScore this
   /\ aiScore (checkScoring this) = aiScore this)
  \/ (playerScore (checkScoring this) = S (playerScore this)
      /\ aiScore (checkScoring this) = aiScore this)
  \/ (playerScore (checkScoring this) = playerScore this
      /\ aiScore (checkScoring this) = S (aiScore this)).
Proof.
  pose proof (checkScoring_spec this) as H. cbv zeta in H.
  destruct H as (Hai & Hpl & _).
  destruct (Rlt_dec (tableDepth / 2 + ballRadius)
              (THREE.z (position (ball this)))) as [Hz|Hz].
  - right. right. destruct (Hai Hz) as (-> & -> & _). now split.
  - destruct (Rlt_dec (THREE.z (position (ball this)))
                (- tableDepth / 2 - ballRadius)) as [Hz'|Hz'].
    + right. left. destruct (Hpl Hz') as (-> & -> & _). now split.
    + left. rewrite checkScoring_idle by lra. now split.
Qed.

(** X8.  One frame scores at most one point: neither score decreases, and
    together they grow by at most one. *)
Theorem update_at_most_one_point (deltaTime : R) (this : PongGame) :
  (playerScore this <= playerScore (update deltaTime this))%nat
  /\ (aiScore this <= aiScore (update deltaTime this))%nat
  /\ (playerScore (update deltaTime this) + aiScore (update deltaTime this)
      <= playerScore this + aiScore this + 1)%nat.
Proof.
  destruct (isPlaying this) eqn:Hp.
  - destruct (update_scores deltaTime this Hp)
      as (before & (Hb1 & Hb2 & _) & _ & (Ha1 & Ha2 & _)).
    rewrite Ha1, Ha2, <- Hb1, <- Hb2.
    destruct (checkScoring_scores before)
      as [[-> ->]|[[-> ->]|[-> ->]]]; lia.
  - rewrite sameScores_update_idle by assumption. lia.
Qed.

Lemma scoresShown_sameScores a b :
  sameScores a b -> scoresShown a -> scoresShown b.
Proof.
  intros (H1 & H2 & H3 & H4) Ha p q. rewrite H1, H2, H3, H4. apply Ha.
Qed.

Lemma scoresShown_updateScoreDisplay this :
  scoresShown (updateScoreDisplay this).
Proof.
  unfold scoresShown, updateScoreDisplay. intros p q.
  destruct (playerScoreElement this) eqn:Hp, (aiScoreElement this) eqn:Ha;
    cbv zeta; reads; rewrite ?Hp, ?Ha; intros; try discriminate.
  split; congruence.
Qed.

Ltac shown_step :=
  match goal with
  | H : ?t = updateScoreDisplay ?s |- _ =>
      let S := fresh "S" in let A := fresh "A" in
      assert (S : scoresShown t)
        by (rewrite H; apply scoresShown_updateScoreDisplay);
      pose proof (sameScores_refl t) as A;
      clear H
  end.

Lemma scoresShown_checkScoring this :
  scoresShown this -> scoresShown (checkScoring this).
Proof.
  intros Hshown. pose proof (sameScores_refl this) as A.
  set (goal := scoresShown).
  pattern (checkScoring this); apply name_value; intros r Hr; revert Hr.
  cbv beta delta [checkScoring]; execs; intros Hr;
    repeat match goal with E : (_ <? _) = _ |- _ => clear E end;
    repeat shown_step; repeat sameScores_step; subst goal;
    match goal with
    | S : scoresShown ?x, A : sameScores ?x r |- _ =>
        exact (scoresShown_sameScores _ _ A S)
    end.
Qed.

(** ** Disposal, field by field *)

Lemma detached_refl this : detached this this.
Proof. destruct this. unfold detached. do 2 eexists. fields. reflexivity. Qed.

Lemma detached_trans a b c : detached a b -> detached b c -> detached a c.
Proof.
  intros (? & ? & ->) (? & ? & ->).
  destruct a. unfold detached. do 2 eexists. fields. reflexivity.
Qed.

Lemma detached_set_arScene v this : detached this (set_arScene v this).
Proof. destruct this. unfold detached. do 2 eexists. fields. reflexivity. Qed.

Lemma detached_set_audioContext v this :
  detached this (set_audioContext v this).
Proof. destruct this. unfold detached. do 2 eexists. fields. reflexivity. Qed.

Lemma detached_removeObject o this : detached this (removeObject o this).
Proof. apply detached_set_arScene. Qed.

Lemma detached_fold_removeObject {A : Type} (f : A -> nat) (l : list A)
    this :
  detached this (fold_left (fun this x => removeObject (f x) this) l this).
Proof.
  revert this. induction l as [|x l IHl]; intros this; cbn [fold_left].
  - apply detached_refl.
  - eapply detached_trans; [apply detached_removeObject | apply IHl].
Qed.

Ltac detach lem :=
  match goal with
  | H : ?t = ?rhs, A : detached ?a ?s |- _ =>
      is_var t;
      lazymatch rhs with context [s] => idtac end;
      let A' := fresh "A" in
      assert (A' : detached a t)
        by (rewrite H; apply (detached_trans _ _ _ A), lem);
      clear H A
  end.

(** [dispose] touches the scene, the audio context and the playing flag,
    and nothing else. *)
Lemma dispose_shape (this : PongGame) :
  exists sc au,
    dispose this
    = set_isPlaying false (set_audioContext au (set_arScene sc this)).
Proof.
  pose proof (detached_refl this) as A.
  set (goal := fun r : PongGame => exists sc au,
    r = set_isPlaying false (set_audioContext au (set_arScene sc this))).
  change (goal (dispose this)).
  pattern (dispose this); apply name_value; intros r Hr; revert Hr.
  cbv beta delta [dispose]; exec; intros Hr.
  do 4 detach detached_removeObject.
  detach (detached_fold_removeObject (fun wall : nat => wall)).
  detach (detached_fold_removeObject ps_id).
  detach (detached_fold_removeObject sprite_id).
  match goal with
  | H : ?t = match audioContext ?s with _ => _ end, A : detached ?a ?s |- _ =>
      assert (A' : detached a t)
        by (rewrite H; apply (detached_trans _ _ _ A);
            destruct (audioContext s) as [ctx|]; [destruct (closed ctx)|];
            first [apply detached_refl | apply detached_set_audioContext]);
      clear H A
  end.
  match goal with H : bind_update _ = (_, _) |- _ =>
    unfold bind_update, fresh, Scene.fresh in H; cbv beta iota in H;
    injection H as <- <- end.
  subst goal. cbv beta.
  destruct A' as (sc & au & ->).
  repeat match goal with H : ?t = _ |- _ => is_var t; subst t end.
  destruct this. do 2 eexists. fields. reflexivity.
Qed.

Lemma dispose_keeps (this : PongGame) :
  isPlaying (dispose this) = false
  /\ timeouts (dispose this) = timeouts this
  /\ steady (set_isPlaying false this) (dispose this)
  /\ sameScores this (dispose this)
  /\ aiPaddle (dispose this) = aiPaddle this
  /\ ball (dispose this) = ball this
  /\ particlePool (dispose this) = particlePool this.
Proof.
  destruct (dispose_shape this) as (sc & au & ->).
  unfold steady, sameScores. reads. repeat split.
Qed.

(** ** Two methods as assignments *)

Lemma updateScoreDisplay_shape this :
  exists shownPlayer shownAi,
    updateScoreDisplay this
    = set_aiScoreElement shownAi (set_playerScoreElement shownPlayer this).
Proof.
  unfold updateScoreDisplay.
  destruct (playerScoreElement this) eqn:Hp, (aiScoreElement this) eqn:Ha;
    cbv zeta; rewrite <- ?Hp, <- ?Ha.
  - eexists _, _. reflexivity.
  - exists (playerScoreElement this), (aiScoreElement this). now destruct this.
  - exists (playerScoreElement this), (aiScoreElement this). now destruct this.
  - exists (playerScoreElement this), (aiScoreElement this). now destruct this.
Qed.

Lemma resetBall_true_shape this :
  exists placed tos,
    resetBall true this = set_timeouts tos (set_ball placed this)
    /\ mesh_id placed = mesh_id (ball this).
Proof.
  unfold resetBall, setTimeout. cbv zeta.
  exists (set_position
            {| THREE.x := 0; THREE.y := tableHeight + ballRadius;
               THREE.z := 0 |}
            (ball this)),
    (timeouts this ++ [(1000, LaunchBall)]).
  split.
  - destruct this as [? ? [] ?]. reflexivity.
  - reflexivity.
Qed.


(** ** Sessions *)

Lemma update_keeps_ball_inside (deltaTime : R) (this : PongGame) :
  isPlaying this = true ->
  ballWithinWalls (update deltaTime this)
  /\ ballWithinHeight (update deltaTime this).
Proof.
  intros Hp. rewrite update_blocks by assumption.
  set (t1 := floorCeiling (integrate deltaTime this)).
  set (t2 := updateParticles deltaTime (updateTrail t1)).
  assert (H2 : ballWithinHeight t2).
  { unfold ballWithinHeight, t2. unwind. apply floorCeiling_height. }
  destruct (sideWalls_spec t2) as [H3x H3y].
  assert (H3 : ballWithinHeight (sideWalls t2)).
  { unfold ballWithinHeight. now rewrite H3y. }
  destruct (checkPaddleCollisions_xy (sideWalls t2)) as [H4x H4y].
  destruct (checkScoring_contained (checkPaddleCollisions (sideWalls t2)))
    as [H5x H5y].
  { unfold ballWithinWalls. now rewrite H4x. }
  { unfold ballWithinHeight. now rewrite H4y. }
  unfold ballWithinWalls, ballWithinHeight in *.
  keep (effects_updateScoreIndicators deltaTime
          (spin (updateAI deltaTime
            (checkScoring (checkPaddleCollisions (sideWalls t2)))))).
  rewrite spin_position.
  destruct (updateAI_spec deltaTime
    (checkScoring (checkPaddleCollisions (sideWalls t2)))) as (_ & -> & _).
  now split.
Qed.

Lemma tableCenter_inside this :
  position (ball this) = tableCenter ->
  ballWithinWalls this /\ ballWithinHeight this.
Proof.
  unfold ballWithinWalls, ballWithinHeight. intros ->.
  unfold tableCenter. cbn [THREE.x THREE.y]. consts. lra.
Qed.

Lemma roundReset_keeps this :
  playerPaddle (runTimeout RoundReset this) = playerPaddle this
  /\ aiPaddle (runTimeout RoundReset this) = aiPaddle this
  /\ length (particlePool (runTimeout RoundReset this))
     = length (particlePool this)
  /\ scoresShown (runTimeout RoundReset this).
Proof.
  pattern (runTimeout RoundReset this); apply name_value; intros r Hr;
    symmetry in Hr; revert Hr.
  cbv beta iota delta [runTimeout]. exec. intros <-.
  pose proof (scoresShown_updateScoreDisplay t0) as Hshown.
  rewrite <- Ht1 in Hshown.
  destruct (updateScoreDisplay_shape t0) as (shownPlayer & shownAi & Hs).
  rewrite Hs in Ht1. clear Hs.
  destruct (resetBall_true_shape t1) as (placed & tos & Hb & _).
  rewrite Hb in Ht2. clear Hb.
  assert (Hsame : sameScores t1
            (set_ballSpeed
               (Math_min (0.5 + INR (gameLevel t3) * 0.05) 0.8) t3)).
  { subst t3 t2. unfold sameScores. reads. now repeat split. }
  split; [|split; [|split]].
  - subst t3 t2 t1 t0 t. reads. reflexivity.
  - subst t3 t2 t1 t0 t. reads. reflexivity.
  - subst t3 t2 t1 t0 t. reads. reflexivity.
  - exact (scoresShown_sameScores _ _ Hsame Hshown).
Qed.

Lemma updatePointerPosition_volume event this :
  playerPaddleVolume (position (playerPaddle this)) ->
  playerPaddleVolume
    (position (playerPaddle (updatePointerPosition event this))).
Proof.
  intros Hv. unfold playerPaddleVolume in *.
  runs updatePointerPosition (updatePointerPosition event this);
    try destruct (intersectionPoint event); exec.
  all: unwind.
  all: lazymatch goal with
    | |- context [Math_max] =>
        (split; [|split]); apply clamp_bounds; clear; consts; lra
    | |- _ => exact Hv
    end.
Qed.

Lemma scoresShown_initialize this : scoresShown (initialize this).
Proof.
  pattern (initialize this); apply name_value; intros r Hr;
    symmetry in Hr; revert Hr.
  cbv beta delta [initialize]. exec. intros <-.
  apply scoresShown_updateScoreDisplay.
Qed.

Lemma update_aiPaddle deltaTime this :
  isPlaying this = true ->
  exists before,
    aiPaddle before = aiPaddle this
    /\ rng before = rng this
    /\ aiPaddle (update deltaTime this)
       = aiPaddle (updateAI deltaTime before).
Proof.
  intros Hp. rewrite update_blocks by assumption.
  exists (checkScoring (checkPaddleCollisions (sideWalls
    (updateParticles deltaTime
       (updateTrail (floorCeiling (integrate deltaTime this))))))).
  split; [|split]; cycle 2.
  - unwind. reflexivity.
  - unfold checkPaddleCollisions.
    destruct (checkScoring_aiPaddle (aiPaddleCollision
      (playerPaddleCollision (sideWalls (updateParticles deltaTime
        (updateTrail (floorCeiling (integrate deltaTime this)))))))) as [-> _].
    destruct (aiPaddleCollision_aiPaddle
      (playerPaddleCollision (sideWalls (updateParticles deltaTime
        (updateTrail (floorCeiling (integrate deltaTime this))))))) as [-> _].
    destruct (playerPaddleCollision_aiPaddle
      (sideWalls (updateParticles deltaTime
        (updateTrail (floorCeiling (integrate deltaTime this)))))) as [-> _].
    destruct (sideWalls_aiPaddle (updateParticles deltaTime
        (updateTrail (floorCeiling (integrate deltaTime this))))) as [-> _].
    unwind.
    destruct (floorCeiling_aiPaddle (integrate deltaTime this)) as [-> _].
    apply integrate_aiPaddle.
  - unfold checkPaddleCollisions.
    destruct (checkScoring_aiPaddle (aiPaddleCollision
      (playerPaddleCollision (sideWalls (updateParticles deltaTime
        (updateTrail (floorCeiling (integrate deltaTime this)))))))) as [_ ->].
    destruct (aiPaddleCollision_aiPaddle
      (playerPaddleCollision (sideWalls (updateParticles deltaTime
        (updateTrail (floorCeiling (integrate deltaTime this))))))) as [_ ->].
    destruct (playerPaddleCollision_aiPaddle
      (sideWalls (updateParticles deltaTime
        (updateTrail (floorCeiling (integrate deltaTime this)))))) as [_ ->].
    destruct (sideWalls_aiPaddle (updateParticles deltaTime
        (updateTrail (floorCeiling (integrate deltaTime this))))) as [_ ->].
    unwind.
    destruct (floorCeiling_aiPaddle (integrate deltaTime this)) as [_ ->].
    apply integrate_aiPaddle.
Qed.

Lemma celebrate_keeps this :
  aiPaddle (runTimeout Celebrate this) = aiPaddle this
  /\ ball (runTimeout Celebrate this) = ball this.
Proof.
  run runTimeout (runTimeout Celebrate this). unwind. now split.
Qed.

(** X1.  Throughout a session the level is at least 1 and [ballSpeed] lies
    between 0.5 and 0.8: it is 0.5 during the first round and [min (0.5 +
    gameLevel * 0.05) 0.8] from the first round reset on. *)
Theorem session_speed (this : PongGame) :
  reachable this ->
  (1 <= gameLevel this)%nat
  /\ 0.5 <= ballSpeed this <= 0.8
  /\ (gameLevel this = 1%nat -> ballSpeed this = 0.5)
  /\ ((2 <= gameLevel this)%nat ->
      ballSpeed this = Math_min (0.5 + INR (gameLevel this) * 0.05) 0.8).
Proof.
  induction 1 as [scene host|deltaTime this _ IH|callback this _ IH
                 |event this _ IH|event this _ IH|this _ IH|this _ IH].
  - destruct (initialize_spec (constructor scene host))
      as (_ & _ & _ & _ & _ & _ & _ & -> & -> & _).
    cbn [ballSpeed gameLevel constructor].
    repeat split; try lra; try lia.
  - destruct (steady_update deltaTime this) as (_ & -> & -> & _). exact IH.
  - destruct callback.
    + cbn [runTimeout].
      destruct (steady_launchBall this) as (_ & -> & -> & _). exact IH.
    + exact IH.
    + destruct (steady_celebrate this) as (_ & -> & -> & _). exact IH.
    + destruct (roundReset_spec this) as (_ & _ & -> & -> & _).
      destruct IH as (Hl & _).
      pose proof (pos_INR (S (gameLevel this))) as Hpos.
      repeat split; try lia;
        try (unfold Math_min, Rmin; destruct (Rle_dec _ _); lra).
  - unfold onPointerDown.
    destruct (updatePointerPosition_keeps event (set_pointerDown true this))
      as (-> & -> & _). exact IH.
  - unfold onPointerMove. destruct (pointerDown this); [|exact IH].
    destruct (updatePointerPosition_keeps event this) as (-> & -> & _).
    exact IH.
  - exact IH.
  - destruct (dispose_keeps this) as (_ & _ & (_ & -> & -> & _) & _).
    exact IH.
Qed.

(** X2.  Throughout a session that started with an empty pool the pool holds
    exactly ten particle systems. *)
Theorem session_pool_size (this : PongGame) :
  reachable this -> length (particlePool this) = 10%nat.
Proof.
  induction 1 as [scene host|deltaTime this _ IH|callback this _ IH
                 |event this _ IH|event this _ IH|this _ IH|this _ IH].
  - destruct (initialize_pool (constructor scene host)) as (_ & -> & _);
      [apply Forall_nil; exact I | reflexivity].
  - destruct (steady_update deltaTime this) as (_ & _ & _ & _ & _ & ->).
    exact IH.
  - destruct callback.
    + cbn [runTimeout].
      destruct (steady_launchBall this) as (_ & _ & _ & _ & _ & ->).
      exact IH.
    + exact IH.
    + destruct (steady_celebrate this) as (_ & _ & _ & _ & _ & ->).
      exact IH.
    + destruct (roundReset_keeps this) as (_ & _ & -> & _). exact IH.
  - unfold onPointerDown.
    destruct (updatePointerPosition_keeps event (set_pointerDown true this))
      as (_ & _ & _ & _ & -> & _). exact IH.
  - unfold onPointerMove. destruct (pointerDown this); [|exact IH].
    destruct (updatePointerPosition_keeps event this)
      as (_ & _ & _ & _ & -> & _). exact IH.
  - exact IH.
  - destruct (dispose_keeps this) as (_ & _ & _ & _ & _ & _ & ->). exact IH.
Qed.

(** X3.  Throughout a session the player's paddle stays in the volume its
    pointer handler clamps to. *)
Theorem session_playerPaddle (this : PongGame) :
  reachable this -> playerPaddleVolume (position (playerPaddle this)).
Proof.
  induction 1 as [scene host|deltaTime this _ IH|callback this _ IH
                 |event this _ IH|event this _ IH|this _ IH|this _ IH].
  - destruct (initialize_spec (constructor scene host)) as (_ & -> & _).
    unfold playerPaddleVolume. cbn [THREE.x THREE.y THREE.z]. consts. lra.
  - destruct (steady_update deltaTime this) as (-> & _). exact IH.
  - destruct callback.
    + cbn [runTimeout]. destruct (steady_launchBall this) as (-> & _).
      exact IH.
    + exact IH.
    + destruct (steady_celebrate this) as (-> & _). exact IH.
    + destruct (roundReset_keeps this) as (-> & _). exact IH.
  - unfold onPointerDown. apply updatePointerPosition_volume. exact IH.
  - unfold onPointerMove. destruct (pointerDown this); [|exact IH].
    apply updatePointerPosition_volume. exact IH.
  - exact IH.
  - destruct (dispose_keeps this) as (_ & _ & (-> & _) & _). exact IH.
Qed.

(** X4.  Throughout a session the ball stays between the side walls and
    between the floor and the ceiling of the play area. *)
Theorem session_ball_contained (this : PongGame) :
  reachable this -> ballWithinWalls this /\ ballWithinHeight this.
Proof.
  induction 1 as [scene host|deltaTime this _ IH|callback this _ IH
                 |event this _ IH|event this _ IH|this _ IH|this _ IH].
  - apply tableCenter_inside. apply initialize_spec.
  - destruct (isPlaying this) eqn:Hp.
    + now apply update_keeps_ball_inside.
    + unfold update. now rewrite Hp.
  - destruct callback.
    + cbn [runTimeout]. unfold ballWithinWalls, ballWithinHeight.
      rewrite launchBall_ball. exact IH.
    + exact IH.
    + unfold ballWithinWalls, ballWithinHeight.
      destruct (celebrate_keeps this) as [_ ->]. exact IH.
    + apply tableCenter_inside. apply roundReset_spec.
  - unfold onPointerDown, ballWithinWalls, ballWithinHeight.
    destruct (updatePointerPosition_keeps event (set_pointerDown true this))
      as (_ & _ & _ & _ & _ & _ & -> & _). exact IH.
  - unfold onPointerMove. destruct (pointerDown this); [|exact IH].
    unfold ballWithinWalls, ballWithinHeight.
    destruct (updatePointerPosition_keeps event this)
      as (_ & _ & _ & _ & _ & _ & -> & _). exact IH.
  - exact IH.
  - unfold ballWithinWalls, ballWithinHeight.
    destruct (dispose_keeps this) as (_ & _ & _ & _ & _ & -> & _). exact IH.
Qed.


Lemma updateAI_rng deltaTime this :
  rng (updateAI deltaTime this) = rng this.
Proof. apply updateAI_spec. Qed.

(** X6.  Throughout a session the AI's paddle stays in the volume [updateAI]
    clamps to; and while [Math.random] draws from the unit interval, the
    paddle never stands behind its end of the table: its z-coordinate stays
    within 0.05 of the table end, on the table. *)
Theorem session_aiPaddle (this : PongGame) :
  reachable this ->
  aiPaddleVolume (position (aiPaddle this))
  /\ ((forall n, 0 <= rng this n <= 1) ->
      - tableDepth / 2 <= THREE.z (position (aiPaddle this))
        <= - tableDepth / 2 + 0.05).
Proof.
  induction 1 as [scene host|deltaTime this _ IH|callback this _ IH
                 |event this _ IH|event this _ IH|this _ IH|this _ IH].
  - destruct (initialize_spec (constructor scene host))
      as (_ & _ & -> & _).
    unfold aiPaddleVolume. cbn [THREE.x THREE.y THREE.z]. consts.
    repeat split; lra.
  - destruct (isPlaying this) eqn:Hp.
    + destruct (update_aiPaddle deltaTime this Hp)
        as (before & Hb & Hr & ->).
      split; [apply updateAI_spec|].
      destruct (steady_update deltaTime this) as (_ & _ & _ & -> & _).
      intros Hrng. apply updateAI_z_session.
      * now rewrite Hr.
      * rewrite Hb. now apply IH.
    + unfold update. now rewrite Hp.
  - destruct callback.
    + cbn [runTimeout]. rewrite launchBall_aiPaddle, launchBall_rng.
      exact IH.
    + exact IH.
    + destruct (celebrate_keeps this) as [-> _].
      destruct (steady_celebrate this) as (_ & _ & _ & -> & _). exact IH.
    + destruct (roundReset_keeps this) as (_ & -> & _).
      destruct (roundReset_spec this) as (_ & _ & _ & _ & _ & _ & ->).
      exact IH.
  - unfold onPointerDown.
    destruct (updatePointerPosition_keeps event (set_pointerDown true this))
      as (_ & _ & -> & _ & _ & -> & _). exact IH.
  - unfold onPointerMove. destruct (pointerDown this); [|exact IH].
    destruct (updatePointerPosition_keeps event this)
      as (_ & _ & -> & _ & _ & -> & _). exact IH.
  - exact IH.
  - destruct (dispose_keeps this)
      as (_ & _ & (_ & _ & _ & -> & _) & _ & -> & _).
    exact IH.
Qed.

(** ** Particles, one system at a time *)

(** What an emission does when [list_find] has found the slot. *)
Lemma emitParticles_slot position color count speed
    (this : PongGame) (slot : nat) (ps : ParticleSystem) :
  list_find (fun ps => active ps = false) (particlePool this)
  = Some (slot, ps) ->
  particles (emitParticles position color count speed this)
    = particles this ++ [slot]
  /\ (exists ps',
        particlePool (emitParticles position color count speed this) !! slot
          = Some ps'
        /\ active ps' = true /\ visible ps' = true /\ lifetime ps' = 0
        /\ ps_position ps' = position
        /\ maxLifetime ps' = maxLifetime ps)
  /\ (forall other, other <> slot ->
        particlePool (emitParticles position color count speed this) !! other
        = particlePool this !! other).
Proof.
  intros Hfind.
  assert (Hps : particlePool this !! slot = Some ps)
    by (now apply list_find_Some in Hfind).
  unfold emitParticles. rewrite Hfind. cbv zeta.
  set (t0 := with_ps slot (set_visible true)
               (with_ps slot (set_ps_position position) this)).
  pose (inv := fun s : PongGame =>
    particles s = particles this
    /\ (exists ps', particlePool s !! slot = Some ps'
          /\ visible ps' = true /\ ps_position ps' = position
          /\ maxLifetime ps' = maxLifetime ps)
    /\ (forall other, other <> slot ->
          particlePool s !! other = particlePool this !! other)).
  assert (Halter : forall f s other, other <> slot ->
    particlePool (with_ps slot f s) !! other = particlePool s !! other).
  { intros f s other Hne. unfold with_ps. reads.
    rewrite list_lookup_alter.
    destruct (decide (slot = other)); [congruence | reflexivity]. }
  assert (H0 : inv t0).
  { split; [reflexivity|]. split.
    - eexists. split;
        [subst t0; apply with_ps_lookup, with_ps_lookup, Hps|].
      repeat split.
    - intros other Hne. subst t0. now rewrite !Halter. }
  pose proof (for_loop_ind inv (emitParticles_body slot color speed))
    as Hloop.
  specialize (Hloop (fun i s Hs => ltac:(
    destruct Hs as (Hp & (ps' & Hl & Hv & Hpos & Hm) & Ho);
    unfold emitParticles_body, Math_random; cbv zeta;
    split; [exact Hp|]; split;
      [eexists; split;
         [apply with_ps_lookup; unfold with_ps at 1; reads;
          apply with_ps_lookup, with_ps_lookup, Hl
         |repeat split; assumption]
      |intros other Hne; rewrite Halter by assumption;
       unfold with_ps at 1; reads; rewrite !Halter by assumption;
       now apply Ho])) count t0 H0).
  destruct Hloop as (Hp & (ps' & Hl & Hv & Hpos & Hm) & Ho). reads.
  split; [|split].
  - unfold with_ps. reads. now rewrite Hp.
  - eexists. split; [apply with_ps_lookup, with_ps_lookup, Hl|].
    repeat split; assumption.
  - intros other Hne. rewrite !Halter by assumption. now apply Ho.
Qed.

(** X9.  An emission takes the first free slot of the pool: the slot is put at
    the emission point, made visible and active with its lifetime at zero, and
    appended to the live list; no other slot changes. *)
Theorem emitParticles_takes_first_free position color count speed
    (this : PongGame) (slot : nat) (ps : ParticleSystem) :
  particlePool this !! slot = Some ps ->
  active ps = false ->
  (forall earlier ps', (earlier < slot)%nat ->
     particlePool this !! earlier = Some ps' -> active ps' = true) ->
  particles (emitParticles position color count speed this)
    = particles this ++ [slot]
  /\ (exists ps',
        particlePool (emitParticles position color count speed this) !! slot
          = Some ps'
        /\ active ps' = true /\ visible ps' = true /\ lifetime ps' = 0
        /\ ps_position ps' = position
        /\ maxLifetime ps' = maxLifetime ps)
  /\ (forall other, other <> slot ->
        particlePool (emitParticles position color count speed this) !! other
        = particlePool this !! other).
Proof.
  intros Hps Hfree Hfirst. apply (emitParticles_slot _ _ _ _ _ _ ps).
  apply list_find_Some. split; [exact Hps|]. split; [exact Hfree|].
  intros j y Hy Hj Hact. rewrite (Hfirst j y Hj Hy) in Hact.
  discriminate.
Qed.

Lemma with_ps_lookup_other slot f this other :
  other <> slot ->
  particlePool (with_ps slot f this) !! other = particlePool this !! other.
Proof.
  intros Hne. unfold with_ps. reads. rewrite list_lookup_alter.
  destruct (decide (slot = other)); [congruence | reflexivity].
Qed.

Lemma with_ps_lookup_Some slot f this other :
  is_Some (particlePool this !! other) ->
  is_Some (particlePool (with_ps slot f this) !! other).
Proof.
  intros [ps Hps]. destruct (decide (other = slot)) as [->|Hne].
  - rewrite (with_ps_lookup _ _ _ _ Hps). eauto.
  - rewrite with_ps_lookup_other by assumption. eauto.
Qed.

(** A free slot stays free under a change that does not activate. *)
Lemma with_ps_keeps_free slot f this other :
  (forall ps, active (f ps) = active ps) ->
  (exists ps, particlePool this !! other = Some ps /\ active ps = false) ->
  exists ps, particlePool (with_ps slot f this) !! other = Some ps
             /\ active ps = false.
Proof.
  intros Hf (ps & Hps & Hact). destruct (decide (other = slot)) as [->|Hne].
  - exists (f ps). split; [now apply with_ps_lookup | now rewrite Hf].
  - exists ps. now rewrite with_ps_lookup_other.
Qed.

Lemma updateParticles_body_active deltaTime lifePercent n ps :
  active (for_loop n (updateParticles_body deltaTime lifePercent) ps)
  = active ps.
Proof.
  apply (for_loop_ind (fun s => active s = active ps)); [|reflexivity].
  intros i s Hs. unfold updateParticles_body. cbv zeta.
  rewrite <- Hs.
  apply (for_loop_ind (fun s' => active s' = active s)); [|reflexivity].
  intros k s' Hs'. exact Hs'.
Qed.

Lemma updateParticles_loop_keeps_free deltaTime refs :
  forall this other,
    (exists ps, particlePool this !! other = Some ps /\ active ps = false) ->
    exists ps,
      particlePool (snd (updateParticles_loop deltaTime refs this)) !! other
        = Some ps
      /\ active ps = false.
Proof.
  induction refs as [|slot rest IH]; intros this other Hfree; simpl;
    [exact Hfree|].
  assert (H1 : exists ps,
    particlePool (with_ps slot
      (fun ps => set_lifetime (lifetime ps + deltaTime) ps) this) !! other
      = Some ps /\ active ps = false)
    by (apply with_ps_keeps_free; [reflexivity | exact Hfree]).
  destruct (_ !! slot) as [ps|].
  - destruct (_ >=? _).
    + apply IH. apply with_ps_keeps_free; [reflexivity|].
      destruct H1 as (ps1 & Hps1 & Hact1).
      destruct (decide (other = slot)) as [->|Hne].
      * eexists. split; [apply with_ps_lookup, Hps1 | reflexivity].
      * exists ps1. now rewrite with_ps_lookup_other.
    + destruct (updateParticles_loop _ _ _) as [kept this'] eqn:E.
      simpl. change this' with (snd (kept, this')). rewrite <- E.
      apply IH. apply with_ps_keeps_free; [|exact H1].
      intros ps0. apply updateParticles_body_active.
  - apply IH, H1.
Qed.

Lemma updateParticles_loop_sublist deltaTime refs :
  forall this,
    sublist (fst (updateParticles_loop deltaTime refs this)) refs.
Proof.
  induction refs as [|slot rest IH]; intros this; simpl; [constructor|].
  destruct (_ !! slot) as [ps|].
  - destruct (_ >=? _).
    + apply sublist_cons, IH.
    + match goal with |- context [updateParticles_loop deltaTime rest ?t] =>
        pose proof (IH t) as Hsub;
        destruct (updateParticles_loop deltaTime rest t) as [kept this']
      end.
      simpl in *. now apply sublist_skip.
  - apply sublist_cons, IH.
Qed.

Lemma updateParticles_loop_cons deltaTime slot rest this :
  updateParticles_loop deltaTime (slot :: rest) this
  = let aged := with_ps slot
      (fun ps => set_lifetime (lifetime ps + deltaTime) ps) this in
    match particlePool aged !! slot with
    | None => updateParticles_loop deltaTime rest aged
    | Some ps =>
        if lifetime ps >=? maxLifetime ps then
          updateParticles_loop deltaTime rest
            (with_ps slot (set_visible false)
               (with_ps slot (set_active false) aged))
        else
          let '(kept, this) :=
            updateParticles_loop deltaTime rest
              (with_ps slot (fun ps0 =>
                 for_loop (thirds (length (positions ps0)))
                   (updateParticles_body deltaTime
                      (lifetime ps / maxLifetime ps)) ps0) aged) in
          (slot :: kept, this)
    end.
Proof. reflexivity. Qed.

Lemma updateParticles_loop_releases deltaTime refs :
  forall this slot,
    slot ∈ refs ->
    slot ∉ fst (updateParticles_loop deltaTime refs this) ->
    is_Some (particlePool this !! slot) ->
    exists ps,
      particlePool (snd (updateParticles_loop deltaTime refs this)) !! slot
        = Some ps
      /\ active ps = false.
Proof.
  induction refs as [|first rest IH]; intros this slot Hin Hout Hvalid.
  - now apply elem_of_nil in Hin.
  - rewrite updateParticles_loop_cons in *. cbv zeta in *.
    set (aged := with_ps first
      (fun ps => set_lifetime (lifetime ps + deltaTime) ps) this) in *.
    assert (Hvalid1 : is_Some (particlePool aged !! slot))
      by (apply with_ps_lookup_Some, Hvalid).
    destruct (particlePool aged !! first) as [ps|] eqn:Hfirst.
    + destruct (_ <=? _).
      * destruct (decide (slot = first)) as [->|Hne].
        -- apply updateParticles_loop_keeps_free.
           apply with_ps_keeps_free; [reflexivity|].
           eexists. split; [apply with_ps_lookup, Hfirst | reflexivity].
        -- apply IH; [|exact Hout|].
           ++ apply elem_of_cons in Hin as [?|?]; [congruence|assumption].
           ++ now do 2 apply with_ps_lookup_Some.
      * match type of Hout with
        | context [updateParticles_loop deltaTime rest ?t] =>
            pose proof (IH t slot) as IH';
            destruct (updateParticles_loop deltaTime rest t)
              as [kept this'] eqn:E
        end.
        cbn [fst snd] in *. apply not_elem_of_cons in Hout as [Hne Hout].
        apply IH'; [|exact Hout|].
        -- apply elem_of_cons in Hin as [?|?]; [congruence|assumption].
        -- now apply with_ps_lookup_Some.
    + destruct (decide (slot = first)) as [->|Hne].
      * rewrite Hfirst in Hvalid1. now destruct Hvalid1.
      * apply IH; [|exact Hout|exact Hvalid1].
        apply elem_of_cons in Hin as [?|?]; [congruence|assumption].
Qed.

(** X10.  Ageing the particles never adds a live system: the live list after
    it is a sublist of the one before, and every system it drops from the list
    has been returned to the pool as free. *)
Theorem updateParticles_releases (deltaTime : R) (this : PongGame) :
  sublist (particles (updateParticles deltaTime this)) (particles this)
  /\ forall slot,
       slot ∈ particles this ->
       slot ∉ particles (updateParticles deltaTime this) ->
       is_Some (particlePool this !! slot) ->
       exists ps,
         particlePool (updateParticles deltaTime this) !! slot = Some ps
         /\ active ps = false.
Proof.
  unfold updateParticles.
  pose proof (updateParticles_loop_sublist deltaTime (particles this) this)
    as Hsub.
  pose proof (updateParticles_loop_releases deltaTime (particles this) this)
    as Hrel.
  destruct (updateParticles_loop _ _ _) as [kept this']. simpl in *.
  reads. split; [exact Hsub|]. intros slot Hin Hout Hvalid.
  destruct (Hrel slot Hin Hout Hvalid) as (ps & Hps & Hact).
  exists ps. now reads.
Qed.

(** ** Score indicators *)

Lemma updateScoreIndicators_loop_spec deltaTime l :
  forall this,
    Forall (fun indicator =>
              sprite_lifetime indicator < sprite_maxLifetime indicator)
      (fst (updateScoreIndicators_loop deltaTime l this))
    /\ (length (fst (updateScoreIndicators_loop deltaTime l this))
        <= length l)%nat.
Proof.
  induction l as [|indicator rest IH]; intros this; simpl.
  - split; [constructor | lia].
  - destruct (_ <=? _) eqn:E.
    + destruct (IH (removeObject (sprite_id indicator) this)) as [H1 H2].
      split; [exact H1 | lia].
    + match goal with |- context [updateScoreIndicators_loop _ _ ?t] =>
        destruct (IH t) as [H1 H2];
        destruct (updateScoreIndicators_loop deltaTime rest t) as [kept t']
      end.
      simpl in *. split; [|lia].
      constructor; [|exact H1]. cbn. apply Rleb_false in E. exact E.
Qed.

(** X11.  After [updateScoreIndicators] no indicator on the list has reached
    its maximal lifetime, and the list has not grown. *)
Theorem updateScoreIndicators_unexpired (deltaTime : R) (this : PongGame) :
  Forall (fun indicator =>
            sprite_lifetime indicator < sprite_maxLifetime indicator)
    (scoreIndicators (updateScoreIndicators deltaTime this))
  /\ (length (scoreIndicators (updateScoreIndicators deltaTime this))
      <= length (scoreIndicators this))%nat.
Proof.
  unfold updateScoreIndicators.
  pose proof (updateScoreIndicators_loop_spec deltaTime
                (scoreIndicators this) this) as H.
  destruct (updateScoreIndicators_loop _ _ _) as [kept this']. exact H.
Qed.

(** ** The scene's callback list *)

Lemma indexOf_None (l : list nat) (o : nat) : o ∉ l -> indexOf l o = None.
Proof.
  intros Hout. unfold indexOf.
  destruct (list_find _ _) as [[i x]|] eqn:Hfind; [|reflexivity].
  apply list_find_Some in Hfind as (Hin & -> & _).
  exfalso. apply Hout. eapply list_elem_of_lookup_2, Hin.
Qed.

Lemma indexOf_app_fresh (l : list nat) (o : nat) :
  o ∉ l -> indexOf (l ++ [o]) o = Some (length l).
Proof.
  intros Hout. unfold indexOf.
  destruct (list_find _ _) as [[i x]|] eqn:Hfind.
  - apply list_find_Some in Hfind as (Hin & -> & Hfirst). cbn.
    destruct (Nat.lt_total i (length l)) as [Hlt|[->|Hgt]].
    + rewrite lookup_app_l in Hin by assumption.
      exfalso. apply Hout. eapply list_elem_of_lookup_2, Hin.
    + reflexivity.
    + apply lookup_lt_Some in Hin. rewrite length_app in Hin.
      cbn in Hin. lia.
  - apply list_find_None in Hfind. rewrite Forall_app in Hfind.
    destruct Hfind as [_ Hlast]. apply Forall_inv in Hlast. congruence.
Qed.

(** X12.  A callback taken off the scene with the very function that was put
    on it is removed, and the scene is as before; taking off a function that
    is not registered changes nothing. *)
Theorem removeUpdateCallback_round_trip (callback : nat) (sc : ARScene) :
  callback ∉ onUpdateCallbacks sc ->
  Scene.removeUpdateCallback callback (Scene.addUpdateCallback callback sc)
    = sc
  /\ Scene.removeUpdateCallback callback sc = sc.
Proof.
  intros Hout. split.
  - unfold Scene.removeUpdateCallback, Scene.addUpdateCallback.
    reads. rewrite indexOf_app_fresh by assumption. reads.
    rewrite delete_middle, app_nil_r. now destruct sc.
  - unfold Scene.removeUpdateCallback. now rewrite indexOf_None.
Qed.

(** ** A disposed game *)

(** X13.  A disposed game ignores the frames the scene keeps sending it. *)
Theorem dispose_stops_frames (deltaTime : R) (this : PongGame) :
  update deltaTime (dispose this) = dispose this.
Proof.
  unfold update. destruct (dispose_keeps this) as (-> & _). reflexivity.
Qed.

(** X14.  [dispose] cancels no timer: what was pending is still pending. *)
Theorem dispose_keeps_timeouts (this : PongGame) :
  timeouts (dispose this) = timeouts this.
Proof. apply dispose_keeps. Qed.

(** ** The serve, when the floor is not applied *)

(** X16.  When the drawn z-component has magnitude at least 0.3 nothing is
    overwritten and the serve has exactly the speed [ballSpeed]. *)
Theorem launchBall_exact_speed (this : PongGame) :
  0 <= ballSpeed this ->
  0.3 <= Rabs (drawnZ this) ->
  THREE.length (ballVelocity (launchBall this)) = ballSpeed this.
Proof.
  intros Hs Hz. rewrite launchBall_ballVelocity.
  replace (Rabs (drawnZ this) <? 0.3) with false
    by (symmetry; now apply Rltb_false).
  unfold THREE.length, drawnZ. cbn [THREE.x THREE.y THREE.z].
  set (h := horizontalAngle this). set (v := verticalAngle this).
  set (s := ballSpeed this) in *.
  pose proof (sin2_cos2 h) as Hh. pose proof (sin2_cos2 v) as Hv.
  unfold Rsqr in Hh, Hv.
  replace (cos h * cos v * s * (cos h * cos v * s)
           + sin v * s * (sin v * s)
           + sin h * cos v * s * (sin h * cos v * s))
    with (s * s).
  - now apply sqrt_square.
  - transitivity (s * s * ((sin h * sin h + cos h * cos h) * (cos v * cos v)
                           + sin v * sin v)); [|ring].
    rewrite Hh. replace (1 * (cos v * cos v) + sin v * sin v)
      with (sin v * sin v + cos v * cos v) by ring.
    rewrite Hv. ring.
Qed.

(** ** The paddles *)

(** X17.  A hit turns the ball round: off the player's paddle it flies towards
    the AI, off the AI's paddle towards the player. *)
Theorem paddle_hit_turns_ball (this : PongGame) :
  0 < ballSpeed this ->
  (hitsPlayerPaddle this = true ->
     THREE.z (ballVelocity (playerPaddleCollision this)) < 0)
  /\ (hitsAiPaddle this = true ->
     0 < THREE.z (ballVelocity (aiPaddleCollision this))).
Proof.
  intros Hs. split; intros Hhit.
  - destruct (playerPaddleCollision_hit this Hhit) as (-> & _).
    rewrite bounce_ballVelocity.
    apply andb_prop in Hhit as [Hc _]. apply crossesPlayerPaddle_z in Hc.
    pose proof (length_pos_z (deflected (playerPaddle this) this)) as Hl.
    unfold THREE.multiplyScalar. cbn [THREE.z].
    unfold deflected at 1. cbn [THREE.z].
    assert (Hpos : 0 < ballSpeed this
                       / THREE.length (deflected (playerPaddle this) this)).
    { apply Rdiv_lt_0_compat; [assumption|]. apply Hl.
      unfold deflected. cbn [THREE.z]. lra. }
    nra.
  - destruct (aiPaddleCollision_hit this Hhit) as (-> & _).
    rewrite bounce_ballVelocity.
    apply andb_prop in Hhit as [Hc _]. apply crossesAiPaddle_z in Hc.
    pose proof (length_pos_z (deflected (aiPaddle this) this)) as Hl.
    unfold THREE.multiplyScalar. cbn [THREE.z].
    unfold deflected at 1. cbn [THREE.z].
    assert (Hpos : 0 < ballSpeed this
                       / THREE.length (deflected (aiPaddle this) this)).
    { apply Rdiv_lt_0_compat; [assumption|]. apply Hl.
      unfold deflected. cbn [THREE.z]. lra. }
    nra.
Qed.

Lemma clamp_inside (lo hi v : R) :
  lo <= v <= hi -> Math_max lo (Math_min hi v) = v.
Proof.
  intros H. unfold Math_max, Math_min, Rmax, Rmin.
  repeat destruct (Rle_dec _ _); lra.
Qed.

(** X18.  While the ball flies away from it, the AI's paddle stays where it is
    (once it is inside the volume it is clamped to). *)
Theorem updateAI_holds (deltaTime : R) (this : PongGame) :
  0 <= THREE.z (ballVelocity this) ->
  aiPaddleVolume (position (aiPaddle this)) ->
  position (aiPaddle (updateAI deltaTime this)) = position (aiPaddle this).
Proof.
  intros Hv (Hx & Hy & Hz). rewrite updateAI_waiting by assumption.
  rewrite !clamp_inside by assumption.
  now destruct (position (aiPaddle this)).
Qed.

(** X19.  In AR mode the paddle is put where the pointer ray meets the touch
    plane, when that point lies in the player's volume; without an anchor or
    an intersection it stays where it is. *)
Theorem pointer_places_paddle (event : PointerEvent) (this : PongGame) :
  debugMode (arScene this) = false ->
  (forall point, intersectionPoint event = Some point ->
     playerPaddleVolume point ->
     position (playerPaddle (updatePointerPosition event this)) = point)
  /\ (intersectionPoint event = None ->
      playerPaddle (updatePointerPosition event this) = playerPaddle this).
Proof.
  intros Hmode.
  assert (Hstart : forall (P : PongGame -> Prop),
    (forall t, playerPaddle t = playerPaddle this ->
       P (match intersectionPoint event with
          | Some point =>
              let move f (this : PongGame) :=
                set_playerPaddle
                  (set_position (f (position (playerPaddle this)))
                     (playerPaddle this)) this in
              let maxX := tableWidth / 2 - paddleWidth / 2 in
              let this := move (THREE.set_x
                (Math_max (- maxX) (Math_min maxX (THREE.x point)))) t in
              let verticalPos :=
                Math_max (tableHeight + paddleHeight / 2)
                  (Math_min (tableHeight + paddleVerticalRange)
                     (THREE.y point)) in
              let this := move (THREE.set_y verticalPos) this in
              let depthPos :=
                Math_max (tableDepth / 2 - paddleDepthRange)
                  (Math_min (tableDepth / 2) (THREE.z point)) in
              move (THREE.set_z depthPos) this
          | None => t
          end)) ->
    P (updatePointerPosition event this)).
  { intros P HP. unfold updatePointerPosition. cbv zeta.
    set (t := set_lastPointerPosition _ _).
    assert (Ht : debugMode (arScene t) = false /\
                 playerPaddle t = playerPaddle this).
    { subst t. destruct (pointerDown this); reads; now split. }
    destruct Ht as [Hd Hp]. rewrite Hd. apply (HP t Hp). }
  split.
  - intros point Hpoint (Hx & Hy & Hz). apply Hstart. intros t Ht.
    rewrite Hpoint. cbv zeta. reads.
    rewrite !clamp_inside by assumption. now destruct point.
  - intros Hnone. apply Hstart. intros t Ht. now rewrite Hnone.
Qed.

(** ** What [initialize] puts on the scene and [dispose] takes off *)

Lemma createParticleSystem_shape count this :
  exists k,
    snd (createParticleSystem count this)
    = set_arScene (set_nextId (S (nextId (arScene this))) (arScene this))
        (set_rngNext k this)
    /\ ps_id (fst (createParticleSystem count this)) = nextId (arScene this).
Proof.
  unfold createParticleSystem.
  pose proof (for_loop_ind
    (fun st : list R * list R * PongGame =>
       exists k, snd st = set_rngNext k this)
    createParticleSystem_body) as Hloop.
  specialize (Hloop (fun i st Hst =>
    ltac:(destruct st as [[c s] t]; cbn [snd] in *;
          destruct Hst as [k ->];
          unfold createParticleSystem_body, Math_random; cbn [snd];
          eexists; destruct this; fields; reflexivity))).
  assert (H0 : exists k, this = set_rngNext k this)
    by (exists (rngNext this); now destruct this).
  specialize (Hloop count
    (replicate (count * 3) 0, replicate count 0, this) H0).
  destruct (for_loop _ _ _) as [[c s] t]. cbn [snd] in Hloop.
  destruct Hloop as [k ->].
  unfold fresh, Scene.fresh. cbv beta iota. cbn [fst snd]. reads.
  exists k. split; [|reflexivity]. now destruct this.
Qed.

Lemma createParticlePool_shape this :
  exists sc pool k,
    createParticlePool this
    = set_arScene sc (set_particlePool pool (set_rngNext k this))
    /\ objects sc
       = objects (arScene this) ++ seq (nextId (arScene this)) 10
    /\ nextId sc = (nextId (arScene this) + 10)%nat
    /\ ps_id <$> pool
       = (ps_id <$> particlePool this) ++ seq (nextId (arScene this)) 10
    /\ debugMode sc = debugMode (arScene this).
Proof.
  unfold createParticlePool. generalize 10%nat. intros n.
  induction n as [|n IH].
  - exists (arScene this), (particlePool this), (rngNext this).
    unfold for_loop. cbn [seq fold_left].
    rewrite !app_nil_r, Nat.add_0_r. repeat split. now destruct this.
  - rewrite for_loop_S. destruct IH as (sc & pool & k & -> & Ho & Hn & Hp & Hd).
    unfold createParticlePool_body.
    destruct (createParticleSystem_shape 30
      (set_arScene sc (set_particlePool pool (set_rngNext k this))))
      as (k' & Hs & Hid).
    destruct (createParticleSystem 30 _) as [ps t]. cbn [fst snd] in *.
    subst t. cbv zeta.
    exists (set_objects (objects sc ++ [ps_id ps])
              (set_nextId (S (nextId sc)) sc)),
      (alter (set_visible false) (length (pool ++ [ps]) - 1)%nat
         (pool ++ [ps])),
      k'.
    split.
    { unfold addObject, Scene.addObject, with_ps.
      destruct this. fields. reflexivity. }
    reads. rewrite Hid. reads. rewrite Ho, Hn, seq_S, !app_assoc.
    split; [reflexivity|]. split; [lia|]. split; [|exact Hd].
    erewrite (list_fmap_alter ps_id _ (fun x : nat => x));
      [|apply Forall_true; intros x; reflexivity].
    rewrite list_alter_id by reflexivity.
    rewrite fmap_app, Hp. cbn [fmap list_fmap]. rewrite Hid. reads.
    now rewrite Hn.
Qed.

Lemma createMesh_shape p this :
  createMesh p this
  = ({| mesh_id := nextId (arScene this); position := p;
        rotation := THREE.Vec3 0 0 0 |},
     set_arScene
       (set_objects (objects (arScene this) ++ [nextId (arScene this)])
          (set_nextId (S (nextId (arScene this))) (arScene this)))
       this).
Proof. reflexivity. Qed.

Lemma createTable_objects this :
  objects (arScene (createTable this))
  = objects (arScene this) ++ [nextId (arScene this)]
  /\ nextId (arScene (createTable this)) = S (nextId (arScene this))
  /\ table (createTable this) = nextId (arScene this)
  /\ walls (createTable this) = walls this
  /\ particlePool (createTable this) = particlePool this
  /\ scoreIndicators (createTable this) = scoreIndicators this
  /\ debugMode (arScene (createTable this)) = debugMode (arScene this).
Proof. unfold createTable. rewrite createMesh_shape. now reads. Qed.

Lemma createBall_objects this :
  objects (arScene (createBall this))
  = objects (arScene this) ++ [nextId (arScene this)]
  /\ nextId (arScene (createBall this)) = S (nextId (arScene this))
  /\ mesh_id (ball (createBall this)) = nextId (arScene this)
  /\ table (createBall this) = table this
  /\ walls (createBall this) = walls this
  /\ particlePool (createBall this) = particlePool this
  /\ scoreIndicators (createBall this) = scoreIndicators this
  /\ debugMode (arScene (createBall this)) = debugMode (arScene this).
Proof. unfold createBall. cbv zeta. rewrite createMesh_shape. now reads. Qed.

Lemma createPaddles_objects this :
  objects (arScene (createPaddles this))
  = objects (arScene this)
    ++ [nextId (arScene this); S (nextId (arScene this))]
  /\ nextId (arScene (createPaddles this)) = S (S (nextId (arScene this)))
  /\ mesh_id (playerPaddle (createPaddles this)) = nextId (arScene this)
  /\ mesh_id (aiPaddle (createPaddles this)) = S (nextId (arScene this))
  /\ mesh_id (ball (createPaddles this)) = mesh_id (ball this)
  /\ table (createPaddles this) = table this
  /\ walls (createPaddles this) = walls this
  /\ particlePool (createPaddles this) = particlePool this
  /\ scoreIndicators (createPaddles this) = scoreIndicators this
  /\ debugMode (arScene (createPaddles this)) = debugMode (arScene this).
Proof.
  unfold createPaddles. rewrite createMesh_shape. cbv zeta.
  rewrite createMesh_shape. reads. rewrite <- app_assoc. now repeat split.
Qed.

Lemma createWalls_objects this :
  objects (arScene (createWalls this))
  = objects (arScene this)
    ++ [nextId (arScene this); S (nextId (arScene this))]
  /\ nextId (arScene (createWalls this)) = S (S (nextId (arScene this)))
  /\ walls (createWalls this)
     = walls this ++ [nextId (arScene this); S (nextId (arScene this))]
  /\ mesh_id (playerPaddle (createWalls this)) = mesh_id (playerPaddle this)
  /\ mesh_id (aiPaddle (createWalls this)) = mesh_id (aiPaddle this)
  /\ mesh_id (ball (createWalls this)) = mesh_id (ball this)
  /\ table (createWalls this) = table this
  /\ particlePool (createWalls this) = particlePool this
  /\ scoreIndicators (createWalls this) = scoreIndicators this
  /\ debugMode (arScene (createWalls this)) = debugMode (arScene this).
Proof.
  unfold createWalls. rewrite createMesh_shape. cbv zeta.
  rewrite createMesh_shape. reads. rewrite <- !app_assoc. now repeat split.
Qed.

(** What [initialize] puts on the scene, and where it keeps it. *)
Lemma initialize_objects (this : PongGame) :
  objects (arScene (initialize this))
  = objects (arScene this) ++ seq (nextId (arScene this)) 16
  /\ table (initialize this) = nextId (arScene this)
  /\ mesh_id (ball (initialize this)) = (1 + nextId (arScene this))%nat
  /\ mesh_id (playerPaddle (initialize this))
     = (2 + nextId (arScene this))%nat
  /\ mesh_id (aiPaddle (initialize this)) = (3 + nextId (arScene this))%nat
  /\ walls (initialize this)
     = walls this
       ++ [(4 + nextId (arScene this))%nat; (5 + nextId (arScene this))%nat]
  /\ ps_id <$> particlePool (initialize this)
     = (ps_id <$> particlePool this)
       ++ seq (6 + nextId (arScene this)) 10
  /\ scoreIndicators (initialize this) = scoreIndicators this
  /\ debugMode (arScene (initialize this)) = debugMode (arScene this).
Proof.
  unfold initialize.
  destruct (createTable_objects this) as (To & Tn & Tt & Tw & Tp & Ti & Td).
  set (t1 := createTable this) in *.
  destruct (createBall_objects t1) as (Bo & Bn & Bb & Bt & Bw & Bp & Bi & Bd).
  set (t2 := createBall t1) in *.
  destruct (createPaddles_objects t2)
    as (Po & Pn & Pp & Pa & Pb & Pt & Pw & Pl & Pi & Pd).
  set (t3 := createPaddles t2) in *.
  destruct (createWalls_objects t3)
    as (Wo & Wn & Ww & Wp & Wa & Wb & Wt & Wl & Wi & Wd).
  set (t4 := createWalls t3) in *.
  destruct (createParticlePool_shape t4)
    as (sc & pool & k & -> & Ho & Hn & Hp & Hd).
  cbv zeta. unfold bind_update, fresh, Scene.fresh. cbv beta iota zeta.
  match goal with |- context [resetBall true ?s] =>
    destruct (resetBall_true_shape s) as (placed & tos & -> & Hb)
  end.
  match goal with |- context [updateScoreDisplay ?s] =>
    destruct (updateScoreDisplay_shape s) as (shownPlayer & shownAi & ->)
  end.
  revert Hb. unfold Scene.addUpdateCallback. reads. intros ->.
  rewrite Ho, Hp, Hd, Wo, Wn, Ww, Wp, Wa, Wb, Wt, Wl, Wi, Wd.
  rewrite Po, Pn, Pp, Pa, Pb, Pt, Pw, Pl, Pi, Pd.
  rewrite Bo, Bn, Bb, Bt, Bw, Bp, Bi, Bd, To, Tn, Tt, Tw, Tp, Ti, Td.
  rewrite <- !app_assoc. cbn [app seq Nat.add].
  now repeat split.
Qed.
(** ** What [dispose] takes off the scene *)

Lemma detached_keeps a b :
  detached a b ->
  table b = table a /\ ball b = ball a /\ playerPaddle b = playerPaddle a
  /\ aiPaddle b = aiPaddle a /\ walls b = walls a
  /\ particlePool b = particlePool a
  /\ scoreIndicators b = scoreIndicators a.
Proof. intros (sc & au & ->). now reads. Qed.

Lemma swept_refl this : swept [] this this.
Proof. split; [apply detached_refl | reflexivity]. Qed.

Lemma swept_removeObject l a s o :
  swept l a s -> swept (l ++ [o]) a (removeObject o s).
Proof.
  intros [Hd Ho]. split.
  - eapply detached_trans; [exact Hd | apply detached_removeObject].
  - rewrite fold_left_app. cbn [fold_left]. rewrite <- Ho.
    unfold removeObject, Scene.removeObject, without. reads.
    now destruct (indexOf (objects (arScene s)) o).
Qed.

Lemma swept_fold_removeObject {A : Type} (f : A -> nat) (xs : list A) l a s :
  swept l a s ->
  swept (l ++ (f <$> xs)) a
    (fold_left (fun this x => removeObject (f x) this) xs s).
Proof.
  revert l s. induction xs as [|x xs IHxs]; intros l s Hs;
    cbn [fold_left fmap list_fmap].
  - now rewrite app_nil_r.
  - change (f x :: (f <$> xs)) with ([f x] ++ (f <$> xs)).
    rewrite app_assoc. apply IHxs, swept_removeObject, Hs.
Qed.

Lemma swept_detached l a s t :
  swept l a s -> detached s t -> objects (arScene t) = objects (arScene s) ->
  swept l a t.
Proof.
  intros [Hd Ho] Hst Hobj. split.
  - eapply detached_trans; eassumption.
  - now rewrite Hobj.
Qed.

Ltac sweep :=
  match goal with
  | H : ?t = removeObject ?o ?s, A : swept ?l ?a ?s |- _ =>
      let A' := fresh "A" in
      pose proof (swept_removeObject l a s o A) as A';
      rewrite <- H in A';
      destruct (detached_keeps _ _ (proj1 A))
        as (Et & Eb & Ep & Ea & Ew & El & Ei);
      rewrite ?Et, ?Eb, ?Ep, ?Ea in A';
      clear H A Et Eb Ep Ea Ew El Ei
  | H : ?t = fold_left (fun this x => removeObject (?f x) this) ?xs ?s,
    A : swept ?l ?a ?s |- _ =>
      let A' := fresh "A" in
      pose proof (swept_fold_removeObject f xs l a s A) as A';
      cbv beta in H; rewrite <- H in A';
      destruct (detached_keeps _ _ (proj1 A))
        as (Et & Eb & Ep & Ea & Ew & El & Ei);
      rewrite ?Ew, ?El, ?Ei in A';
      clear H A Et Eb Ep Ea Ew El Ei
  end.

(** [dispose] removes from the scene, in this order, the table, the
    ball, the two paddles, the walls, the pooled particle systems and
    the score indicators, each by [indexOf] and [splice]. *)
Lemma dispose_objects (this : PongGame) :
  objects (arScene (dispose this))
  = fold_left without
      ([table this; mesh_id (ball this); mesh_id (playerPaddle this);
        mesh_id (aiPaddle this)]
       ++ walls this ++ (ps_id <$> particlePool this)
       ++ (sprite_id <$> scoreIndicators this))
      (objects (arScene this)).
Proof.
  pose proof (swept_refl this) as A.
  set (goal := fun r : PongGame =>
    objects (arScene r)
    = fold_left without
        ([table this; mesh_id (ball this); mesh_id (playerPaddle this);
          mesh_id (aiPaddle this)]
         ++ walls this ++ (ps_id <$> particlePool this)
         ++ (sprite_id <$> scoreIndicators this))
        (objects (arScene this))).
  change (goal (dispose this)).
  pattern (dispose this); apply name_value; intros r Hr; revert Hr.
  cbv beta delta [dispose]; exec; intros Hr.
  do 4 sweep.
  match goal with
  | H : ?t = fold_left _ ?xs ?s, A : swept ?l ?a ?s |- _ =>
      pose proof (swept_fold_removeObject (fun wall : nat => wall) xs l a s A)
        as A';
      cbv beta in A'; rewrite <- H in A';
      destruct (detached_keeps _ _ (proj1 A)) as (_ & _ & _ & _ & Ew & _);
      rewrite Ew, list_fmap_id in A'; clear H A Ew
  end.
  do 2 sweep.
  match goal with
  | H : ?t = match audioContext ?s with _ => _ end, A : swept ?l ?a ?s |- _ =>
      assert (A' : swept l a t)
        by (rewrite H; apply (swept_detached _ _ _ _ A);
            destruct (audioContext s) as [ctx|]; try destruct (closed ctx);
            first [apply detached_refl | apply detached_set_audioContext
                  | reflexivity]);
      clear H A
  end.
  match goal with H : bind_update _ = (_, _) |- _ =>
    unfold bind_update, fresh, Scene.fresh in H; cbv beta iota in H;
    injection H as <- <- end.
  subst goal. cbv beta.
  destruct A' as [_ Ho].
  repeat match goal with H : ?t = _ |- _ => is_var t; subst t end.
  unfold Scene.removeUpdateCallback. reads.
  match goal with |- context [indexOf ?l ?o] => destruct (indexOf l o) end;
    reads; rewrite Ho; cbn [app]; rewrite <- ?app_assoc; reflexivity.
Qed.

Lemma without_app_fresh (l rest : list nat) (o : nat) :
  o ∉ l -> without (l ++ o :: rest) o = l ++ rest.
Proof.
  intros Hout. unfold without, indexOf.
  destruct (list_find _ _) as [[i x]|] eqn:Hfind; cbn.
  - apply list_find_Some in Hfind as (Hin & -> & Hfirst).
    destruct (Nat.lt_total i (length l)) as [Hlt|[->|Hgt]].
    + rewrite lookup_app_l in Hin by assumption.
      exfalso. apply Hout. eapply list_elem_of_lookup_2, Hin.
    + apply delete_middle.
    + exfalso. apply (Hfirst (length l) o); [|exact Hgt|reflexivity].
      now rewrite list_lookup_middle.
  - apply list_find_None in Hfind. rewrite Forall_app, Forall_cons in Hfind.
    now destruct Hfind as (_ & Hno & _).
Qed.

Lemma without_seq (k n : nat) (l : list nat) :
  Forall (fun o => (o < n)%nat) l ->
  fold_left without (seq n k) (l ++ seq n k) = l.
Proof.
  revert n. induction k as [|k IHk]; intros n Hl; cbn [seq fold_left].
  - apply app_nil_r.
  - rewrite without_app_fresh.
    + apply IHk. eapply Forall_impl; [exact Hl|]. cbv beta. intros; lia.
    + intros Hin. rewrite Forall_forall in Hl. apply Hl in Hin. lia.
Qed.

(** X15.  Initialising a game and disposing of it leaves the scene's object
    list as it was, provided the scene's objects are objects the scene has
    handed out. *)
Theorem dispose_detaches (scene : ARScene) (host : Host) :
  objectsAllocated scene ->
  objects (arScene (dispose (initialize (constructor scene host))))
  = objects scene.
Proof.
  intros Hscene. rewrite dispose_objects.
  destruct (initialize_objects (constructor scene host))
    as (-> & -> & -> & -> & -> & -> & -> & -> & _).
  change (arScene (constructor scene host)) with scene.
  change (walls (constructor scene host)) with (@nil nat).
  change (particlePool (constructor scene host)) with (@nil ParticleSystem).
  change (scoreIndicators (constructor scene host)) with (@nil Sprite).
  cbn [fmap list_fmap app]. rewrite app_nil_r.
  exact (without_seq 16 (nextId scene) (objects scene) Hscene).
Qed.
(** ** Sample sessions for the properties above *)

(** The first frame of a session on the sample page. *)
Lemma firstFrame_reachable :
  reachable (update 1 newGame).
Proof. apply reachable_update. apply reachable_initialize. Qed.

(** After the first frame the game is at level 1 with speed 0.5. *)
Lemma session_speed_witness :
  reachable (update 1 newGame)
  /\ (1 <= gameLevel (update 1 newGame))%nat
  /\ 0.5 <= ballSpeed (update 1 newGame) <= 0.8.
Proof.
  pose proof firstFrame_reachable as Hr.
  destruct (session_speed _ Hr) as (Hl & Hs & _).
  exact (conj Hr (conj Hl Hs)).
Defined.

Lemma session_pool_size_witness :
  reachable (update 1 newGame)
  /\ length (particlePool (update 1 newGame)) = 10%nat.
Proof.
  pose proof firstFrame_reachable as Hr.
  exact (conj Hr (session_pool_size _ Hr)).
Defined.

Lemma session_playerPaddle_witness :
  reachable (update 1 newGame)
  /\ playerPaddleVolume (position (playerPaddle (update 1 newGame))).
Proof.
  pose proof firstFrame_reachable as Hr.
  exact (conj Hr (session_playerPaddle _ Hr)).
Defined.

Lemma session_ball_contained_witness :
  reachable (update 1 newGame)
  /\ ballWithinWalls (update 1 newGame)
  /\ ballWithinHeight (update 1 newGame).
Proof.
  pose proof firstFrame_reachable as Hr.
  exact (conj Hr (session_ball_contained _ Hr)).
Defined.


Lemma session_aiPaddle_witness :
  reachable (update 1 newGame)
  /\ aiPaddleVolume (position (aiPaddle (update 1 newGame))).
Proof.
  pose proof firstFrame_reachable as Hr.
  exact (conj Hr (proj1 (session_aiPaddle _ Hr))).
Defined.

(** The first emission of a new game takes slot 0. *)
Lemma emitParticles_takes_first_free_witness :
  exists ps,
    particlePool newGame !! 0%nat = Some ps
    /\ active ps = false
    /\ particles (emitParticles (THREE.Vec3 0 0 0) (THREE.Color_hex 0x3388ff)
                    20 0.1 newGame)
       = particles newGame ++ [0%nat].
Proof.
  destruct newGame_pool as (_ & _ & ps & Hfind & _).
  apply list_find_Some in Hfind as (Hps & Hfree & _).
  exists ps.
  assert (Hfirst : forall earlier ps', (earlier < 0)%nat ->
            particlePool newGame !! earlier = Some ps' -> active ps' = true)
    by (intros; lia).
  destruct (emitParticles_takes_first_free (THREE.Vec3 0 0 0)
              (THREE.Color_hex 0x3388ff) 20 0.1 newGame 0%nat ps
              Hps Hfree Hfirst) as (Hlive & _).
  exact (conj Hps (conj Hfree Hlive)).
Defined.

(** A callback put on the empty scene and taken off again. *)
Lemma removeUpdateCallback_round_trip_witness :
  (0%nat ∉ onUpdateCallbacks (emptyScene false))
  /\ Scene.removeUpdateCallback 0
       (Scene.addUpdateCallback 0 (emptyScene false))
     = emptyScene false.
Proof.
  assert (Hout : 0%nat ∉ onUpdateCallbacks (emptyScene false))
    by apply not_elem_of_nil.
  exact (conj Hout
           (proj1 (removeUpdateCallback_round_trip 0 (emptyScene false) Hout))).
Defined.

Lemma steepPage_drawnZ :
  drawnZ (constructor (emptyScene false) steepPage) = 0.5.
Proof.
  unfold drawnZ, horizontalAngle, verticalAngle.
  cbn [constructor rng rngNext ballSpeed randoms steepPage].
  replace (0.25 * PI * 2) with (PI / 2) by lra.
  replace ((0.5 - 0.5) * PI * 0.3) with 0 by lra.
  rewrite sin_PI2, cos_0. lra.
Qed.

(** On [steepPage] the serve is drawn straight down the table and leaves
    with speed [ballSpeed]. *)
Lemma launchBall_exact_speed_witness :
  0 <= ballSpeed (constructor (emptyScene false) steepPage)
  /\ 0.3 <= Rabs (drawnZ (constructor (emptyScene false) steepPage))
  /\ THREE.length
       (ballVelocity (launchBall (constructor (emptyScene false) steepPage)))
     = ballSpeed (constructor (emptyScene false) steepPage).
Proof.
  assert (Hs : 0 <= ballSpeed (constructor (emptyScene false) steepPage))
    by (cbn [constructor ballSpeed]; lra).
  assert (Hz : 0.3 <= Rabs (drawnZ (constructor (emptyScene false) steepPage)))
    by (rewrite steepPage_drawnZ, Rabs_right; lra).
  exact (conj Hs (conj Hz (launchBall_exact_speed _ Hs Hz))).
Defined.

(** At [volley] the ball leaves the player's paddle towards the AI. *)
Lemma paddle_hit_turns_ball_witness :
  0 < ballSpeed volley
  /\ hitsPlayerPaddle volley = true
  /\ THREE.z (ballVelocity (playerPaddleCollision volley)) < 0.
Proof.
  assert (Hfast : 0 < ballSpeed volley) by (sample; lra).
  exact (conj Hfast (conj volley_hits
           (proj1 (paddle_hit_turns_ball volley Hfast) volley_hits))).
Defined.

(** Before the first serve the ball is at rest and the AI's paddle does
    not move. *)
Lemma updateAI_holds_witness :
  0 <= THREE.z (ballVelocity newGame)
  /\ aiPaddleVolume (position (aiPaddle newGame))
  /\ position (aiPaddle (updateAI 1 newGame)) = position (aiPaddle newGame).
Proof.
  assert (Hrest : 0 <= THREE.z (ballVelocity newGame)) by (sample; lra).
  assert (Hin : aiPaddleVolume (position (aiPaddle newGame)))
    by (unfold aiPaddleVolume; sample; consts; lra).
  exact (conj Hrest (conj Hin (updateAI_holds 1 newGame Hrest Hin))).
Defined.

Lemma newGame_debugMode : debugMode (arScene newGame) = false.
Proof.
  unfold newGame.
  destruct (initialize_objects (constructor (emptyScene false) page))
    as (_ & _ & _ & _ & _ & _ & _ & _ & ->).
  reflexivity.
Qed.

(** In AR mode the touch [tap] puts the paddle of a new game where its
    ray meets the touch plane. *)
Lemma pointer_places_paddle_witness :
  debugMode (arScene newGame) = false
  /\ playerPaddleVolume (THREE.Vec3 0.1 0.085 0.6)
  /\ position (playerPaddle (updatePointerPosition tap newGame))
     = THREE.Vec3 0.1 0.085 0.6.
Proof.
  assert (Hin : playerPaddleVolume (THREE.Vec3 0.1 0.085 0.6))
    by (unfold playerPaddleVolume; cbn [THREE.x THREE.y THREE.z]; consts; lra).
  exact (conj newGame_debugMode (conj Hin
           (proj1 (pointer_places_paddle tap newGame newGame_debugMode)
              (THREE.Vec3 0.1 0.085 0.6) eq_refl Hin))).
Defined.

(** A game initialised on the empty scene and disposed of leaves the
    scene empty. *)
Lemma dispose_detaches_witness :
  objectsAllocated (emptyScene false)
  /\ objects (arScene (dispose (initialize
                (constructor (emptyScene false) page))))
     = objects (emptyScene false).
Proof.
  assert (Hsc : objectsAllocated (emptyScene false)) by apply Forall_nil_2.
  exact (conj Hsc (dispose_detaches (emptyScene false) page Hsc)).
Defined.
(** * The debug panel *)

Lemma removeChild_child (node : nat) (children : list nat) :
  node ∈ children ->
  exists index,
    Debug.removeChild node children = Some (delete index children)
    /\ children !! index = Some node.
Proof.
  intros Hin. unfold Debug.removeChild, indexOf.
  destruct (list_find_elem_of (fun o' => o' = node) children node Hin eq_refl)
    as [[index found] Hfind].
  rewrite Hfind. cbn. exists index. split; [reflexivity|].
  apply list_find_Some in Hfind as (Hlookup & -> & _). exact Hlookup.
Qed.

Lemma elem_of_delete_other (l : list nat) (index x y : nat) :
  x ∈ l -> l !! index = Some y -> x <> y -> x ∈ delete index l.
Proof.
  intros Hx Hy Hneq. apply list_elem_of_lookup in Hx as [j Hj].
  destruct (Nat.lt_total j index) as [Hlt|[->|Hgt]].
  - apply list_elem_of_lookup. exists j. now rewrite list_lookup_delete_lt.
  - congruence.
  - apply list_elem_of_lookup. exists (pred j).
    rewrite list_lookup_delete_ge by lia.
    now replace (S (pred j)) with j by lia.
Qed.

Lemma consistent_constructor panel content visible next :
  (forall children, content = Some children ->
     Forall (fun node => (node < next)%nat) children) ->
  Debug.consistent (Debug.constructor panel content visible next).
Proof.
  intros Hdoc. unfold Debug.constructor, Debug.consistent. cbv zeta.
  destruct content as [children|]; cbn.
  - exists children. repeat split; try lia; try constructor.
    now apply Hdoc.
  - unfold Debug.createDebugPanel. destruct panel; cbn;
      exists []; repeat split; try lia; constructor.
Qed.

(** What one [addEntry] does to a consistent utility. *)
Lemma addEntry_spec type text now this :
  Debug.consistent this ->
  let entry :=
    {| Debug.entry_id := Debug.nextElement this; Debug.className := type;
       Debug.timestamp := now; Debug.message := text |} in
  exists after,
    Debug.addEntry type text now this = Normal after
    /\ Debug.consistent after
    /\ Debug.entries after
       = drop (length (Debug.entries this) + 1 - 100)
           (Debug.entries this ++ [entry])
    /\ Debug.hasPanel after = Debug.hasPanel this
    /\ Debug.panelVisible after = Debug.panelVisible this.
Proof.
  intros (children & Hc & Hmax & Hlen & Hdup & Hin & Hlt) entry.
  unfold Debug.addEntry. rewrite Hc. cbv zeta.
  unfold Debug.createElement. cbn -[Nat.ltb drop]. rewrite Hc, Hmax.
  fold entry. rewrite length_app. cbn [length].
  destruct (Nat.ltb_spec 100 (length (Debug.entries this) + 1))
    as [Hfull|Hroom].
  - destruct (Debug.entries this) as [|oldest rest] eqn:He;
      [cbn in Hfull; lia|].
    cbn [app]. cbn [length] in Hlen, Hfull.
    apply Forall_cons in Hin as [Hold Hin].
    cbn [fmap list_fmap] in Hdup. apply NoDup_cons in Hdup as [Hfresh Hdup].
    destruct (removeChild_child (Debug.entry_id oldest)
                (children ++ [Debug.nextElement this])) as (index & -> & Hat).
    { apply elem_of_app. now left. }
    eexists. split; [reflexivity|]. cbn -[drop].
    assert (Hnew : forall e, e ∈ rest ->
              Debug.entry_id e <> Debug.nextElement this).
    { intros e He'. rewrite Forall_forall in Hin. rewrite Forall_forall in Hlt.
      pose proof (Hlt _ (Hin _ He')). lia. }
    split; [|split; [|split; reflexivity]].
    + exists (delete index (children ++ [Debug.nextElement this])).
      split; [reflexivity|]. split; [exact Hmax|]. cbn.
      split; [rewrite length_app; cbn [length]; lia|].
      split; [|split].
      * rewrite fmap_app. cbn [fmap list_fmap]. apply NoDup_app.
        split; [exact Hdup|]. split; [|apply NoDup_singleton].
        intros x Hx Hx'. apply list_elem_of_singleton in Hx'. subst x.
        apply list_elem_of_fmap in Hx as (e & Hid & He').
        now apply (Hnew e He').
      * apply Forall_app. split.
        -- rewrite Forall_forall in Hin |- *. intros e He'.
           apply (elem_of_delete_other _ _ _ _
                    ltac:(apply elem_of_app; left; exact (Hin _ He')) Hat).
           intros Heq. apply Hfresh. rewrite <- Heq.
           apply list_elem_of_fmap. now exists e.
        -- constructor; [|constructor].
           apply (elem_of_delete_other _ _ _ _
                    ltac:(apply elem_of_app; right; now left) Hat).
           cbn. rewrite Forall_forall in Hlt. pose proof (Hlt _ Hold). lia.
      * apply Forall_delete, Forall_app. split.
        -- eapply Forall_impl; [exact Hlt|]. cbv beta. intros; lia.
        -- constructor; [lia|constructor].
    + match goal with |- context [drop ?n _] =>
        replace n with 1%nat by lia end.
      reflexivity.
  - eexists. split; [reflexivity|]. cbn -[drop].
    split; [|split; [|split; reflexivity]].
    + exists (children ++ [Debug.nextElement this]).
      split; [reflexivity|]. split; [exact Hmax|]. cbn.
      split; [rewrite length_app; cbn [length]; lia|].
      split; [|split].
      * rewrite fmap_app. cbn [fmap list_fmap]. apply NoDup_app.
        split; [exact Hdup|]. split; [|apply NoDup_singleton].
        intros x Hx Hx'. apply list_elem_of_singleton in Hx'. subst x.
        apply list_elem_of_fmap in Hx as (e & Hid & He').
        rewrite Forall_forall in Hin. rewrite Forall_forall in Hlt.
        pose proof (Hlt _ (Hin _ He')). subst entry. cbn in Hid. lia.
      * apply Forall_app. split.
        -- eapply Forall_impl; [exact Hin|]. cbv beta. intros e He'.
           apply elem_of_app. now left.
        -- constructor; [|constructor]. apply elem_of_app. right. now left.
      * apply Forall_app. split.
        -- eapply Forall_impl; [exact Hlt|]. cbv beta. intros; lia.
        -- constructor; [lia|constructor].
    + match goal with |- context [drop ?n _] =>
        replace n with 0%nat by lia end.
      reflexivity.
Qed.

Lemma consistent_error text now this :
  Debug.consistent this ->
  Debug.consistent (stateOf (Debug.error text now this)).
Proof.
  intros Hc. unfold Debug.error.
  destruct (addEntry_spec Debug.Error text now this Hc)
    as (after & -> & Hafter & _).
  destruct Hafter as (children & H1 & H2 & H3 & H4 & H5 & H6).
  destruct (Debug.hasPanel after); cbn [stateOf];
    exists children; now repeat split.
Qed.

Lemma consistent_clear this :
  Debug.consistent this -> Debug.consistent (Debug.clear this).
Proof.
  intros (children & Hc & Hmax & _). unfold Debug.clear. rewrite Hc.
  exists []. cbn. repeat split; try assumption; try lia; constructor.
Qed.

Lemma consistent_onWindowError this :
  Debug.consistent this ->
  Debug.consistent (stateOf (Debug.onWindowError this)).
Proof.
  intros (children & Hc & Hmax & Hlen & Hdup & Hin & Hlt).
  unfold Debug.onWindowError. rewrite Hc.
  unfold Debug.createElement. cbv zeta.
  cbn [Debug.hasPanel Debug.set_debugContent Debug.set_nextElement].
  destruct (Debug.hasPanel this); cbn [stateOf];
    exists (children ++ [Debug.nextElement this]); cbn.
  all: split; [reflexivity|].
  all: split; [exact Hmax|].
  all: split; [exact Hlen|].
  all: split; [exact Hdup|].
  all: split;
    [eapply Forall_impl; [exact Hin|]; cbv beta; intros e He;
     apply elem_of_app; now left|].
  all: apply Forall_app; split;
    [eapply Forall_impl; [exact Hlt|]; cbv beta; intros; lia
    |constructor; [lia|constructor]].
Qed.

Lemma reachable_consistent this :
  Debug.reachable this -> Debug.consistent this.
Proof.
  induction 1 as [panel content visible next Hdoc|text now this _ IH
                 |text now this _ IH|text now this _ IH|this _ IH|this _ IH].
  - now apply consistent_constructor.
  - unfold Debug.log.
    destruct (addEntry_spec Debug.Log text now this IH) as (after & -> & H & _).
    exact H.
  - unfold Debug.warn.
    destruct (addEntry_spec Debug.Warn text now this IH)
      as (after & -> & H & _).
    exact H.
  - now apply consistent_error.
  - now apply consistent_clear.
  - now apply consistent_onWindowError.
Qed.

(** X22.  A utility in use never holds more than 100 entries, and every entry
    it holds is a child of the content element. *)
Theorem debug_entries_bounded (this : Debug.DebugUtility) :
  Debug.reachable this ->
  (length (Debug.entries this) <= 100)%nat
  /\ exists children,
       Debug.debugContent this = Some children
       /\ Forall (fun entry => Debug.entry_id entry ∈ children)
            (Debug.entries this).
Proof.
  intros Hr.
  destruct (reachable_consistent this Hr)
    as (children & Hc & _ & Hlen & _ & Hin & _).
  split; [exact Hlen|]. now exists children.
Qed.

(** X23.  On a utility in use [addEntry] returns, and the entries it leaves
    are the latest hundred of those before it and the new one, in the order
    they were written. *)
Theorem debug_addEntry_keeps_latest (type : Debug.Level)
    (text now : String.string) (this : Debug.DebugUtility) :
  Debug.reachable this ->
  exists after,
    Debug.addEntry type text now this = Normal after
    /\ Debug.entries after
       = drop (length (Debug.entries this) + 1 - 100)
           (Debug.entries this
            ++ [{| Debug.entry_id := Debug.nextElement this;
                   Debug.className := type; Debug.timestamp := now;
                   Debug.message := text |}]).
Proof.
  intros Hr.
  destruct (addEntry_spec type text now this (reachable_consistent this Hr))
    as (after & Hadd & _ & Hentries & _).
  exists after. split; [exact Hadd | exact Hentries].
Qed.

(** X24.  [error] writes its entry and then shows the panel; on a document
    without a panel it throws once the entry is written. *)
Theorem debug_error_needs_panel (text now : String.string)
    (this : Debug.DebugUtility) :
  Debug.reachable this ->
  exists after,
    last (Debug.entries after)
    = Some {| Debug.entry_id := Debug.nextElement this;
              Debug.className := Debug.Error; Debug.timestamp := now;
              Debug.message := text |}
    /\ Debug.error text now this
       = if Debug.hasPanel this
         then Normal (Debug.set_panelVisible true after)
         else Throw after.
Proof.
  intros Hr. unfold Debug.error.
  destruct (addEntry_spec Debug.Error text now this
              (reachable_consistent this Hr))
    as (after & -> & _ & Hentries & Hpanel & _).
  exists after. rewrite Hpanel. split; [|reflexivity].
  rewrite Hentries.
  set (entry := {| Debug.entry_id := Debug.nextElement this;
                   Debug.className := Debug.Error; Debug.timestamp := now;
                   Debug.message := text |}).
  destruct (reachable_consistent this Hr) as (_ & _ & _ & Hlen & _).
  assert (Hdrop : exists front,
            drop (length (Debug.entries this) + 1 - 100)
              (Debug.entries this ++ [entry]) = front ++ [entry]).
  { exists (drop (length (Debug.entries this) + 1 - 100)
              (Debug.entries this)).
    rewrite drop_app_le by lia. reflexivity. }
  destruct Hdrop as [front ->]. apply last_snoc.
Qed.
(** * The application *)

Lemma dispose_allocated (this : PongGame) :
  callbacksAllocated (arScene this) -> allocated 1 this (dispose this).
Proof.
  intros Hsc.
  assert (Hall : forall t, allocated 0 this t ->
            callbacksAllocated (arScene t)).
  { intros t [Hc Hn]. unfold callbacksAllocated. rewrite Hc, Hn.
    now rewrite Nat.add_0_r. }
  run dispose (dispose this).
  pose proof (allocated_refl this) as A.
  do 4 allocate 0%nat allocated_removeObject.
  allocate 0%nat (allocated_fold_removeObject (fun wall : nat => wall)).
  allocate 0%nat (allocated_fold_removeObject ps_id).
  allocate 0%nat (allocated_fold_removeObject sprite_id).
  match goal with H : ?t = match audioContext ?s with _ => _ end |- _ =>
    assert (A' : allocated 0 s t)
      by (rewrite H; apply allocated_same;
          destruct (audioContext s) as [ctx|]; [destruct (closed ctx)|];
          now reads);
    clear H end.
  match goal with A : allocated _ this _ |- _ =>
    pose proof (allocated_trans _ _ _ _ _ A A') as A8 end.
  match goal with H : bind_update _ = (_, _) |- _ =>
    unfold bind_update, fresh, Scene.fresh in H; cbv beta iota in H;
    injection H as <- <- end.
  repeat match goal with H : ?t = _ |- _ => is_var t; subst t; reads end.
  unfold allocated, Scene.removeUpdateCallback. reads.
  rewrite (indexOf_unallocated _ (Hall _ A8)). reads.
  destruct A8 as [-> ->]. split; [reflexivity|lia].
Qed.

(** One load of the pong experience: whatever game there was is disposed
    of, and the scene ends with one callback more. *)
Lemma loadExperience_pong (host : Host) (this : App) :
  callbacksAllocated (app_arScene this) ->
  callbacksAllocated (app_arScene (loadExperience host "pong"%string this))
  /\ exists callback,
       onUpdateCallbacks (app_arScene (loadExperience host "pong"%string this))
       = onUpdateCallbacks (app_arScene this) ++ [callback].
Proof.
  intros Hsc. unfold loadExperience.
  change (String.eqb "pong"%string "pong"%string) with true. cbv iota zeta.
  set (cleared := match pongGame this with
                  | Some game => _
                  | None => this
                  end).
  assert (Hcleared :
    callbacksAllocated (app_arScene cleared)
    /\ onUpdateCallbacks (app_arScene cleared)
       = onUpdateCallbacks (app_arScene this)).
  { subst cleared. destruct (pongGame this) as [game|]; [|now split].
    cbn [app_arScene set_app_arScene set_pongGame].
    assert (Hgame : callbacksAllocated
                      (arScene (set_arScene (app_arScene this) game)))
      by (reads; exact Hsc).
    destruct (dispose_allocated _ Hgame) as [Hc Hn].
    revert Hc Hn. reads. intros Hc Hn. split; [|exact Hc].
    unfold callbacksAllocated. rewrite Hc, Hn.
    eapply Forall_impl; [exact Hsc|]. cbv beta. intros; lia. }
  clearbody cleared. destruct Hcleared as [Hsc' Hsame].
  cbn [app_arScene set_app_arScene set_pongGame].
  destruct (initialize_allocated (constructor (app_arScene cleared) host))
    as [Hc Hn].
  split.
  - apply initialize_callbacksAllocated. exact Hsc'.
  - eexists. rewrite Hc. change (arScene (constructor ?sc host)) with sc.
    now rewrite Hsame.
Qed.

(** X21.  Loads of the pong experience pile up frame callbacks on the scene:
    each one registers a callback and none takes one off, so after [n] loads
    the scene calls [n] callbacks more than before, the old ones first. *)
Theorem loadExperience_accumulates_callbacks (host : Host) (n : nat)
    (this : App) :
  callbacksAllocated (app_arScene this) ->
  exists added,
    onUpdateCallbacks
      (app_arScene (Nat.iter n (loadExperience host "pong"%string) this))
    = onUpdateCallbacks (app_arScene this) ++ added
    /\ length added = n.
Proof.
  intros Hsc.
  assert (H : callbacksAllocated
                (app_arScene
                   (Nat.iter n (loadExperience host "pong"%string) this))
              /\ exists added,
                   onUpdateCallbacks
                     (app_arScene
                        (Nat.iter n (loadExperience host "pong"%string) this))
                   = onUpdateCallbacks (app_arScene this) ++ added
                   /\ length added = n).
  { induction n as [|n [IHsc (added & IHc & IHlen)]];
      [|change (Nat.iter (S n) (loadExperience host "pong"%string) this)
          with (loadExperience host "pong"%string
                  (Nat.iter n (loadExperience host "pong"%string) this))].
    - split; [exact Hsc|]. exists []. now rewrite app_nil_r.
    - destruct (loadExperience_pong host _ IHsc) as (Hsc' & callback & Hc).
      split; [exact Hsc'|]. exists (added ++ [callback]).
      rewrite Hc, IHc, app_assoc. split; [reflexivity|].
      rewrite length_app. cbn [length]. lia. }
  apply H.
Qed.

(** Three loads on an empty scene leave three callbacks. *)
Lemma loadExperience_accumulates_callbacks_witness :
  callbacksAllocated (app_arScene idleApp)
  /\ exists added,
       onUpdateCallbacks
         (app_arScene
            (Nat.iter 3 (loadExperience page "pong"%string) idleApp))
       = added
       /\ length added = 3%nat.
Proof.
  assert (Hsc : callbacksAllocated (app_arScene idleApp))
    by apply Forall_nil_2.
  split; [exact Hsc|].
  exact (loadExperience_accumulates_callbacks page 3 idleApp Hsc).
Defined.
(** ** Sample logs *)

Lemma emptyLog_reachable : Debug.reachable emptyLog.
Proof.
  apply Debug.reachable_constructor. intros children [= <-]. constructor.
Qed.

Lemma fullLog_reachable : Debug.reachable fullLog.
Proof.
  unfold fullLog. generalize 100%nat. intros n.
  induction n as [|n IH].
  - exact emptyLog_reachable.
  - change (Debug.reachable
              (stateOf (Debug.log "frame"%string "12:00:00"%string
                 (Nat.iter n
                    (fun this =>
                       stateOf (Debug.log "frame"%string "12:00:00"%string
                                  this))
                    emptyLog)))).
    now apply Debug.reachable_log.
Qed.

Lemma bareLog_reachable : Debug.reachable bareLog.
Proof.
  apply Debug.reachable_constructor. intros children [= <-]. constructor.
Qed.

Lemma debug_entries_bounded_witness :
  Debug.reachable fullLog /\ (length (Debug.entries fullLog) <= 100)%nat.
Proof.
  exact (conj fullLog_reachable
           (proj1 (debug_entries_bounded fullLog fullLog_reachable))).
Defined.

(** A warning written to the full log. *)
Lemma debug_addEntry_keeps_latest_witness :
  Debug.reachable fullLog
  /\ exists after,
       Debug.addEntry Debug.Warn "late"%string "12:00:01"%string fullLog
       = Normal after.
Proof.
  split; [exact fullLog_reachable|].
  destruct (debug_addEntry_keeps_latest Debug.Warn "late"%string
              "12:00:01"%string fullLog fullLog_reachable)
    as (after & Hadd & _).
  exists after. exact Hadd.
Defined.

(** An error reported on the document without a panel. *)
Lemma debug_error_needs_panel_witness :
  Debug.reachable bareLog
  /\ exists after,
       Debug.error "lost"%string "12:00:02"%string bareLog = Throw after.
Proof.
  split; [exact bareLog_reachable|].
  destruct (debug_error_needs_panel "lost"%string "12:00:02"%string bareLog
              bareLog_reachable) as (after & _ & Herror).
  exists after. exact Herror.
Defined.
(** ** The trail *)

Lemma lookup_app_add (l1 l2 : list R) (i : nat) :
  (l1 ++ l2) !! (length l1 + i)%nat = l2 !! i.
Proof. induction l1 as [|x l1 IH]; [reflexivity | exact IH]. Qed.

Lemma trail_triple (pre post : list R) (a b c x y z : R)
    (i0 i1 i2 j0 j1 j2 : nat) :
  j0 = (length pre + 0)%nat -> j1 = (length pre + 1)%nat ->
  j2 = (length pre + 2)%nat ->
  i0 = (length pre + 3)%nat -> i1 = (length pre + 4)%nat ->
  i2 = (length pre + 5)%nat ->
  let s0 := pre ++ [a; b; c; x; y; z] ++ post in
  let s1 := array_set s0 i0 (array_get s0 j0) in
  let s2 := array_set s1 i1 (array_get s1 j1) in
  array_set s2 i2 (array_get s2 j2) = pre ++ [a; b; c; a; b; c] ++ post.
Proof.
  intros -> -> -> -> -> ->. unfold array_set, array_get. cbv zeta.
  rewrite lookup_app_add, insert_app_r. cbn.
  rewrite lookup_app_add, insert_app_r. cbn.
  rewrite lookup_app_add, insert_app_r. cbn.
  reflexivity.
Qed.

Lemma split_two_triples (s : list R) (k : nat) :
  (k + 6 <= length s)%nat ->
  exists pre a b c x y z post,
    s = pre ++ [a; b; c; x; y; z] ++ post /\ length pre = k.
Proof.
  intros Hlen. exists (take k s).
  pose proof (take_drop k s) as Hs.
  assert (Hd : (6 <= length (drop k s))%nat) by (rewrite length_drop; lia).
  destruct (drop k s) as [|a [|b [|c [|x [|y [|z post]]]]]];
    cbn [length] in Hd; try lia.
  exists a, b, c, x, y, z, post. split; [symmetry; exact Hs|].
  rewrite length_take. lia.
Qed.

(** The loop of [updateTrail] moves every triple but the last one place
    up and leaves the first where it is. *)
Lemma updateTrail_loop (n : nat) (s : list R) :
  (3 * S n <= length s)%nat ->
  fold_left (fun acc i =>
      (fun i positions =>
        let positions :=
          array_set positions (i * 3) (array_get positions ((i - 1) * 3)) in
        let positions :=
          array_set positions (i * 3 + 1)
            (array_get positions ((i - 1) * 3 + 1)) in
        array_set positions (i * 3 + 2)
          (array_get positions ((i - 1) * 3 + 2))) i acc)
    (rev (seq 1 n)) s
  = take 3 s ++ take (3 * n) s ++ drop (3 * S n) s.
Proof.
  revert s. induction n as [|n IH]; intros s Hlen.
  - cbn [seq rev fold_left]. replace (3 * 0)%nat with 0%nat by lia.
    replace (3 * 1)%nat with 3%nat by lia.
    change (take 0 s) with (@nil R). cbn [app]. now rewrite take_drop.
  - rewrite seq_S, rev_unit. cbn [fold_left]. cbv beta.
    destruct (split_two_triples s (3 * n)) as
      (pre & a & b & c & x & y & z & post & -> & Hpre); [lia|].
    rewrite (trail_triple pre post a b c x y z) by lia.
    rewrite IH by (rewrite !length_app in *; cbn [length] in *; lia).
    change (pre ++ [a; b; c; a; b; c] ++ post)
      with (pre ++ [a; b; c] ++ [a; b; c] ++ post).
    change (pre ++ [a; b; c; x; y; z] ++ post)
      with (pre ++ [a; b; c] ++ [x; y; z] ++ post).
    rewrite !(app_assoc pre [a; b; c]).
    assert (Hp : length (pre ++ [a; b; c]) = (3 * S n)%nat)
      by (rewrite length_app; cbn [length]; lia).
    set (P := pre ++ [a; b; c]) in *.
    rewrite (take_app_le P _ 3) by lia.
    rewrite (take_app_le P _ 3) by lia.
    rewrite (take_app_le P _ (3 * n)) by lia.
    rewrite (take_app_length' P _ (3 * S n)) by lia.
    rewrite (drop_app_length' P _ (3 * S n)) by lia.
    replace (3 * S (S n))%nat with (length P + 3)%nat by lia.
    rewrite drop_app_add. cbn [drop app].
    subst P. rewrite (take_app_length' pre _ (3 * n)) by lia.
    now rewrite <- !app_assoc.
Qed.

(** One call of [updateTrail]: when the counter becomes even the trail
    moves one point up and the first point is put at the ball; otherwise
    the trail is left alone. *)
Lemma updateTrail_spec (n : nat) (this : PongGame) :
  length (trail this) = (3 * S n)%nat ->
  trailUpdateCounter (updateTrail this) = S (trailUpdateCounter this)
  /\ trail (updateTrail this)
     = if (S (trailUpdateCounter this) mod 2 =? 0)%nat
       then [0; 0; 0] ++ take (3 * n) (trail this)
       else trail this.
Proof.
  intros Hlen. unfold updateTrail. cbv zeta. reads.
  destruct (S (trailUpdateCounter this) mod 2 =? 0)%nat; cbn [negb];
    reads; [|now split].
  split; [reflexivity|].
  unfold for_down. rewrite Hlen.
  replace (3 * S n / 3)%nat with (S n)
    by (symmetry; rewrite Nat.mul_comm; apply Nat.div_mul; lia).
  replace (S n - 1)%nat with n by lia.
  rewrite updateTrail_loop by lia.
  rewrite drop_ge by lia. rewrite app_nil_r.
  destruct (trail this) as [|a [|b [|c s]]]; cbn [length] in Hlen; try lia.
  reflexivity.
Qed.

Lemma parity_succ (c : nat) :
  (S c mod 2 =? 0)%nat = negb (c mod 2 =? 0)%nat.
Proof.
  pose proof (Nat.div_mod_eq c 2). pose proof (Nat.div_mod_eq (S c) 2).
  pose proof (Nat.mod_upper_bound c 2).
  pose proof (Nat.mod_upper_bound (S c) 2).
  destruct (Nat.eqb_spec (S c mod 2) 0), (Nat.eqb_spec (c mod 2) 0);
    cbn [negb]; try reflexivity; lia.
Qed.

(** The trail after [j] shifts: [j] points at the ball, then the first
    points of the trail it started from. *)
Lemma updateTrail_shifted (m j : nat) (s : list R) :
  length s = (3 * S m)%nat -> (j <= S m)%nat ->
  [0; 0; 0]
    ++ take (3 * m) (replicate (3 * j) 0 ++ take (3 * S m - 3 * j) s)
  = replicate (3 * Nat.min (S j) (S m)) 0
    ++ take (3 * S m - 3 * Nat.min (S j) (S m)) s.
Proof.
  intros Hlen Hj. destruct (decide (j = S m)) as [->|Hlt].
  - replace (3 * S m - 3 * S m)%nat with 0%nat by lia.
    replace (Nat.min (S (S m)) (S m)) with (S m) by lia.
    replace (3 * S m - 3 * S m)%nat with 0%nat by lia.
    change (take 0 s) with (@nil R). rewrite !app_nil_r.
    rewrite take_replicate.
    replace (3 * m `min` (3 * S m))%nat with (3 * m)%nat by lia.
    change [0; 0; 0] with (replicate 3 0).
    rewrite <- replicate_add. f_equal. lia.
  - replace (Nat.min (S j) (S m)) with (S j) by lia.
    rewrite take_app_ge by (rewrite length_replicate; lia).
    rewrite length_replicate, take_take.
    replace ((3 * m - 3 * j) `min` (3 * S m - 3 * j))%nat
      with (3 * S m - 3 * S j)%nat by lia.
    change [0; 0; 0] with (replicate 3 0).
    rewrite app_assoc, <- replicate_add. f_equal. f_equal. lia.
Qed.

(** X20.  The trail collapses onto the ball. Every second call of
    [updateTrail] puts one more point of the trail at the ball's own position,
    so after twice as many calls as the trail has points all of them lie
    there, and they stay there. *)
Theorem updateTrail_collapses (m n : nat) (this : PongGame) :
  length (trail this) = (3 * S m)%nat ->
  (2 * S m <= n)%nat ->
  trail (Nat.iter n updateTrail this) = replicate (3 * S m) 0.
Proof.
  intros Hlen Hn.
  assert (Hinv : exists j,
    (j <= S m)%nat
    /\ trail (Nat.iter n updateTrail this)
       = replicate (3 * j) 0 ++ take (3 * S m - 3 * j) (trail this)
    /\ (j = S m
        \/ (n + (if (trailUpdateCounter (Nat.iter n updateTrail this) mod 2
                     =? 0)%nat then 1 else 0) <= 2 * j + 1)%nat)).
  { clear Hn. induction n as [|n (j & Hj & Htrail & Hcount)].
    - exists 0%nat. cbn [Nat.iter nat_rect].
      split; [lia|]. split.
      + replace (3 * 0)%nat with 0%nat by lia. cbn [replicate app].
        rewrite take_ge by lia. reflexivity.
      + right. destruct (_ =? _)%nat; lia.
    - change (Nat.iter (S n) updateTrail this)
        with (updateTrail (Nat.iter n updateTrail this)).
      set (t := Nat.iter n updateTrail this) in *.
      assert (Hlen' : length (trail t) = (3 * S m)%nat).
      { rewrite Htrail, length_app, length_replicate, length_take. lia. }
      destruct (updateTrail_spec m t Hlen') as [-> ->].
      rewrite parity_succ.
      destruct (trailUpdateCounter t mod 2 =? 0)%nat; cbn [negb].
      + exists j. split; [exact Hj|]. split; [exact Htrail|].
        destruct Hcount as [->|Hcount]; [now left|right; lia].
      + exists (Nat.min (S j) (S m)). split; [lia|]. split.
        * rewrite Htrail. now apply updateTrail_shifted.
        * destruct Hcount as [->|Hcount]; [left; lia|].
          destruct (decide (j = S m)) as [->|Hlt]; [left; lia|right; lia]. }
  destruct Hinv as (j & Hj & -> & Hcount).
  assert (j = S m) as ->.
  { destruct Hcount as [->|Hcount]; [reflexivity|].
    destruct (_ =? _)%nat; lia. }
  replace (3 * S m - 3 * S m)%nat with 0%nat by lia.
  change (take 0 (trail this)) with (@nil R). now rewrite app_nil_r.
Qed.

Lemma createTrailEffect_length : length createTrailEffect = 150%nat.
Proof.
  unfold createTrailEffect.
  apply (for_loop_ind (fun positions : list R => length positions = 150%nat)).
  - intros i positions Hlen. unfold array_set. now rewrite !length_insert.
  - now rewrite length_replicate.
Qed.

Lemma createBall_trail this : trail (createBall this) = createTrailEffect.
Proof. unfold createBall. cbv zeta. rewrite createMesh_shape. now reads. Qed.

(** The trail of a ball just created has collapsed after a hundred
    calls. *)
Lemma updateTrail_collapses_witness :
  length (trail (createBall (constructor (emptyScene false) page)))
  = (3 * 50)%nat
  /\ (2 * 50 <= 100)%nat
  /\ trail (Nat.iter 100 updateTrail
              (createBall (constructor (emptyScene false) page)))
     = replicate (3 * 50) 0.
Proof.
  assert (Hlen : length (trail (createBall
                   (constructor (emptyScene false) page))) = (3 * 50)%nat)
    by (rewrite createBall_trail; exact createTrailEffect_length).
  assert (Hn : (2 * 50 <= 100)%nat) by lia.
  exact (conj Hlen (conj Hn
           (updateTrail_collapses 49 100
              (createBall (constructor (emptyScene false) page)) Hlen Hn))).
Defined.
(** ** The live list and the pool *)

Lemma pooling_refl this : pooling this this.
Proof. intros H. exact H. Qed.

Lemma pooling_trans a b c : pooling a b -> pooling b c -> pooling a c.
Proof. unfold pooling. auto. Qed.

Lemma pooling_quiet a b : quiet a b -> pooling a b.
Proof.
  intros [Hlive Hpool]. unfold pooling, pooled. now rewrite Hlive, Hpool.
Qed.

Lemma pooling_staged a b : staged a b -> pooling a b.
Proof.
  intros H. apply pooling_quiet.
  destruct (staged_keeps _ _ H) as (H1 & H2 & _). now split.
Qed.

Lemma pooling_random this : pooling this (snd (Math_random this)).
Proof.
  apply pooling_quiet. unfold quiet, Math_random. cbn [snd]. now reads.
Qed.

(** An emission keeps the agreement: the slot it takes was free, so it
    was not on the live list. *)
Lemma pooling_emitParticles position color count speed this :
  pooling this (emitParticles position color count speed this).
Proof.
  intros (Hdup & Hlive & Hactive).
  destruct (list_find (fun ps => active ps = false) (particlePool this))
    as [[slot ps]|] eqn:Hfind.
  - destruct (emitParticles_slot position color count speed this slot ps
                Hfind) as (Hp & (ps' & Hps' & Hact' & _) & Hother).
    apply list_find_Some in Hfind as (Hps & Hfree & _).
    assert (Hnew : slot ∉ particles this).
    { intros Hin. destruct (Hlive slot Hin) as (q & Hq & Hqa). congruence. }
    unfold pooled. rewrite Hp. split; [|split].
    + apply NoDup_app. split; [exact Hdup|]. split; [|apply NoDup_singleton].
      intros x Hx Hx'. apply list_elem_of_singleton in Hx'. congruence.
    + intros s Hs. apply elem_of_app in Hs as [Hs|Hs].
      * assert (s <> slot) by congruence.
        rewrite Hother by assumption. now apply Hlive.
      * apply list_elem_of_singleton in Hs as ->. now exists ps'.
    + intros s q Hq Hqa. apply elem_of_app.
      destruct (decide (s = slot)) as [->|Hne].
      * right. now apply list_elem_of_singleton.
      * left. rewrite Hother in Hq by assumption. now apply (Hactive s q).
  - unfold emitParticles. rewrite Hfind. split; [exact Hdup|]. now split.
Qed.

Lemma with_ps_active_other slot f this other :
  other <> slot ->
  active <$> particlePool (with_ps slot f this) !! other
  = active <$> particlePool this !! other.
Proof. intros Hne. now rewrite with_ps_lookup_other. Qed.

Lemma with_ps_active slot f this other :
  (forall ps, active (f ps) = active ps) ->
  active <$> particlePool (with_ps slot f this) !! other
  = active <$> particlePool this !! other.
Proof.
  intros Hf. destruct (decide (other = slot)) as [->|Hne].
  - unfold with_ps. reads. rewrite list_lookup_alter.
    destruct (decide (slot = slot)); [|congruence].
    destruct (particlePool this !! slot) as [ps|]; cbn; [|reflexivity].
    now rewrite Hf.
  - now apply with_ps_active_other.
Qed.

(** Ageing touches no system that is not on the list it runs through. *)
Lemma updateParticles_loop_other deltaTime refs :
  forall this slot,
    slot ∉ refs ->
    active <$> particlePool (snd (updateParticles_loop deltaTime refs this))
                 !! slot
    = active <$> particlePool this !! slot.
Proof.
  induction refs as [|first rest IH]; intros this slot Hout; [reflexivity|].
  apply not_elem_of_cons in Hout as [Hne Hout].
  rewrite updateParticles_loop_cons. cbv zeta.
  set (aged := with_ps first
    (fun ps => set_lifetime (lifetime ps + deltaTime) ps) this).
  assert (Haged : active <$> particlePool aged !! slot
                  = active <$> particlePool this !! slot)
    by now apply with_ps_active_other.
  destruct (particlePool aged !! first) as [ps|].
  - destruct (_ <=? _).
    + rewrite IH by assumption. now rewrite !with_ps_active_other.
    + match goal with
      | |- context [updateParticles_loop deltaTime rest ?t] =>
          pose proof (IH t slot Hout) as IH';
          destruct (updateParticles_loop deltaTime rest t) as [kept this']
      end.
      cbn [snd] in *. rewrite IH'. now rewrite with_ps_active_other.
  - now rewrite IH.
Qed.

(** A system it keeps on the list is as active as it was. *)
Lemma updateParticles_loop_kept deltaTime refs :
  forall this slot,
    NoDup refs ->
    slot ∈ fst (updateParticles_loop deltaTime refs this) ->
    active <$> particlePool (snd (updateParticles_loop deltaTime refs this))
                 !! slot
    = active <$> particlePool this !! slot.
Proof.
  induction refs as [|first rest IH]; intros this slot Hdup Hin.
  - now apply elem_of_nil in Hin.
  - apply NoDup_cons in Hdup as [Hfresh Hdup].
    rewrite updateParticles_loop_cons in *. cbv zeta in *.
    set (aged := with_ps first
      (fun ps => set_lifetime (lifetime ps + deltaTime) ps) this) in *.
    assert (Haged : active <$> particlePool aged !! slot
                    = active <$> particlePool this !! slot)
      by (apply with_ps_active; reflexivity).
    destruct (particlePool aged !! first) as [ps|].
    + destruct (_ <=? _).
      * assert (Hrest : slot ∈ rest)
          by (eapply elem_of_sublist;
              [exact Hin | apply updateParticles_loop_sublist]).
        assert (slot <> first) by congruence.
        rewrite IH by assumption. now rewrite !with_ps_active_other.
      * match type of Hin with
        | context [updateParticles_loop deltaTime rest ?t] =>
            pose proof (IH t slot Hdup) as IH';
            pose proof (updateParticles_loop_other deltaTime rest t slot)
              as Hother;
            pose proof (updateParticles_loop_sublist deltaTime rest t)
              as Hsub;
            destruct (updateParticles_loop deltaTime rest t)
              as [kept this']
        end.
        cbn [fst snd] in *. apply elem_of_cons in Hin as [->|Hin].
        -- rewrite Hother by assumption. rewrite <- Haged.
           apply with_ps_active. intros ps0.
           apply updateParticles_body_active.
        -- rewrite IH' by assumption. rewrite <- Haged.
           apply with_ps_active. intros ps0.
           apply updateParticles_body_active.
    + rewrite IH by assumption. exact Haged.
Qed.

Lemma pooling_updateParticles deltaTime this :
  pooling this (updateParticles deltaTime this).
Proof.
  intros (Hdup & Hlive & Hactive). unfold updateParticles.
  pose proof (updateParticles_loop_sublist deltaTime (particles this) this)
    as Hsub.
  pose proof (updateParticles_loop_releases deltaTime (particles this) this)
    as Hrel.
  pose proof (updateParticles_loop_other deltaTime (particles this) this)
    as Hother.
  pose proof (updateParticles_loop_kept deltaTime (particles this) this)
    as Hkept.
  destruct (updateParticles_loop _ _ _) as [kept this']. cbn [fst snd] in *.
  unfold pooled. reads. split; [|split].
  - eapply sublist_NoDup; eassumption.
  - intros slot Hin. specialize (Hkept slot Hdup Hin).
    destruct (Hlive slot (elem_of_sublist _ _ _ Hin Hsub)) as (ps & Hps & Hact).
    rewrite Hps in Hkept. cbn in Hkept.
    destruct (particlePool this' !! slot) as [ps'|]; [|discriminate].
    exists ps'. split; [reflexivity|]. cbn in Hkept. congruence.
  - intros slot ps' Hps' Hact'.
    destruct (decide (slot ∈ kept)) as [|Hout]; [assumption|exfalso].
    destruct (decide (slot ∈ particles this)) as [Hin|Hnot].
    + destruct (Hlive slot Hin) as (ps & Hps & _).
      destruct (Hrel slot Hin Hout (ex_intro _ ps Hps)) as (q & Hq & Hfree).
      congruence.
    + specialize (Hother slot Hnot). rewrite Hps' in Hother. cbn in Hother.
      destruct (particlePool this !! slot) as [ps|] eqn:Hps; [|discriminate].
      cbn in Hother. apply Hnot, (Hactive slot ps Hps). congruence.
Qed.

Create HintDb pooling.

#[export] Hint Resolve pooling_refl pooling_emitParticles
  pooling_updateParticles : pooling.

#[export] Hint Extern 1 (pooling _ (updateScoreDisplay _)) =>
  apply pooling_quiet, quiet_updateScoreDisplay : pooling.
#[export] Hint Extern 1 (pooling _ (playSound _ _)) =>
  apply pooling_staged, staged_playSound : pooling.
#[export] Hint Extern 1 (pooling _ (setTimeout _ _ _)) =>
  apply pooling_staged, staged_setTimeout : pooling.
#[export] Hint Extern 1 (pooling _ (flashPaddle _ _)) =>
  apply pooling_staged, staged_flashPaddle : pooling.
#[export] Hint Extern 1 (pooling _ (createScoreIndicator _ _ _)) =>
  apply pooling_staged, staged_createScoreIndicator : pooling.
#[export] Hint Extern 1 (pooling _ (checkGameEnd _)) =>
  apply pooling_staged, staged_checkGameEnd : pooling.
#[export] Hint Extern 1 (pooling _ (updateTrail _)) =>
  apply pooling_staged, staged_updateTrail : pooling.
#[export] Hint Extern 1 (pooling _ (updateScoreIndicators _ _)) =>
  apply pooling_staged, staged_updateScoreIndicators : pooling.
#[export] Hint Extern 5 (pooling _ _) =>
  apply pooling_quiet; unfold quiet, moveBall; reads; split; reflexivity
  : pooling.

(** Follow a method statement by statement, carrying [pooling] along. *)
Ltac pooling_step :=
  match goal with
  | H : Math_random ?s = (_, ?t), A : pooling ?a ?s |- _ =>
      let A' := fresh "A" in
      assert (A' : pooling a t)
        by (apply (pooling_trans _ _ _ A);
            replace t with (snd (Math_random s)) by (now rewrite H);
            apply pooling_random);
      clear H A
  | H : ?t = ?rhs, A : pooling ?a ?s |- _ =>
      is_var t;
      lazymatch rhs with context [s] => idtac end;
      let A' := fresh "A" in
      assert (A' : pooling a t)
        by (rewrite H; apply (pooling_trans _ _ _ A); auto with pooling);
      clear H A
  end.

Ltac poolingly f c :=
  let r := fresh "r" in let Hr := fresh "Hr" in
  let A := fresh "A" in let goal := fresh "goal" in
  match goal with |- pooling ?a _ =>
    pose proof (pooling_refl a) as A; set (goal := pooling a)
  end;
  pattern c; apply name_value; intros r Hr; revert Hr;
  cbv beta delta [f]; execs; intros Hr;
  repeat match goal with E : (_ <? _) = _ |- _ => clear E
                       | E : (_ <=? _) = _ |- _ => clear E end;
  repeat pooling_step;
  subst goal; try assumption.

Lemma pooling_integrate deltaTime this :
  pooling this (integrate deltaTime this).
Proof. apply pooling_quiet, quiet_integrate. Qed.

Lemma pooling_floorCeiling this : pooling this (floorCeiling this).
Proof. poolingly floorCeiling (floorCeiling this). Qed.

Lemma pooling_sideWalls this : pooling this (sideWalls this).
Proof. poolingly sideWalls (sideWalls this). Qed.

Lemma pooling_launchBall this : pooling this (launchBall this).
Proof. poolingly launchBall (launchBall this). Qed.

#[export] Hint Resolve pooling_launchBall : pooling.

Lemma pooling_resetBall initialStart this :
  pooling this (resetBall initialStart this).
Proof. poolingly resetBall (resetBall initialStart this). Qed.

Lemma pooling_bounce paddle this : pooling this (bounce paddle this).
Proof.
  apply pooling_quiet. unfold quiet, bounce. cbv zeta. reads. now split.
Qed.

#[export] Hint Resolve pooling_resetBall pooling_bounce : pooling.

Lemma pooling_playerPaddleCollision this :
  pooling this (playerPaddleCollision this).
Proof. poolingly playerPaddleCollision (playerPaddleCollision this). Qed.

Lemma pooling_aiPaddleCollision this :
  pooling this (aiPaddleCollision this).
Proof. poolingly aiPaddleCollision (aiPaddleCollision this). Qed.

Lemma pooling_checkScoring this : pooling this (checkScoring this).
Proof. poolingly checkScoring (checkScoring this). Qed.

Lemma pooling_update deltaTime this : pooling this (update deltaTime this).
Proof.
  destruct (isPlaying this) eqn:Hp.
  - rewrite update_blocks by assumption. unfold checkPaddleCollisions.
    repeat match goal with
    | |- pooling _ (updateScoreIndicators _ _) =>
        eapply pooling_trans;
          [|apply pooling_staged, staged_updateScoreIndicators]
    | |- pooling _ (spin _) =>
        eapply pooling_trans; [|apply pooling_quiet, quiet_spin]
    | |- pooling _ (updateAI _ _) =>
        eapply pooling_trans; [|apply pooling_quiet, quiet_updateAI]
    | |- pooling _ (checkScoring _) =>
        eapply pooling_trans; [|apply pooling_checkScoring]
    | |- pooling _ (aiPaddleCollision _) =>
        eapply pooling_trans; [|apply pooling_aiPaddleCollision]
    | |- pooling _ (playerPaddleCollision _) =>
        eapply pooling_trans; [|apply pooling_playerPaddleCollision]
    | |- pooling _ (sideWalls _) =>
        eapply pooling_trans; [|apply pooling_sideWalls]
    | |- pooling _ (updateParticles _ _) =>
        eapply pooling_trans; [|apply pooling_updateParticles]
    | |- pooling _ (updateTrail _) =>
        eapply pooling_trans; [|apply pooling_staged, staged_updateTrail]
    | |- pooling _ (floorCeiling _) =>
        eapply pooling_trans; [|apply pooling_floorCeiling]
    end.
    apply pooling_integrate.
  - unfold update. rewrite Hp. apply pooling_refl.
Qed.

Lemma pooling_runTimeout callback this :
  pooling this (runTimeout callback this).
Proof.
  destruct callback.
  - apply pooling_launchBall.
  - apply pooling_refl.
  - poolingly runTimeout (runTimeout Celebrate this).
  - poolingly runTimeout (runTimeout RoundReset this).
Qed.

Lemma pooling_updatePointerPosition event this :
  pooling this (updatePointerPosition event this).
Proof.
  apply pooling_quiet. unfold quiet.
  runs updatePointerPosition (updatePointerPosition event this);
    try destruct (intersectionPoint event); exec; unwind; now split.
Qed.

Lemma pooled_initialize scene host :
  pooled (initialize (constructor scene host)).
Proof.
  destruct (initialize_pool (constructor scene host)) as (Hidle & _ & Hlive);
    [apply Forall_nil; exact I|].
  unfold pooled. rewrite Hlive.
  change (particles (constructor scene host)) with (@nil nat).
  split; [constructor|]. split.
  - intros slot Hin. now apply elem_of_nil in Hin.
  - intros slot ps Hps Hact.
    pose proof (Forall_lookup_1 _ _ _ _ Hidle Hps) as (Hfree & _).
    congruence.
Qed.

(** X7.  Throughout a session the live list and the pool agree: no system is
    listed twice, every listed system is an active system of the pool, and
    every active system of the pool is listed. No system is lost to the pool:
    whatever is active is aged by [updateParticles] and given back when it
    expires. *)
Theorem session_pool_accounted (this : PongGame) :
  reachable this -> pooled this.
Proof.
  induction 1 as [scene host|deltaTime this _ IH|callback this _ IH
                 |event this _ IH|event this _ IH|this _ IH|this _ IH].
  - apply pooled_initialize.
  - exact (pooling_update deltaTime this IH).
  - exact (pooling_runTimeout callback this IH).
  - unfold onPointerDown.
    apply pooling_updatePointerPosition.
    revert IH. apply pooling_quiet. unfold quiet. now reads.
  - unfold onPointerMove. destruct (pointerDown this); [|exact IH].
    exact (pooling_updatePointerPosition event this IH).
  - unfold onPointerUp. revert IH. apply pooling_quiet. unfold quiet.
    now reads.
  - destruct (dispose_shape this) as (sc & au & ->).
    revert IH. apply pooling_quiet. unfold quiet. now reads.
Qed.

Lemma session_pool_accounted_witness :
  reachable (update 1 newGame) /\ pooled (update 1 newGame).
Proof.
  pose proof firstFrame_reachable as Hr.
  exact (conj Hr (session_pool_accounted _ Hr)).
Defined.

(** * The round reset, in a session *)

Lemma emitParticles_timeouts position color count speed this :
  timeouts (emitParticles position color count speed this) = timeouts this.
Proof.
  now destruct (emitted_keeps _ _
    (emitParticles_emitted position color count speed this)) as (_ & _ & -> & _).
Qed.

Lemma updateScoreDisplay_timeouts this :
  timeouts (updateScoreDisplay this) = timeouts this.
Proof.
  destruct (updateScoreDisplay_shape this) as (shownPlayer & shownAi & ->).
  now reads.
Qed.

Lemma createScoreIndicator_timeouts position isPlayer this :
  timeouts (createScoreIndicator position isPlayer this) = timeouts this.
Proof.
  unfold createScoreIndicator, fresh, Scene.fresh, addObject.
  cbv beta iota zeta. now reads.
Qed.

Lemma launchBall_timeouts this : timeouts (launchBall this) = timeouts this.
Proof.
  runs launchBall (launchBall this);
    rewrite playSound_timeouts;
    repeat match goal with
    | H : ?t = _ |- context [timeouts ?t] =>
        rewrite H; rewrite ?emitParticles_timeouts; reads
    end;
    unwind; reflexivity.
Qed.

Lemma resetBall_false_timeouts this :
  timeouts (resetBall false this) = timeouts this.
Proof.
  unfold resetBall. cbv zeta. rewrite launchBall_timeouts. now reads.
Qed.

(** A point scored while a score stands at [winningScore] or above
    schedules the celebrations and the round reset once more, behind
    whatever is pending. *)
Lemma checkScoring_timeouts (this : PongGame) :
  (winningScore <= playerScore this \/ winningScore <= aiScore this)%nat ->
  tableDepth / 2 + ballRadius < THREE.z (position (ball this))
  \/ THREE.z (position (ball this)) < - tableDepth / 2 - ballRadius ->
  timeouts (checkScoring this)
  = timeouts this
    ++ map (fun i => (INR i * 300, Celebrate)) (seq 0 5)
    ++ [(3000, RoundReset)].
Proof.
  intros Hwon Hev.
  runs checkScoring (checkScoring this).
  all: try match goal with H : ?t = ?u |- _ => is_var t; is_var u; subst t end.
  - exfalso. revert E0. unwind. intros E0. tests.
    unfold tableCenter in E0. cbn [THREE.z] in E0. consts. lra.
  - match goal with H : ?t = checkGameEnd _ |- _ => rewrite H end.
    rewrite checkGameEnd_timeouts.
    + f_equal.
      repeat match goal with
      | H : ?t = _ |- context [timeouts ?t] =>
          rewrite H;
          rewrite ?resetBall_false_timeouts, ?emitParticles_timeouts,
            ?playSound_timeouts, ?createScoreIndicator_timeouts,
            ?updateScoreDisplay_timeouts; reads
      end.
      reflexivity.
    + unwind. apply orb_true_iff.
      destruct Hwon as [H|H]; [left|right]; apply Nat.leb_le; lia.
  - rewrite checkGameEnd_timeouts.
    + f_equal.
      repeat match goal with
      | H : ?t = _ |- context [timeouts ?t] =>
          rewrite H;
          rewrite ?resetBall_false_timeouts, ?emitParticles_timeouts,
            ?playSound_timeouts, ?createScoreIndicator_timeouts,
            ?updateScoreDisplay_timeouts; reads
      end.
      reflexivity.
    + unwind. apply orb_true_iff.
      destruct Hwon as [H|H]; [left|right]; apply Nat.leb_le; lia.
  - exfalso. tests. destruct Hev; lra.
Qed.

Lemma resets_app (l k : list (R * Timeout)) :
  resets (l ++ k) = (resets l + resets k)%nat.
Proof.
  induction l as [|[delay callback] l IH]; [reflexivity|].
  destruct callback; cbn [app resets]; rewrite IH; reflexivity.
Qed.

Lemma resets_Permutation (l k : list (R * Timeout)) :
  l ≡ₚ k -> resets l = resets k.
Proof.
  induction 1 as [|[delay callback] l k _ IH
                 |[d1 c1] [d2 c2] l|l k m _ IH1 _ IH2].
  - reflexivity.
  - destruct callback; cbn [resets]; now rewrite IH.
  - destruct c1, c2; reflexivity.
  - congruence.
Qed.

(** What the callbacks do to the level and to the speed: a round reset
    raises the level by one and sets the speed for the level it reaches,
    the others touch neither. *)
Lemma runTimeout_level callback this :
  match callback with
  | RoundReset =>
      gameLevel (runTimeout callback this) = S (gameLevel this)
      /\ ballSpeed (runTimeout callback this)
         = Math_min (0.5 + INR (S (gameLevel this)) * 0.05) 0.8
  | _ =>
      gameLevel (runTimeout callback this) = gameLevel this
      /\ ballSpeed (runTimeout callback this) = ballSpeed this
  end.
Proof.
  destruct callback.
  - cbn [runTimeout]. now rewrite launchBall_gameLevel, launchBall_ballSpeed.
  - now split.
  - destruct (steady_celebrate this) as (_ & -> & -> & _). now split.
  - destruct (roundReset_spec this) as (_ & _ & -> & -> & _). now split.
Qed.

Lemma fire_level (order : list (R * Timeout)) :
  forall this,
    gameLevel (fire order this) = (gameLevel this + resets order)%nat
    /\ ballSpeed (fire order this)
       = match resets order with
         | O => ballSpeed this
         | S _ =>
             Math_min
               (0.5 + INR (gameLevel this + resets order) * 0.05) 0.8
         end.
Proof.
  induction order as [|[delay callback] rest IH]; intros this.
  - cbn [fire fold_left resets]. split; [lia | reflexivity].
  - change (fire ((delay, callback) :: rest) this)
      with (fire rest (runTimeout callback this)).
    destruct (IH (runTimeout callback this)) as [-> ->].
    pose proof (runTimeout_level callback this) as Hcb.
    destruct callback; cbn [resets]; destruct Hcb as [-> ->].
    + split; reflexivity.
    + split; reflexivity.
    + split; reflexivity.
    + split; [lia|]. destruct (resets rest) as [|n].
      * replace (gameLevel this + 1)%nat with (S (gameLevel this)) by lia.
        reflexivity.
      * replace (S (gameLevel this) + S n)%nat
          with (gameLevel this + S (S n))%nat by lia.
        reflexivity.
Qed.

(** C4.  The round does not end once per win.  After a win play goes on
    and the winning score stays on the board until the reset fires, so a
    point scored in between makes [checkGameEnd] schedule a further
    reset.  Once the timeouts pending after that point have fired, in
    whatever order, the level has risen by one for every reset that was
    pending and by one more for the new one, and the speed is the one of
    the level reached: one win raises the level by two. *)
Theorem late_point_resets_again (this : PongGame)
    (order : list (R * Timeout)) :
  (winningScore <= playerScore this \/ winningScore <= aiScore this)%nat ->
  tableDepth / 2 + ballRadius < THREE.z (position (ball this))
  \/ THREE.z (position (ball this)) < - tableDepth / 2 - ballRadius ->
  order ≡ₚ timeouts (checkScoring this) ->
  resets (timeouts (checkScoring this)) = S (resets (timeouts this))
  /\ gameLevel (fire order (checkScoring this))
     = (gameLevel this + S (resets (timeouts this)))%nat
  /\ ballSpeed (fire order (checkScoring this))
     = Math_min
         (0.5 + INR (gameLevel this + S (resets (timeouts this))) * 0.05)
         0.8.
Proof.
  intros Hwon Hev Horder.
  assert (Hresets : resets (timeouts (checkScoring this))
                    = S (resets (timeouts this))).
  { rewrite (checkScoring_timeouts this Hwon Hev), !resets_app.
    cbn [seq map resets]. lia. }
  split; [exact Hresets|].
  destruct (fire_level order (checkScoring this)) as [-> ->].
  rewrite (resets_Permutation _ _ Horder), Hresets.
  destruct (checkScoring_spec this) as (_ & _ & _ & -> & _).
  split; reflexivity.
Qed.

Lemma lateScore_spec :
  playerScore lateScore = 5%nat
  /\ THREE.z (position (ball lateScore)) = -0.7
  /\ gameLevel lateScore = 1%nat
  /\ timeouts lateScore
     = map (fun i => (INR i * 300, Celebrate)) (seq 0 5)
       ++ [(3000, RoundReset)].
Proof.
  unfold lateScore, matchPoint.
  generalize newGame_spec. generalize newGame.
  intros g (_ & _ & _ & _ & _ & _ & _ & _ & Hlevel & _).
  pose proof (effects_keeps _ _
    (checkGameEnd_effects (set_timeouts [] (set_playerScore 5 g))))
    as (_ & _ & _ & _ & _ & _ & Hscore & _ & Hsame & _).
  pose proof (checkGameEnd_timeouts (set_timeouts [] (set_playerScore 5 g))
                eq_refl) as Hnew.
  revert Hscore Hsame Hnew.
  generalize (checkGameEnd (set_timeouts [] (set_playerScore 5 g))).
  intros won. unfold moveBall. reads. intros -> -> ->. rewrite Hlevel.
  exact (conj eq_refl (conj eq_refl (conj eq_refl eq_refl))).
Qed.

(** At [lateScore] one win has left one reset pending; the point scored
    there leaves two, and when the timeouts have fired the game stands at
    level 3 with the speed of level 3. *)
Lemma late_point_resets_again_witness :
  (winningScore <= playerScore lateScore \/ winningScore <= aiScore lateScore)%nat
  /\ THREE.z (position (ball lateScore)) < - tableDepth / 2 - ballRadius
  /\ resets (timeouts lateScore) = 1%nat
  /\ gameLevel lateScore = 1%nat
  /\ resets (timeouts (checkScoring lateScore)) = 2%nat
  /\ gameLevel (fire (timeouts (checkScoring lateScore))
                  (checkScoring lateScore)) = 3%nat
  /\ ballSpeed (fire (timeouts (checkScoring lateScore))
                  (checkScoring lateScore))
     = Math_min (0.5 + INR 3 * 0.05) 0.8.
Proof.
  destruct lateScore_spec as (Hscore & Hz & Hlevel & Hpending).
  assert (Hresets : resets (timeouts lateScore) = 1%nat)
    by (rewrite Hpending; reflexivity).
  assert (Hwon : (winningScore <= playerScore lateScore
                  \/ winningScore <= aiScore lateScore)%nat)
    by (left; rewrite Hscore; unfold winningScore; lia).
  assert (Hpassed : THREE.z (position (ball lateScore))
                    < - tableDepth / 2 - ballRadius)
    by (rewrite Hz; consts; lra).
  destruct (late_point_resets_again lateScore
              (timeouts (checkScoring lateScore)) Hwon (or_intror Hpassed)
              (reflexivity _)) as (Hagain & Hl & Hs).
  rewrite Hresets in Hagain. rewrite Hlevel, Hresets in Hl.
  rewrite Hlevel, Hresets in Hs.
  exact (conj Hwon (conj Hpassed (conj Hresets (conj Hlevel
           (conj Hagain (conj Hl Hs)))))).
Defined.

(** * The AI's paddle, in a session *)

(** Within [aiPaddleVolume], the paddles that stand on the table, at most
    0.05 from its end, are in the player's volume mirrored. *)
Lemma aiPaddleVolume_on_table (p : THREE.Vector3) :
  aiPaddleVolume p ->
  - tableDepth / 2 <= THREE.z p <= - tableDepth / 2 + 0.05 ->
  mirroredPlayerVolume p.
Proof.
  unfold aiPaddleVolume, mirroredPlayerVolume, playerPaddleVolume.
  cbn [THREE.x THREE.y THREE.z]. consts. lra.
Qed.

(** The paddle is created 0.05 before the AI's end of the table, and every
    move [updateAI] makes takes it towards that line, up to a jitter of at
    most 0.01 that the clamp cuts off on the far side: in a session the
    paddle never leaves the table. *)
Lemma reachable_aiPaddle (this : PongGame) :
  reachable this ->
  aiPaddleVolume (position (aiPaddle this))
  /\ ((forall n, 0 <= rng this n <= 1) ->
      - tableDepth / 2 <= THREE.z (position (aiPaddle this))
        <= - tableDepth / 2 + 0.05).
Proof.
  induction 1 as [scene host|deltaTime this _ IH|callback this _ IH
                 |event this _ IH|event this _ IH|this _ IH|this _ IH].
  - destruct (initialize_spec (constructor scene host))
      as (_ & _ & -> & _).
    unfold aiPaddleVolume. cbn [THREE.x THREE.y THREE.z]. consts.
    repeat split; lra.
  - destruct (isPlaying this) eqn:Hp.
    + destruct (update_aiPaddle deltaTime this Hp)
        as (before & Hb & Hr & ->).
      split; [apply updateAI_spec|].
      destruct (steady_update deltaTime this) as (_ & _ & _ & -> & _).
      intros Hrng. apply updateAI_z_session.
      * now rewrite Hr.
      * rewrite Hb. now apply IH.
    + unfold update. now rewrite Hp.
  - destruct callback.
    + cbn [runTimeout]. rewrite launchBall_aiPaddle, launchBall_rng.
      exact IH.
    + exact IH.
    + destruct (celebrate_keeps this) as [-> _].
      destruct (steady_celebrate this) as (_ & _ & _ & -> & _). exact IH.
    + destruct (roundReset_keeps this) as (_ & -> & _).
      destruct (roundReset_spec this) as (_ & _ & _ & _ & _ & _ & ->).
      exact IH.
  - unfold onPointerDown.
    destruct (updatePointerPosition_keeps event (set_pointerDown true this))
      as (_ & _ & -> & _ & _ & -> & _). exact IH.
  - unfold onPointerMove. destruct (pointerDown this); [|exact IH].
    destruct (updatePointerPosition_keeps event this)
      as (_ & _ & -> & _ & _ & -> & _). exact IH.
  - exact IH.
  - destruct (dispose_keeps this)
      as (_ & _ & (_ & _ & _ & -> & _) & _ & -> & _).
    exact IH.
Qed.


